(** * CodingBookAI: the generation pipeline, the rate limiter and the cache

    A shallow embedding of the TypeScript sources

    - [src/lib/rate-limit.ts]   (module [RateLimiter])
    - [src/lib/cache.ts]        (module [MemoryCache])
    - [src/lib/validation.ts] and the schemas of [src/lib/types.ts]
    - [src/lib/gemini.ts]       (the response parser)
    - [src/lib/database.ts]     (the question store)
    - [src/app/api/generate/route.ts] (the orchestrator [POST])

    followed by the properties the specification states about them and
    by further properties of the same files: whole runs of the limiter,
    the sweeps and the wrapper of the cache, [validateEmail],
    [sanitizeHtml], the keys of the table, and the answers of [POST].

    Conventions.  A JavaScript string is the list of its UTF-16 code
    units; [Date.now()] is an integer number of milliseconds, passed to
    every operation that reads the clock; a [Map] is a [gmap]; a thrown
    exception is the [Throw] branch of [Result]. *)

From Stdlib Require Import ZArith NArith List String Ascii Bool Lia DecimalString.
From stdpp Require Import base option list gmap.

Set Warnings "-register-all".
Local Open Scope Z_scope.

(* ===================================================================== *)
(** * Part I: definitions                                                 *)
(* ===================================================================== *)

(** ** JavaScript strings *)

Abbreviation codeunit := N (only parsing).
Abbreviation jsstring := (list N) (only parsing).

Module Js.

(** A string literal of the source, as code units. *)
Definition js (s : string) : jsstring :=
  map N_of_ascii (list_ascii_of_string s).

Definition quote : codeunit := 34%N.      (* the double quote *)

(** ECMAScript [WhiteSpace] and [LineTerminator]: what [trim] strips
    and what the pattern class [\s] matches. *)
Definition isWhiteSpace (c : codeunit) : bool :=
  ((9 <=? c) && (c <=? 13) || (c =? 32) || (c =? 160) || (c =? 5760)
   || (8192 <=? c) && (c <=? 8202) || (c =? 8232) || (c =? 8233)
   || (c =? 8239) || (c =? 8287) || (c =? 12288) || (c =? 65279))%N.

Fixpoint trimStart (s : jsstring) : jsstring :=
  match s with
  | c :: s' => if isWhiteSpace c then trimStart s' else s
  | [] => []
  end.

Definition trimEnd (s : jsstring) : jsstring := rev (trimStart (rev s)).

(** [String.prototype.trim]. *)
Definition trim (s : jsstring) : jsstring := trimEnd (trimStart s).

End Js.

Import Js.

(** ** Exceptions *)

(** The error classes of [types.ts], plus the built-in ones the code can
    meet. *)
Inductive ErrorClass :=
| ValidationError | DatabaseError | GeminiError
| PlainError | TypeError | SyntaxError.

Record JsError := mkError { errClass : ErrorClass; errMessage : jsstring }.

Inductive Result (A : Type) :=
| Ok (a : A)
| Throw (e : JsError).
Arguments Ok {A} a.
Arguments Throw {A} e.

Definition bind {A B} (r : Result A) (k : A -> Result B) : Result B :=
  match r with Ok a => k a | Throw e => Throw e end.

Notation "'let*' x ':=' r 'in' k" := (bind r (fun x => k))
  (at level 10, x name, r at level 100, k at level 200).

Definition isOk {A} (r : Result A) : bool :=
  match r with Ok _ => true | Throw _ => false end.

(** ** rate-limit.ts *)

Module RateLimiter.

Record RateLimitConfig := { windowMs : Z; maxRequests : Z }.

Record RateLimitInfo := { requests : list Z; lastReset : Z }.

Record Verdict := { allowed : bool; remaining : Z; resetTime : Z }.

(** [isAllowed(clientId)], with [now] the reading of [Date.now()].  The
    record fetched from (or put into) the map is mutated in place, so the
    map holds the pruned and extended list afterwards. *)
Definition isAllowed (config : RateLimitConfig) (now : Z) (clientId : jsstring)
    (clients : gmap jsstring RateLimitInfo)
  : Verdict * gmap jsstring RateLimitInfo :=
  let windowStart := now - windowMs config in
  let clientInfo :=
    match clients !! clientId with
    | Some info => info
    | None => {| requests := []; lastReset := now |}
    end in
  let pruned := filter (fun time => windowStart < time) (requests clientInfo) in
  let currentRequests := Z.of_nat (length pruned) in
  let allowed := currentRequests <? maxRequests config in
  let requests' := if allowed then pruned ++ [now] else pruned in
  let remaining := Z.max 0 (maxRequests config - Z.of_nat (length requests')) in
  let resetTime := windowStart + windowMs config in
  ({| allowed := allowed; remaining := remaining; resetTime := resetTime |},
   <[clientId := {| requests := requests'; lastReset := lastReset clientInfo |}]>
     clients).

Definition reset (clientId : jsstring) (clients : gmap jsstring RateLimitInfo)
  : gmap jsstring RateLimitInfo :=
  delete clientId clients.

(** The sweep run every minute by the constructor's [setInterval]. *)
Definition cleanup (config : RateLimitConfig) (now : Z)
    (clients : gmap jsstring RateLimitInfo) : gmap jsstring RateLimitInfo :=
  let cutoff := now - windowMs config * 2 in
  filter (fun entry => ¬ (lastReset entry.2 < cutoff)) clients.

(** The four limiters of [rateLimiters]. *)
Definition api := {| windowMs := 60 * 1000; maxRequests := 100 |}.
Definition generation := {| windowMs := 60 * 1000; maxRequests := 5 |}.
Definition chat := {| windowMs := 60 * 1000; maxRequests := 30 |}.
Definition export := {| windowMs := 60 * 1000; maxRequests := 10 |}.

(** A run of the limiter: calls and sweeps at given clock readings. *)
Inductive Op :=
| Call (now : Z) (clientId : jsstring)
| Sweep (now : Z).

Fixpoint run (config : RateLimitConfig) (ops : list Op)
    (clients : gmap jsstring RateLimitInfo)
  : list bool * gmap jsstring RateLimitInfo :=
  match ops with
  | [] => ([], clients)
  | Call now clientId :: ops' =>
      let (v, clients') := isAllowed config now clientId clients in
      let (vs, final) := run config ops' clients' in
      (allowed v :: vs, final)
  | Sweep now :: ops' => run config ops' (cleanup config now clients)
  end.

(** The admission rule in the specification's words: drop the timestamps
    older than [now - window], admit when fewer than the maximum remain. *)
Definition spec_admits (config : RateLimitConfig) (now : Z) (recorded : list Z)
  : bool :=
  Z.of_nat (length (filter (fun time => ¬ (time < now - windowMs config)) recorded))
  <? maxRequests config.

(** The clock readings of the calls of [clientId] among [calls] that the
    verdicts [vs] admitted. *)
Fixpoint admittedTimes (clientId : jsstring) (calls : list (Z * jsstring))
    (vs : list bool) : list Z :=
  match calls, vs with
  | (now, c) :: calls', v :: vs' =>
      if v && bool_decide (c = clientId)
      then now :: admittedTimes clientId calls' vs'
      else admittedTimes clientId calls' vs'
  | _, _ => []
  end.

(** A run that only calls, at the given clock readings. *)
Definition callsOnly (calls : list (Z * jsstring)) : list Op :=
  map (fun call => Call call.1 call.2) calls.

(** The clock readings of the calls never go back, from [last] on. *)
Fixpoint ascending (last : Z) (calls : list (Z * jsstring)) : Prop :=
  match calls with
  | [] => True
  | (now, _) :: calls' => last <= now /\ ascending now calls'
  end.

(** The records of the limiter against the history of the admitted
    calls: the record of a client holds the calls of its history that
    were in the window when it last called. *)
Definition tracks (config : RateLimitConfig) (clients : gmap jsstring RateLimitInfo)
    (history : jsstring -> list Z) (last : Z) : Prop :=
  forall c,
    match clients !! c with
    | Some info =>
        exists p, p <= last
                  /\ requests info
                     = filter (fun time => p - windowMs config < time) (history c)
    | None => history c = []
    end.

(** The operations that concern one client: its own calls, and every
    sweep. *)
Definition concerns (clientId : jsstring) (op : Op) : bool :=
  match op with
  | Call _ c => bool_decide (c = clientId)
  | Sweep _ => true
  end.

(** The verdicts of a run that went to the calls of [clientId]. *)
Fixpoint answersTo (clientId : jsstring) (ops : list Op) (vs : list bool)
  : list bool :=
  match ops, vs with
  | Call _ c :: ops', v :: vs' =>
      if bool_decide (c = clientId)
      then v :: answersTo clientId ops' vs'
      else answersTo clientId ops' vs'
  | Sweep _ :: ops', _ => answersTo clientId ops' vs
  | _, _ => []
  end.

(** [s.split(sep)] for a separator of one code unit. *)
Fixpoint str_split (sep : codeunit) (s : jsstring) : list jsstring :=
  match s with
  | [] => [[]]
  | c :: s' =>
      if (c =? sep)%N then [] :: str_split sep s'
      else match str_split sep s' with
           | piece :: pieces => (c :: piece) :: pieces
           | [] => [[c]]
           end
  end.

(** A request as [getClientId] reads it: [request.headers.get(name)],
    with [None] for [null]. *)
Record Request := { headersGet : jsstring -> option jsstring }.

(** [forwarded?.split(',')[0] || realIp || 'unknown']: an absent or empty
    operand of [||] gives way to the next one. *)
Definition getClientId (request : Request) : jsstring :=
  let forwarded := headersGet request (js "x-forwarded-for") in
  let realIp := headersGet request (js "x-real-ip") in
  match option_map (fun f => nth 0 (str_split 44 f) []) forwarded with
  | Some (c :: ip) => c :: ip
  | _ =>
      match realIp with
      | Some (c :: ip) => c :: ip
      | _ => js "unknown"
      end
  end.

End RateLimiter.

(** ** cache.ts *)

Module MemoryCache.

Section Cache.
Context {T : Type}.

Record CacheItem := { data : T; timestamp : Z; ttl : Z }.

Definition defaultTTL : Z := 5 * 60 * 1000.

(** [set(key, data, ttl = defaultTTL)] at clock reading [now]. *)
Definition set (now : Z) (key : jsstring) (value : T) (ttl : option Z)
    (cache : gmap jsstring CacheItem) : gmap jsstring CacheItem :=
  <[key := {| data := value; timestamp := now; ttl := default defaultTTL ttl |}]>
    cache.

Definition get (now : Z) (key : jsstring) (cache : gmap jsstring CacheItem)
  : option T * gmap jsstring CacheItem :=
  match cache !! key with
  | None => (None, cache)
  | Some item =>
      if ttl item <? now - timestamp item
      then (None, base.delete key cache)
      else (Some (data item), cache)
  end.

Definition has (now : Z) (key : jsstring) (cache : gmap jsstring CacheItem)
  : bool * gmap jsstring CacheItem :=
  match cache !! key with
  | None => (false, cache)
  | Some item =>
      if ttl item <? now - timestamp item
      then (false, base.delete key cache)
      else (true, cache)
  end.

Definition delete (key : jsstring) (cache : gmap jsstring CacheItem)
  : bool * gmap jsstring CacheItem :=
  (bool_decide (is_Some (cache !! key)), base.delete key cache).

Definition clear (cache : gmap jsstring CacheItem) : gmap jsstring CacheItem := ∅.

Definition size (cache : gmap jsstring CacheItem) : nat := base.size cache.

Definition cleanup (now : Z) (cache : gmap jsstring CacheItem)
  : gmap jsstring CacheItem :=
  filter (fun entry => ¬ (ttl entry.2 < now - timestamp entry.2)) cache.

End Cache.
Arguments CacheItem T : clear implicits.

End MemoryCache.

(** ** Regular expressions, as far as the source uses them *)

Module Regex.

(** The constructs of the two patterns of [gemini.ts]: classes, sequence,
    the greedy [?], the greedy [*] of a class, and the capturing group. *)
Inductive regex :=
| Eps
| Class (p : codeunit -> bool)
| Seq (r1 r2 : regex)
| Opt (r : regex)
| StarClass (p : codeunit -> bool)
| Group (r : regex).

(** Greedy repetition of a class: take one more unit first, give it back
    if the rest of the pattern then fails. *)
Fixpoint starClass {A} (p : codeunit -> bool) (s : jsstring)
    (k : jsstring -> option A) : option A :=
  match s with
  | c :: s' =>
      if p c
      then match starClass p s' k with Some a => Some a | None => k s end
      else k s
  | [] => k s
  end.

(** The backtracking matcher: [exec r s caps k] matches [r] at the head of
    [s] and hands the rest of the input and the captures so far to the
    continuation [k]; alternatives are tried in the priority order of
    ECMAScript. *)
Fixpoint exec {A} (r : regex) (s : jsstring) (caps : list jsstring)
    (k : jsstring -> list jsstring -> option A) : option A :=
  match r with
  | Eps => k s caps
  | Class p =>
      match s with
      | c :: s' => if p c then k s' caps else None
      | [] => None
      end
  | Seq r1 r2 => exec r1 s caps (fun s' caps' => exec r2 s' caps' k)
  | Opt r1 =>
      match exec r1 s caps k with
      | Some a => Some a
      | None => k s caps
      end
  | StarClass p => starClass p s (fun s' => k s' caps)
  | Group r1 =>
      exec r1 s caps
        (fun s' caps' => k s' (caps' ++ [take (length s - length s')%nat s]))
  end.

(** A match starting at the head of [s]: the matched text and the groups. *)
Definition matchAt (r : regex) (s : jsstring) : option (list jsstring) :=
  exec r s [] (fun rest caps => Some (take (length s - length rest)%nat s :: caps)).

(** [String.prototype.match] with a pattern without the [g] flag: the
    leftmost match, as the array of the whole match and the groups;
    [None] is JavaScript's [null]. *)
Fixpoint str_match (r : regex) (s : jsstring) : option (list jsstring) :=
  match matchAt r s with
  | Some m => Some m
  | None =>
      match s with
      | [] => None
      | _ :: s' => str_match r s'
      end
  end.

(** The language of a pattern. *)
Inductive matches : regex -> jsstring -> Prop :=
| MEps : matches Eps []
| MClass p c : p c = true -> matches (Class p) [c]
| MSeq r1 r2 s1 s2 :
    matches r1 s1 -> matches r2 s2 -> matches (Seq r1 r2) (s1 ++ s2)
| MOptSkip r : matches (Opt r) []
| MOptTake r s : matches r s -> matches (Opt r) s
| MStarNil p : matches (StarClass p) []
| MStarCons p c s :
    p c = true -> matches (StarClass p) s -> matches (StarClass p) (c :: s)
| MGroup r s : matches r s -> matches (Group r) s.

(** A literal text. *)
Fixpoint lit (s : jsstring) : regex :=
  match s with
  | [] => Eps
  | c :: s' => Seq (Class (N.eqb c)) (lit s')
  end.

(** [[\s\S]]: any code unit. *)
Definition anyUnit (c : codeunit) : bool := isWhiteSpace c || negb (isWhiteSpace c).

(** The pattern [/\{[\s\S]*\}/]. *)
Definition braces : regex :=
  Seq (Class (N.eqb 123)) (Seq (StarClass anyUnit) (Class (N.eqb 125))).

(** The pattern [/```(?:json)?\s*(\{[\s\S]*\})\s*```/]. *)
Definition fenced : regex :=
  Seq (lit (js "```"))
    (Seq (Opt (lit (js "json")))
       (Seq (StarClass isWhiteSpace)
          (Seq (Group braces)
             (Seq (StarClass isWhiteSpace) (lit (js "```")))))).

(** One or more units of a class: [[...]+]. *)
Definition oneOrMore (p : codeunit -> bool) : regex := Seq (Class p) (StarClass p).

(** [/^r$/.test(s)]: with both anchors and no [m] flag the pattern can
    only match at the head of [s] and must end where [s] ends. *)
Definition test_anchored (r : regex) (s : jsstring) : bool :=
  match exec r s [] (fun rest _ => match rest with [] => Some tt | _ => None end) with
  | Some _ => true
  | None => false
  end.

End Regex.

(** ** JavaScript values and JSON *)

(** A number as [JSON.parse] reads it: [(-1)^negative * mantissa * 10^exponent10]. *)
Record JsNumber := { negative : bool; mantissa : N; exponent10 : Z }.

Inductive JsValue :=
| JUndefined
| JNull
| JBool (b : bool)
| JNumber (n : JsNumber)
| JString (s : jsstring)
| JArray (items : list JsValue)
| JObject (props : list (jsstring * JsValue)).

Module Value.

(** The literal denotes a number that rounds to the double [0] (or [-0]):
    it is zero, or at most half the least positive double, [2^-1075]. *)
Definition roundsToZero (n : JsNumber) : bool :=
  (mantissa n =? 0)%N
  || (exponent10 n <? 0) && (Z.of_N (mantissa n) * 2 ^ 1075 <=? 10 ^ (- exponent10 n)).

(** [ToBoolean]: what the conditions [!x] and [x ? _ : _] test. *)
Definition truthy (v : JsValue) : bool :=
  match v with
  | JUndefined | JNull => false
  | JBool b => b
  | JNumber n => negb (roundsToZero n)
  | JString s => negb (bool_decide (s = []))
  | JArray _ | JObject _ => true
  end.

Definition isArray (v : JsValue) : bool :=
  match v with JArray _ => true | _ => false end.

Fixpoint lookup (key : jsstring) (props : list (jsstring * JsValue)) : JsValue :=
  match props with
  | [] => JUndefined
  | (k, v) :: props' => if bool_decide (k = key) then v else lookup key props'
  end.

(** [o.key] on an object; an absent property reads as [undefined]. *)
Definition getProp (o : JsValue) (key : jsstring) : JsValue :=
  match o with
  | JObject props => lookup key props
  | _ => JUndefined
  end.

(** [o.key = v]: an existing property keeps its place, a new one goes last. *)
Fixpoint assign (key : jsstring) (v : JsValue) (props : list (jsstring * JsValue))
  : list (jsstring * JsValue) :=
  match props with
  | [] => [(key, v)]
  | (k, w) :: props' =>
      if bool_decide (k = key) then (k, v) :: props'
      else (k, w) :: assign key v props'
  end.

(** The properties of an object literal, or of a spread, defined in
    order: [{ ...acc, k1: v1, k2: v2, ... }]. *)
Definition define (acc more : list (jsstring * JsValue)) : list (jsstring * JsValue) :=
  fold_left (fun o kv => assign kv.1 kv.2 o) more acc.

End Value.

Module Json.

Import Value.

Definition isJsonSpace (c : codeunit) : bool :=
  ((c =? 32) || (c =? 9) || (c =? 10) || (c =? 13))%N.

Fixpoint skipWs (s : jsstring) : jsstring :=
  match s with
  | c :: s' => if isJsonSpace c then skipWs s' else s
  | [] => []
  end.

Definition isDigit (c : codeunit) : bool := ((48 <=? c) && (c <=? 57))%N.

Definition hexValue (c : codeunit) : option N :=
  if ((48 <=? c) && (c <=? 57))%N then Some (c - 48)%N
  else if ((65 <=? c) && (c <=? 70))%N then Some (c - 55)%N
  else if ((97 <=? c) && (c <=? 102))%N then Some (c - 87)%N
  else None.

Definition hex4 (a b c d : codeunit) : option codeunit :=
  match hexValue a, hexValue b, hexValue c, hexValue d with
  | Some x, Some y, Some z, Some w => Some (((x * 16 + y) * 16 + z) * 16 + w)%N
  | _, _, _, _ => None
  end.

(** The character an escape letter stands for. *)
Definition unescape (e : codeunit) : option codeunit :=
  if (e =? 34)%N then Some 34%N          (* escaped quote *)
  else if (e =? 92)%N then Some 92%N     (* escaped backslash *)
  else if (e =? 47)%N then Some 47%N     (* escaped slash *)
  else if (e =? 98)%N then Some 8%N      (* b: backspace *)
  else if (e =? 102)%N then Some 12%N    (* f: form feed *)
  else if (e =? 110)%N then Some 10%N    (* n: line feed *)
  else if (e =? 114)%N then Some 13%N    (* r: carriage return *)
  else if (e =? 116)%N then Some 9%N     (* t: tab *)
  else None.

(** The characters of a string token, read after its opening quote, up to
    and including the closing quote. *)
Fixpoint parseChars (s : jsstring) : option (jsstring * jsstring) :=
  match s with
  | [] => None
  | c :: s' =>
      if (c =? 34)%N then Some ([], s')
      else if (c =? 92)%N then
        match s' with
        | [] => None
        | e :: s'' =>
            if (e =? 117)%N then
              match s'' with
              | h1 :: h2 :: h3 :: h4 :: rest =>
                  match hex4 h1 h2 h3 h4, parseChars rest with
                  | Some u, Some (str, out) => Some (u :: str, out)
                  | _, _ => None
                  end
              | _ => None
              end
            else
              match unescape e, parseChars s'' with
              | Some u, Some (str, out) => Some (u :: str, out)
              | _, _ => None
              end
        end
      else if (c <? 32)%N then None
      else
        match parseChars s' with
        | Some (str, out) => Some (c :: str, out)
        | None => None
        end
  end.

Fixpoint spanDigits (s : jsstring) : jsstring * jsstring :=
  match s with
  | c :: s' =>
      if isDigit c then let (ds, out) := spanDigits s' in (c :: ds, out)
      else ([], s)
  | [] => ([], [])
  end.

Definition digitsValue (ds : jsstring) : N :=
  fold_left (fun acc c => (acc * 10 + (c - 48))%N) ds 0%N.

(** The digits of the integer part: a lone [0], or a run not starting
    with [0]. *)
Definition parseInt (s : jsstring) : option (jsstring * jsstring) :=
  match s with
  | 48%N :: s' => Some ([48%N], s')
  | _ => match spanDigits s with
         | ([], _) => None
         | (ds, out) => Some (ds, out)
         end
  end.

Definition parseFrac (s : jsstring) : option (jsstring * jsstring) :=
  match s with
  | 46%N :: s' =>
      match spanDigits s' with
      | ([], _) => None
      | (ds, out) => Some (ds, out)
      end
  | _ => Some ([], s)
  end.

Definition parseExp (s : jsstring) : option (Z * jsstring) :=
  let digits (neg : bool) (s' : jsstring) :=
    match spanDigits s' with
    | ([], _) => None
    | (ds, out) =>
        let e := Z.of_N (digitsValue ds) in Some (if neg then - e else e, out)
    end in
  match s with
  | c :: s' =>
      if ((c =? 101) || (c =? 69))%N then
        match s' with
        | 43%N :: s'' => digits false s''
        | 45%N :: s'' => digits true s''
        | _ => digits false s'
        end
      else Some (0, s)
  | [] => Some (0, s)
  end.

Definition parseNumber (s : jsstring) : option (JsNumber * jsstring) :=
  let (neg, s0) := match s with 45%N :: s' => (true, s') | _ => (false, s) end in
  match parseInt s0 with
  | None => None
  | Some (ip, s1) =>
      match parseFrac s1 with
      | None => None
      | Some (fp, s2) =>
          match parseExp s2 with
          | None => None
          | Some (e, s3) =>
              Some ({| negative := neg;
                       mantissa := digitsValue (ip ++ fp);
                       exponent10 := e - Z.of_nat (length fp) |}, s3)
          end
      end
  end.

(** [s] starts with the keyword [w]: the rest of [s]. *)
Fixpoint keyword (w s : jsstring) : option jsstring :=
  match w, s with
  | [], _ => Some s
  | a :: w', b :: s' => if (a =? b)%N then keyword w' s' else None
  | _ :: _, [] => None
  end.

(** An object built from its members in source order: a repeated key
    keeps its first place and takes the last value. *)
Definition mkObject (members : list (jsstring * JsValue)) : JsValue :=
  JObject (define [] members).

(** Recursive descent over the JSON grammar; every call spends one unit
    of [fuel]. *)
Fixpoint parseValue (fuel : nat) (s : jsstring) : option (JsValue * jsstring) :=
  match fuel with
  | O => None
  | S fuel' =>
      match skipWs s with
      | [] => None
      | c :: s1 =>
          if (c =? 123)%N then
            match skipWs s1 with
            | 125%N :: s2 => Some (JObject [], s2)
            | _ =>
                match parseMembers fuel' s1 with
                | Some (ms, s2) => Some (mkObject ms, s2)
                | None => None
                end
            end
          else if (c =? 91)%N then
            match skipWs s1 with
            | 93%N :: s2 => Some (JArray [], s2)
            | _ =>
                match parseElements fuel' s1 with
                | Some (vs, s2) => Some (JArray vs, s2)
                | None => None
                end
            end
          else if (c =? 34)%N then
            match parseChars s1 with
            | Some (str, s2) => Some (JString str, s2)
            | None => None
            end
          else if (c =? 116)%N then
            option_map (fun out => (JBool true, out)) (keyword (js "rue") s1)
          else if (c =? 102)%N then
            option_map (fun out => (JBool false, out)) (keyword (js "alse") s1)
          else if (c =? 110)%N then
            option_map (fun out => (JNull, out)) (keyword (js "ull") s1)
          else
            match parseNumber (c :: s1) with
            | Some (n, s2) => Some (JNumber n, s2)
            | None => None
            end
      end
  end
with parseElements (fuel : nat) (s : jsstring) : option (list JsValue * jsstring) :=
  match fuel with
  | O => None
  | S fuel' =>
      match parseValue fuel' s with
      | None => None
      | Some (v, s1) =>
          match skipWs s1 with
          | 44%N :: s2 =>
              match parseElements fuel' s2 with
              | Some (vs, s3) => Some (v :: vs, s3)
              | None => None
              end
          | 93%N :: s2 => Some ([v], s2)
          | _ => None
          end
      end
  end
with parseMembers (fuel : nat) (s : jsstring)
  : option (list (jsstring * JsValue) * jsstring) :=
  match fuel with
  | O => None
  | S fuel' =>
      match skipWs s with
      | 34%N :: s1 =>
          match parseChars s1 with
          | None => None
          | Some (key, s2) =>
              match skipWs s2 with
              | 58%N :: s3 =>
                  match parseValue fuel' s3 with
                  | None => None
                  | Some (v, s4) =>
                      match skipWs s4 with
                      | 44%N :: s5 =>
                          match parseMembers fuel' s5 with
                          | Some (ms, s6) => Some ((key, v) :: ms, s6)
                          | None => None
                          end
                      | 125%N :: s5 => Some ([(key, v)], s5)
                      | _ => None
                      end
                  end
              | _ => None
              end
          end
      | _ => None
      end
  end.

(** [JSON.parse] as a partial function: [None] is the [SyntaxError]. *)
Definition decode (text : jsstring) : option JsValue :=
  match parseValue (2 * length text + 2) text with
  | Some (v, out) =>
      match skipWs out with
      | [] => Some v
      | _ => None
      end
  | None => None
  end.

End Json.

(** ** What the code takes from its platform *)

(** A column value of the [questions] table.  Every column has [TEXT]
    affinity, so a stored value is a text or [NULL]. *)
Inductive SqlValue :=
| SNull
| SText (s : jsstring).

Inductive SqliteFailure :=
| NotNullFailed (column : jsstring)
| CheckFailed (column : jsstring)
| WrongArity.

(** Library behaviour the sources rely on but do not fix: the text of a
    number, the wording of the errors raised by [JSON.parse], by zod and
    by SQLite, and what [better-sqlite3] binds when an argument of [run]
    is neither a string nor [null]. *)
Record Platform := {
  numberToJson : JsNumber -> jsstring;
  syntaxErrorMessage : jsstring -> jsstring;
  nullAccessMessage : jsstring;
  zodIssueMessage : JsValue -> jsstring;
  bindIrregular : list JsValue -> Result (list SqlValue);
  sqliteMessage : SqliteFailure -> jsstring
}.

(** The world outside the process, seen from the orchestrator: the reply
    of the generation service to the [attempt]-th call made for the
    [task]-th title of the request, and the identifiers and clock
    readings handed out while that title is processed. *)
Record World := {
  generateContent : nat -> nat -> jsstring -> Result jsstring;
  generateId : nat -> jsstring;
  createdAt : nat -> jsstring;
  savedAt : nat -> jsstring
}.

Module JsonText.

Import Value.

Definition hexDigit (n : N) : codeunit := (if n <? 10 then 48 + n else 87 + n)%N.

(** The escape [\uXXXX] of a code unit, in lower-case hexadecimal. *)
Definition unicodeEscape (c : codeunit) : jsstring :=
  [92; 117; hexDigit (c / 4096 mod 16); hexDigit (c / 256 mod 16);
   hexDigit (c / 16 mod 16); hexDigit (c mod 16)]%N.

Definition escapeUnit (c : codeunit) : jsstring :=
  (if c =? 8 then [92; 98]
   else if c =? 9 then [92; 116]
   else if c =? 10 then [92; 110]
   else if c =? 12 then [92; 102]
   else if c =? 13 then [92; 114]
   else if c =? 34 then [92; 34]
   else if c =? 92 then [92; 92]
   else if c <? 32 then unicodeEscape c
   else [c])%N.

Definition isHighSurrogate (c : codeunit) : bool := ((55296 <=? c) && (c <=? 56319))%N.
Definition isLowSurrogate (c : codeunit) : bool := ((56320 <=? c) && (c <=? 57343))%N.

(** [QuoteJSONString] without the quotes: a surrogate pair goes out as it
    is, a lone surrogate as an escape. *)
Fixpoint quoteUnits (s : jsstring) : jsstring :=
  match s with
  | [] => []
  | c :: s' =>
      if isHighSurrogate c then
        match s' with
        | d :: s'' =>
            if isLowSurrogate d then c :: d :: quoteUnits s''
            else unicodeEscape c ++ quoteUnits s'
        | [] => unicodeEscape c
        end
      else if isLowSurrogate c then unicodeEscape c ++ quoteUnits s'
      else escapeUnit c ++ quoteUnits s'
  end.

Definition quoteString (s : jsstring) : jsstring := [34%N] ++ quoteUnits s ++ [34%N].

Fixpoint joinWith (sep : jsstring) (parts : list jsstring) : jsstring :=
  match parts with
  | [] => []
  | [p] => p
  | p :: parts' => p ++ sep ++ joinWith sep parts'
  end.

(** [JSON.stringify(v)]; [None] is the result [undefined]. *)
Fixpoint stringify (pf : Platform) (v : JsValue) : option jsstring :=
  match v with
  | JUndefined => None
  | JNull => Some (js "null")
  | JBool true => Some (js "true")
  | JBool false => Some (js "false")
  | JNumber n => Some (numberToJson pf n)
  | JString s => Some (quoteString s)
  | JArray items =>
      Some ([91%N]
            ++ joinWith [44%N]
                 (map (fun item => default (js "null") (stringify pf item)) items)
            ++ [93%N])
  | JObject props =>
      Some ([123%N]
            ++ joinWith [44%N]
                 (omap (fun kv =>
                          match stringify pf kv.2 with
                          | Some t => Some (quoteString kv.1 ++ [58%N] ++ t)
                          | None => None
                          end) props)
            ++ [125%N])
  end.

(** [JSON.parse(text)]. *)
Definition JSON_parse (pf : Platform) (text : jsstring) : Result JsValue :=
  match Json.decode text with
  | Some v => Ok v
  | None => Throw (mkError SyntaxError (syntaxErrorMessage pf text))
  end.

End JsonText.

(** ** utils.ts *)

Module Utils.

(** Modelled from the spec: [getErrorMessage] of [utils.ts], which is not
    among the sources; a failure is recorded with "the last error's
    message". *)
Definition getErrorMessage (e : JsError) : jsstring := errMessage e.

(** Modelled from the spec: [retry] of [utils.ts], which is not among the
    sources: up to the given number of attempts, "any attempt that ...
    raises is retried", and after the last one the failure is "the last
    error".  [retryFrom fn attempt more] makes the [attempt]-th call and
    up to [more] further ones. *)
Fixpoint retryFrom {A} (fn : nat -> Result A) (attempt more : nat) : Result A :=
  match fn attempt with
  | Ok a => Ok a
  | Throw e =>
      match more with
      | O => Throw e
      | S more' => retryFrom fn (S attempt) more'
      end
  end.

Definition retry {A} (fn : nat -> Result A) (maxAttempts : nat) : Result A :=
  retryFrom fn 0 (maxAttempts - 1).

End Utils.

(** ** types.ts and validation.ts *)

Module Types.

Inductive Difficulty := Easy | Medium | Hard.

Record Example := {
  input : jsstring;
  output : jsstring;
  explanation : jsstring
}.

(** The type [Question] inferred from [QuestionSchema]. *)
Record Question := {
  id : jsstring;
  title : jsstring;
  difficulty : Difficulty;
  topics : list jsstring;
  description : jsstring;
  example : Example;
  solution_python : jsstring;
  step_by_step_explanation : list jsstring;
  pseudocode : option (list jsstring);
  created_at : jsstring;
  updated_at : option jsstring
}.

Definition difficultyName (d : Difficulty) : jsstring :=
  match d with
  | Easy => js "Easy"
  | Medium => js "Medium"
  | Hard => js "Hard"
  end.

Definition strings (l : list jsstring) : JsValue := JArray (map JString l).

Definition exampleToJs (e : Example) : JsValue :=
  JObject [(js "input", JString (input e));
           (js "output", JString (output e));
           (js "explanation", JString (explanation e))].

(** A typed question as the object the code handles at run time; an
    absent optional field reads [undefined]. *)
Definition toJs (q : Question) : JsValue :=
  JObject
    [(js "id", JString (id q));
     (js "title", JString (title q));
     (js "difficulty", JString (difficultyName (difficulty q)));
     (js "topics", strings (topics q));
     (js "description", JString (description q));
     (js "example", exampleToJs (example q));
     (js "solution_python", JString (solution_python q));
     (js "step_by_step_explanation", strings (step_by_step_explanation q));
     (js "pseudocode", from_option strings JUndefined (pseudocode q));
     (js "created_at", JString (created_at q));
     (js "updated_at", from_option JString JUndefined (updated_at q))].

(** The question with its [updated_at] replaced. *)
Definition withUpdatedAt (stamp : option jsstring) (q : Question) : Question :=
  {| id := id q; title := title q; difficulty := difficulty q;
     topics := topics q; description := description q; example := example q;
     solution_python := solution_python q;
     step_by_step_explanation := step_by_step_explanation q;
     pseudocode := pseudocode q; created_at := created_at q;
     updated_at := stamp |}.

Record GenerationStatus := {
  total : nat;
  completed : nat;
  failed : nat;
  errors : list jsstring
}.

End Types.

Module Schema.

Import Value.

(** [z.string().min(lo).max(hi)]. *)
Definition stringBetween (lo hi : nat) (v : JsValue) : option jsstring :=
  match v with
  | JString s =>
      if ((lo <=? length s) && (length s <=? hi))%nat then Some s else None
  | _ => None
  end.

(** [z.string().min(lo)]. *)
Definition stringAtLeast (lo : nat) (v : JsValue) : option jsstring :=
  match v with
  | JString s => if (lo <=? length s)%nat then Some s else None
  | _ => None
  end.

(** [z.array(z.string())], with the bounds on its length given apart. *)
Definition stringArray (v : JsValue) : option (list jsstring) :=
  match v with
  | JArray items => mapM (stringAtLeast 0) items
  | _ => None
  end.

(** [GenerateRequestSchema]: the titles of an accepted body. *)
Definition GenerateRequestSchema (body : JsValue) : option (list jsstring) :=
  match body with
  | JObject props =>
      match lookup (js "titles") props with
      | JArray items =>
          match mapM (stringBetween 1 200) items with
          | Some titles =>
              if ((1 <=? length titles) && (length titles <=? 20))%nat
              then Some titles else None
          | None => None
          end
      | _ => None
      end
  | _ => None
  end.

Definition isDifficulty (v : JsValue) : bool :=
  match v with
  | JString s =>
      bool_decide (s = js "Easy") || bool_decide (s = js "Medium")
      || bool_decide (s = js "Hard")
  | _ => false
  end.

Definition accepts {A} (o : option A) : bool :=
  match o with Some _ => true | None => false end.

Definition lengthBetween {A} (lo hi : nat) (o : option (list A)) : bool :=
  match o with
  | Some l => ((lo <=? length l) && (length l <=? hi))%nat
  | None => false
  end.

(** The constraints [QuestionSchema] puts on the content of a question:
    every field but the identifier and the two datetime stamps. *)
Definition contentValid (q : JsValue) : bool :=
  match q with
  | JObject props =>
      accepts (stringBetween 1 200 (lookup (js "title") props))
      && isDifficulty (lookup (js "difficulty") props)
      && lengthBetween 1 10 (stringArray (lookup (js "topics") props))
      && accepts (stringBetween 10 2000 (lookup (js "description") props))
      && match lookup (js "example") props with
         | JObject ex =>
             accepts (stringAtLeast 1 (lookup (js "input") ex))
             && accepts (stringAtLeast 1 (lookup (js "output") ex))
             && accepts (stringAtLeast 1 (lookup (js "explanation") ex))
         | _ => false
         end
      && accepts (stringAtLeast 1 (lookup (js "solution_python") props))
      && match stringArray (lookup (js "step_by_step_explanation") props) with
         | Some steps => (1 <=? length steps)%nat
         | None => false
         end
      && match lookup (js "pseudocode") props with
         | JUndefined => true
         | other => accepts (stringArray other)
         end
  | _ => false
  end.

End Schema.

Module Validation.

Import Value.

(** [validateGenerateRequest]: the zod failure becomes a
    [ValidationError] carrying the first issue. *)
Definition validateGenerateRequest (pf : Platform) (body : JsValue)
  : Result (list jsstring) :=
  match Schema.GenerateRequestSchema body with
  | Some titles => Ok titles
  | None =>
      Throw (mkError ValidationError
               (js "Invalid generate request: " ++ zodIssueMessage pf body))
  end.

Definition validateAndSanitizeTitle (title : jsstring) : Result jsstring :=
  if negb (truthy (JString title)) then
    Throw (mkError ValidationError (js "Title is required"))
  else
    let sanitized := trim title in
    if (length sanitized =? 0)%nat then
      Throw (mkError ValidationError (js "Title cannot be empty"))
    else if (200 <? length sanitized)%nat then
      Throw (mkError ValidationError (js "Title cannot exceed 200 characters"))
    else Ok sanitized.

(** [[^\s@]]. *)
Definition plainUnit (c : codeunit) : bool := negb (isWhiteSpace c || (c =? 64)%N).

(** The body of [/^[^\s@]+@[^\s@]+\.[^\s@]+$/]. *)
Definition emailRegex : Regex.regex :=
  Regex.Seq (Regex.oneOrMore plainUnit)
    (Regex.Seq (Regex.Class (N.eqb 64))
       (Regex.Seq (Regex.oneOrMore plainUnit)
          (Regex.Seq (Regex.Class (N.eqb 46)) (Regex.oneOrMore plainUnit)))).

Definition validateEmail (email : jsstring) : bool :=
  Regex.test_anchored emailRegex email.

(** [s.replace(/c/g, rep)] for a pattern of one literal code unit and a
    replacement text without [$]. *)
Definition replaceAll (c : codeunit) (rep : jsstring) (s : jsstring) : jsstring :=
  flat_map (fun x => if (x =? c)%N then rep else [x]) s.

Definition sanitizeHtml (input : jsstring) : jsstring :=
  replaceAll 47 (js "&#x2F;")
    (replaceAll 39 (js "&#x27;")
       (replaceAll 34 (js "&quot;")
          (replaceAll 62 (js "&gt;")
             (replaceAll 60 (js "&lt;")
                (replaceAll 38 (js "&amp;") input))))).

(** The six characters [sanitizeHtml] rewrites, each with its entity. *)
Definition entityOf (c : codeunit) : option jsstring :=
  if (c =? 38)%N then Some (js "&amp;")
  else if (c =? 60)%N then Some (js "&lt;")
  else if (c =? 62)%N then Some (js "&gt;")
  else if (c =? 34)%N then Some (js "&quot;")
  else if (c =? 39)%N then Some (js "&#x27;")
  else if (c =? 47)%N then Some (js "&#x2F;")
  else None.

End Validation.

(** ** gemini.ts *)

Module Gemini.

Import Value Regex JsonText Utils.

(** The first element of a match array. *)
Definition first (m : list jsstring) : jsstring := nth 0 m [].

(** Lines 80-113 of [generateQuestionMetadata]: from the text of the
    service to the metadata object. *)
Definition parseResponse (pf : Platform) (result : jsstring) : Result JsValue :=
  let cleanedText := trim result in
  let jsonMatch :=
    match str_match braces cleanedText with
    | Some m => Some m
    | None =>
        match str_match fenced cleanedText with
        | Some codeBlockMatch => Some [nth 1 codeBlockMatch []]
        | None => None
        end
    end in
  match jsonMatch with
  | None => Throw (mkError GeminiError (js "Invalid response format from Gemini API"))
  | Some m =>
      let* parsedResponse := JSON_parse pf (first m) in
      match parsedResponse with
      | JUndefined | JNull => Throw (mkError TypeError (nullAccessMessage pf))
      | _ =>
          if negb (truthy (getProp parsedResponse (js "title")))
             || negb (truthy (getProp parsedResponse (js "difficulty")))
             || negb (truthy (getProp parsedResponse (js "description")))
          then Throw (mkError GeminiError (js "Incomplete response from Gemini API"))
          else
            match parsedResponse with
            | JObject props =>
                let topics := lookup (js "topics") props in
                let props1 :=
                  assign (js "topics") (if isArray topics then topics else JArray []) props in
                let steps := lookup (js "step_by_step_explanation") props1 in
                let props2 :=
                  assign (js "step_by_step_explanation")
                    (if isArray steps then steps else JArray []) props1 in
                let pseudocode := lookup (js "pseudocode") props2 in
                let props3 :=
                  assign (js "pseudocode")
                    (if isArray pseudocode then pseudocode else JUndefined) props2 in
                Ok (JObject props3)
            | other => Ok other
            end
      end
  end.

(** The [catch] of [generateQuestionMetadata]: a [GeminiError] passes,
    anything else is wrapped into one. *)
Definition rethrow {A} (r : Result A) : Result A :=
  match r with
  | Ok a => Ok a
  | Throw e =>
      match errClass e with
      | GeminiError => Throw e
      | _ =>
          Throw (mkError GeminiError
                   (js "Failed to generate question metadata: " ++ getErrorMessage e))
      end
  end.

(** [generateQuestionMetadata(title)], called for the [task]-th title. *)
Definition generateQuestionMetadata (pf : Platform) (w : World) (task : nat)
    (title : jsstring) : Result JsValue :=
  if negb (truthy (JString title)) || (length (trim title) =? 0)%nat then
    Throw (mkError GeminiError (js "Title cannot be empty"))
  else
    rethrow
      (let* result :=
         retry (fun attempt =>
                  let* text := generateContent w task attempt (trim title) in
                  if negb (truthy (JString text))
                  then Throw (mkError GeminiError (js "Empty response from Gemini API"))
                  else Ok text) 3 in
       parseResponse pf result).

End Gemini.

(** ** database.ts *)

Module Database.

Import Value JsonText Utils.

(** A row of the table [questions] ([DatabaseQuestion]). *)
Record DatabaseQuestion := {
  id : SqlValue;
  title : SqlValue;
  difficulty : SqlValue;
  topics : SqlValue;
  description : SqlValue;
  example : SqlValue;
  solution_python : SqlValue;
  step_by_step_explanation : SqlValue;
  pseudocode : SqlValue;
  created_at : SqlValue;
  updated_at : SqlValue
}.

Definition sqlEqb (a b : SqlValue) : bool :=
  match a, b with
  | SText s, SText t => bool_decide (s = t)
  | _, _ => false
  end.

Definition isNull (v : SqlValue) : bool :=
  match v with SNull => true | SText _ => false end.

(** What a JavaScript string becomes on its way into SQLite:
    [better-sqlite3] binds the UTF-8 text of the string, in which a
    surrogate without its partner goes out as U+FFFD; a surrogate pair
    and every other code unit are kept.  A column read back is the text
    as it was stored. *)
Fixpoint toWellFormed (s : jsstring) : jsstring :=
  match s with
  | [] => []
  | c :: s' =>
      if isHighSurrogate c then
        match s' with
        | d :: s'' =>
            if isLowSurrogate d then c :: d :: toWellFormed s''
            else 65533%N :: toWellFormed s'
        | [] => [65533%N]
        end
      else if isLowSurrogate c then 65533%N :: toWellFormed s'
      else c :: toWellFormed s'
  end.

(** The texts without a lone surrogate. *)
Inductive wellFormed : jsstring -> Prop :=
| WellFormedNil : wellFormed []
| WellFormedUnit (c : codeunit) (s : jsstring) :
    isHighSurrogate c = false -> isLowSurrogate c = false ->
    wellFormed s -> wellFormed (c :: s)
| WellFormedPair (c d : codeunit) (s : jsstring) :
    isHighSurrogate c = true -> isLowSurrogate d = true ->
    wellFormed s -> wellFormed (c :: d :: s).

(** An argument [better-sqlite3] binds without more ado: a string, as
    its stored text, or [null]. *)
Definition regular (v : JsValue) : option SqlValue :=
  match v with
  | JString s => Some (SText (toWellFormed s))
  | JNull => Some SNull
  | _ => None
  end.

Definition bindParameters (pf : Platform) (args : list JsValue)
  : Result (list SqlValue) :=
  match mapM regular args with
  | Some values => Ok values
  | None => bindIrregular pf args
  end.

Definition rowOf (values : list SqlValue) : option DatabaseQuestion :=
  match values with
  | [a; b; c; d; e; f; g; h; i; j; k] =>
      Some {| id := a; title := b; difficulty := c; topics := d; description := e;
              example := f; solution_python := g; step_by_step_explanation := h;
              pseudocode := i; created_at := j; updated_at := k |}
  | _ => None
  end.

(** The first [NOT NULL] column of the schema that holds [NULL]. *)
Definition notNullViolation (row : DatabaseQuestion) : option jsstring :=
  if isNull (title row) then Some (js "title")
  else if isNull (difficulty row) then Some (js "difficulty")
  else if isNull (topics row) then Some (js "topics")
  else if isNull (description row) then Some (js "description")
  else if isNull (example row) then Some (js "example")
  else if isNull (solution_python row) then Some (js "solution_python")
  else if isNull (step_by_step_explanation row) then Some (js "step_by_step_explanation")
  else if isNull (created_at row) then Some (js "created_at")
  else None.

(** [CHECK (difficulty IN ('Easy', 'Medium', 'Hard'))]. *)
Definition difficultyCheck (row : DatabaseQuestion) : bool :=
  sqlEqb (difficulty row) (SText (js "Easy"))
  || sqlEqb (difficulty row) (SText (js "Medium"))
  || sqlEqb (difficulty row) (SText (js "Hard")).

(** The rows [INSERT OR REPLACE] removes: same primary key, or same
    title ([UNIQUE(title) ON CONFLICT REPLACE]). *)
Definition conflicts (row old : DatabaseQuestion) : bool :=
  sqlEqb (id old) (id row) || sqlEqb (title old) (title row).

(** [statements.insert.run] on bound values. *)
Definition insert (pf : Platform) (values : list SqlValue)
    (table : list DatabaseQuestion) : Result (list DatabaseQuestion) :=
  match rowOf values with
  | None => Throw (mkError PlainError (sqliteMessage pf WrongArity))
  | Some row =>
      match notNullViolation row with
      | Some column => Throw (mkError PlainError (sqliteMessage pf (NotNullFailed column)))
      | None =>
          if difficultyCheck row
          then Ok (filter (fun old => conflicts row old = false) table ++ [row])
          else Throw (mkError PlainError (sqliteMessage pf (CheckFailed (js "difficulty"))))
      end
  end.

(** [statements.selectById.get(id)]: the key is bound like every other
    string. *)
Definition selectById (key : jsstring) (table : list DatabaseQuestion)
  : option DatabaseQuestion :=
  List.find (fun row => sqlEqb (id row) (SText (toWellFormed key))) table.

Definition sqlToJs (v : SqlValue) : JsValue :=
  match v with SNull => JNull | SText s => JString s end.

(** [JSON.stringify(v)] as an argument of [run]. *)
Definition stringified (pf : Platform) (v : JsValue) : JsValue :=
  match stringify pf v with Some t => JString t | None => JUndefined end.

(** [JSON.parse] of a column: a [NULL] reads as the text [null]. *)
Definition parseColumn (pf : Platform) (v : SqlValue) : Result JsValue :=
  match v with
  | SText s => JSON_parse pf s
  | SNull => Ok JNull
  end.

Definition wrapError {A} (prefix : jsstring) (r : Result A) : Result A :=
  match r with
  | Ok a => Ok a
  | Throw e => Throw (mkError DatabaseError (prefix ++ getErrorMessage e))
  end.

Definition convertDbToQuestion (pf : Platform) (row : DatabaseQuestion)
  : Result JsValue :=
  wrapError (js "Failed to parse question data: ")
    (let* topics' := parseColumn pf (topics row) in
     let* example' := parseColumn pf (example row) in
     let* steps' := parseColumn pf (step_by_step_explanation row) in
     let* pseudocode' :=
       (if truthy (sqlToJs (pseudocode row))
        then parseColumn pf (pseudocode row) else Ok JUndefined) in
     Ok (JObject
           [(js "id", sqlToJs (id row));
            (js "title", sqlToJs (title row));
            (js "difficulty", sqlToJs (difficulty row));
            (js "topics", topics');
            (js "description", sqlToJs (description row));
            (js "example", example');
            (js "solution_python", sqlToJs (solution_python row));
            (js "step_by_step_explanation", steps');
            (js "pseudocode", pseudocode');
            (js "created_at", sqlToJs (created_at row));
            (js "updated_at",
              if truthy (sqlToJs (updated_at row))
              then sqlToJs (updated_at row) else JUndefined)])).

(** [saveQuestion(question)], with [now] the reading of
    [new Date().toISOString()]. *)
Definition saveQuestion (pf : Platform) (now : jsstring) (question : JsValue)
    (table : list DatabaseQuestion) : Result (list DatabaseQuestion) :=
  wrapError (js "Failed to save question: ")
    (let* values :=
       bindParameters pf
         [getProp question (js "id");
          getProp question (js "title");
          getProp question (js "difficulty");
          stringified pf (getProp question (js "topics"));
          getProp question (js "description");
          stringified pf (getProp question (js "example"));
          getProp question (js "solution_python");
          stringified pf (getProp question (js "step_by_step_explanation"));
          (if truthy (getProp question (js "pseudocode"))
           then stringified pf (getProp question (js "pseudocode")) else JNull);
          getProp question (js "created_at");
          JString now] in
     insert pf values table).

(** [getQuestion(id)]; [None] is the result [null]. *)
Definition getQuestion (pf : Platform) (key : jsstring)
    (table : list DatabaseQuestion) : Result (option JsValue) :=
  wrapError (js "Failed to get question: ")
    (if negb (truthy (JString key)) then Ok None
     else
       match selectById key table with
       | Some row => let* q := convertDbToQuestion pf row in Ok (Some q)
       | None => Ok None
       end).

(** [deleteQuestion(id)]: whether a row went, and the table left. *)
Definition deleteQuestion (key : jsstring) (table : list DatabaseQuestion)
  : Result (bool * list DatabaseQuestion) :=
  wrapError (js "Failed to delete question: ")
    (if negb (truthy (JString key)) then Ok (false, table)
     else
       let table' :=
         filter (fun row => sqlEqb (id row) (SText (toWellFormed key)) = false) table in
       let changes := (length table - length table')%nat in
       Ok ((0 <? changes)%nat, table')).

(** A question as its row holds it: the fields bound as strings, with
    their lone surrogates replaced; the fields that go through
    [JSON.stringify] are not touched, since its text escapes a lone
    surrogate. *)
Definition asStored (q : Types.Question) : Types.Question :=
  {| Types.id := toWellFormed (Types.id q);
     Types.title := toWellFormed (Types.title q);
     Types.difficulty := Types.difficulty q;
     Types.topics := Types.topics q;
     Types.description := toWellFormed (Types.description q);
     Types.example := Types.example q;
     Types.solution_python := toWellFormed (Types.solution_python q);
     Types.step_by_step_explanation := Types.step_by_step_explanation q;
     Types.pseudocode := Types.pseudocode q;
     Types.created_at := toWellFormed (Types.created_at q);
     Types.updated_at := Types.updated_at q |}.

(** The two uniqueness constraints of the schema, [id TEXT PRIMARY KEY]
    and [UNIQUE(title)]: no row conflicts with a row further down. *)
Fixpoint uniqueKeys (table : list DatabaseQuestion) : Prop :=
  match table with
  | [] => True
  | row :: rest =>
      Forall (fun other => conflicts row other = false) rest /\ uniqueKeys rest
  end.

End Database.

(** ** cache.ts: the key generators and the wrapper *)

Module CacheKeys.

Definition allQuestions : jsstring := js "questions:all".
Definition question (id : jsstring) : jsstring := js "question:" ++ id.
Definition questionsByDifficulty (difficulty : jsstring) : jsstring :=
  js "questions:difficulty:" ++ difficulty.
Definition searchQuestions (term : jsstring) : jsstring :=
  js "questions:search:" ++ term.
Definition questionStats : jsstring := js "questions:stats".
Definition chatResponse (questionId message : jsstring) : jsstring :=
  js "chat:" ++ questionId ++ js ":" ++ message.

End CacheKeys.

Module CacheWrapper.

Import MemoryCache.

(** What [cache.get(key)] hands to its caller: the stored data, or
    [null]. *)
Definition getOrNull (now : Z) (key : jsstring)
    (cache : gmap jsstring (CacheItem JsValue))
  : JsValue * gmap jsstring (CacheItem JsValue) :=
  match get now key cache with
  | (Some value, cache') => (value, cache')
  | (None, cache') => (JNull, cache')
  end.

Definition isNullValue (v : JsValue) : bool :=
  match v with JNull => true | _ => false end.

(** The function [withCache(fn, keyGenerator, ttl)] returns, applied to
    [args]; [now] is the clock reading of the lookup and [later] the one
    of the store. *)
Definition withCache {Args : Type} (fn : Args -> Result JsValue)
    (keyGenerator : Args -> jsstring) (ttl : option Z) (now later : Z)
    (args : Args) (cache : gmap jsstring (CacheItem JsValue))
  : Result JsValue * gmap jsstring (CacheItem JsValue) :=
  let key := keyGenerator args in
  let (cached, cache1) := getOrNull now key cache in
  if negb (isNullValue cached) then (Ok cached, cache1)
  else
    match fn args with
    | Ok result => (Ok result, set later key result ttl cache1)
    | Throw e => (Throw e, cache1)
    end.

End CacheWrapper.

(** ** app/api/generate/route.ts *)

Module Generate.

Import Value Utils Types.

Definition MAX_CONCURRENT_GENERATIONS : nat := 3.
Definition GENERATION_DELAY : Z := 1000.

(** What an observer of the handler can see, in order: a task of a batch
    entering the [map] callback, its stagger sleep, the question handed
    to [saveQuestion], the task reaching its [return], and the sleep
    between two batches. *)
Inductive Event :=
| TaskStarted (batch index : nat)
| Staggered (batch index : nat) (ms : Z)
| SaveCalled (batch index : nat) (question : JsValue)
| TaskSettled (batch index : nat) (ok : bool)
| BatchPause (ms : Z).

(** The state the tasks share. *)
Record State := {
  generationStatus : GenerationStatus;
  generatedQuestions : list JsValue;
  table : list Database.DatabaseQuestion;
  trace : list Event
}.

(** A task suspended at its first [await]. *)
Record Pending := {
  batchIndex : nat;
  task : nat;
  rawTitle : jsstring;
  sanitizedTitle : jsstring
}.

(** The order in which the suspended tasks of a batch resume is the
    event loop's: the [n]-th batch resumes its tasks by the choices
    [sched n], each choice picking among the tasks still suspended. *)
Definition Schedule := nat -> list nat.

Fixpoint arrange {A} (choices : list nat) (fuel : nat) (pending : list A) : list A :=
  match fuel with
  | O => []
  | S fuel' =>
      let i := (hd 0%nat choices mod length pending)%nat in
      match pending !! i with
      | Some p => p :: arrange (tl choices) fuel' (base.delete i pending)
      | None => []
      end
  end.

Definition log (e : Event) (st : State) : State :=
  {| generationStatus := generationStatus st;
     generatedQuestions := generatedQuestions st;
     table := table st;
     trace := trace st ++ [e] |}.

(** The template [`Failed to generate "${title}": ${errorMessage}`]. *)
Definition errorEntry (title errorMessage : jsstring) : jsstring :=
  js "Failed to generate " ++ [quote] ++ title ++ [quote] ++ js ": " ++ errorMessage.

(** The [catch] of a task. *)
Definition recordFailure (title : jsstring) (e : JsError) (st : State) : State :=
  let errorMessage := getErrorMessage e in
  let status := generationStatus st in
  {| generationStatus :=
       {| total := total status;
          completed := completed status;
          failed := S (failed status);
          errors := errors status ++ [errorEntry title errorMessage] |};
     generatedQuestions := generatedQuestions st;
     table := table st;
     trace := trace st |}.

(** The end of the [try] of a task, after [saveQuestion] returned. *)
Definition recordSuccess (question : JsValue)
    (table' : list Database.DatabaseQuestion) (st : State) : State :=
  let status := generationStatus st in
  {| generationStatus :=
       {| total := total status;
          completed := S (completed status);
          failed := failed status;
          errors := errors status |};
     generatedQuestions := generatedQuestions st ++ [question];
     table := table';
     trace := trace st |}.

Definition propsOf (v : JsValue) : list (jsstring * JsValue) :=
  match v with JObject props => props | _ => [] end.

(** [{ id: generateId(), ...metadata, title: sanitizedTitle, created_at }]. *)
Definition buildQuestion (w : World) (n : nat) (metadata : JsValue)
    (sanitized : jsstring) : JsValue :=
  JObject
    (define [(js "id", JString (generateId w n))]
       (propsOf metadata
        ++ [(js "title", JString sanitized);
            (js "created_at", JString (createdAt w n))])).

(** A task from the entry of the callback to its first [await]: a title
    refused by [validateAndSanitizeTitle] fails at once. *)
Definition startTask (batch offset : nat) (acc : State * list Pending)
    (entry : nat * jsstring) : State * list Pending :=
  let (st, pending) := acc in
  let (index, title) := entry in
  let st := log (TaskStarted batch index) st in
  match Validation.validateAndSanitizeTitle title with
  | Throw e =>
      (log (TaskSettled batch index false) (recordFailure title e st), pending)
  | Ok sanitized =>
      (if (0 <? index)%nat then log (Staggered batch index GENERATION_DELAY) st else st,
       pending ++ [{| batchIndex := index; task := (offset + index)%nat;
                      rawTitle := title; sanitizedTitle := sanitized |}])
  end.

(** The rest of a task, from the call of the service to its [return]. *)
Definition settleTask (pf : Platform) (w : World) (batch : nat) (st : State)
    (p : Pending) : State :=
  let fail e st := log (TaskSettled batch (batchIndex p) false)
                     (recordFailure (rawTitle p) e st) in
  match Gemini.generateQuestionMetadata pf w (task p) (sanitizedTitle p) with
  | Throw e => fail e st
  | Ok metadata =>
      let question := buildQuestion w (task p) metadata (sanitizedTitle p) in
      if negb (truthy (getProp question (js "title")))
         || negb (truthy (getProp question (js "description")))
         || negb (truthy (getProp question (js "solution_python")))
      then fail (mkError PlainError (js "Generated question is incomplete")) st
      else
        let st := log (SaveCalled batch (batchIndex p) question) st in
        match Database.saveQuestion pf (savedAt w (task p)) question (table st) with
        | Throw e => fail e st
        | Ok table' =>
            log (TaskSettled batch (batchIndex p) true)
              (recordSuccess question table' st)
        end
  end.

(** [batch.map(async ...)] followed by [await Promise.all(batchPromises)]:
    every callback runs to its first [await] in index order, then the
    suspended tasks resume in the scheduled order until none is left. *)
Definition runBatch (pf : Platform) (w : World) (sched : Schedule)
    (batch offset : nat) (titles : list jsstring) (st : State) : State :=
  let (st1, pending) :=
    fold_left (startTask batch offset) (imap (fun i t => (i, t)) titles) (st, []) in
  fold_left (settleTask pf w batch)
    (arrange (sched batch) (length pending) pending) st1.

(** The slices [titles.slice(i, i + MAX_CONCURRENT_GENERATIONS)]. *)
Fixpoint slices (fuel : nat) (titles : list jsstring) : list (list jsstring) :=
  match fuel with
  | O => []
  | S fuel' =>
      match titles with
      | [] => []
      | _ => take MAX_CONCURRENT_GENERATIONS titles
             :: slices fuel' (drop MAX_CONCURRENT_GENERATIONS titles)
      end
  end.

Definition batchesOf (titles : list jsstring) : list (list jsstring) :=
  slices (length titles) titles.

(** The loop over the batches; a batch that is not the last one is
    followed by the sleep of [GENERATION_DELAY * 2]. *)
Fixpoint runBatches (pf : Platform) (w : World) (sched : Schedule)
    (batch offset : nat) (batches : list (list jsstring)) (st : State) : State :=
  match batches with
  | [] => st
  | titles :: rest =>
      let st1 := runBatch pf w sched batch offset titles st in
      let st2 :=
        match rest with
        | [] => st1
        | _ => log (BatchPause (GENERATION_DELAY * 2)) st1
        end in
      runBatches pf w sched (S batch) (offset + length titles)%nat rest st2
  end.

Record Response := {
  httpStatus : nat;
  success : bool;
  error : option jsstring;
  data : option GenerationStatus;
  message : option jsstring
}.

Definition decimal (n : nat) : jsstring :=
  js (DecimalString.NilEmpty.string_of_uint (Nat.to_uint n)).

Definition failure (code : nat) (text : jsstring) : Response :=
  {| httpStatus := code; success := false; error := Some text;
     data := None; message := None |}.

(** The outer [catch]. *)
Definition handleError (e : JsError) : Response :=
  match errClass e with
  | ValidationError => failure 400 (errMessage e)
  | GeminiError =>
      failure 503 (js "AI service temporarily unavailable. Please try again later.")
  | DatabaseError => failure 500 (js "Database operation failed")
  | _ => failure 500 (js "Internal server error")
  end.

Definition respond (status : GenerationStatus) : Response :=
  if (completed status =? 0)%nat then
    {| httpStatus := 500; success := false;
       error := Some (js "Failed to generate any questions");
       data := Some status; message := None |}
  else
    let isPartialSuccess := (0 <? failed status)%nat in
    {| httpStatus := if isPartialSuccess then 207%nat else 200%nat;
       success := negb isPartialSuccess;
       error := None;
       data := Some status;
       message :=
         Some (js "Successfully generated " ++ decimal (completed status)
               ++ js " out of " ++ decimal (total status) ++ js " questions"
               ++ (if isPartialSuccess
                   then js " (" ++ decimal (failed status) ++ js " failed)"
                   else [])) |}.

Definition initial (table : list Database.DatabaseQuestion) : State :=
  {| generationStatus := {| total := 0; completed := 0; failed := 0; errors := [] |};
     generatedQuestions := []; table := table; trace := [] |}.

(** [POST], on the decoded body of the request and the table as it is
    when the request arrives: the response, and the state left behind.
    A request refused before the ledger is created leaves the table as
    it was and no event. *)
Definition POST (pf : Platform) (w : World) (sched : Schedule) (body : JsValue)
    (table : list Database.DatabaseQuestion) : Response * State :=
  match Validation.validateGenerateRequest pf body with
  | Throw e => (handleError e, initial table)
  | Ok titles =>
      if (length titles =? 0)%nat then
        (failure 400 (js "At least one question title is required"), initial table)
      else if (20 <? length titles)%nat then
        (failure 400 (js "Maximum 20 questions can be generated at once"), initial table)
      else
        let st0 :=
          {| generationStatus :=
               {| total := length titles; completed := 0; failed := 0; errors := [] |};
             generatedQuestions := []; table := table; trace := [] |} in
        let st := runBatches pf w sched 0 0 (batchesOf titles) st0 in
        (respond (generationStatus st), st)
  end.

(** The titles settled so far, one way or the other. *)
Definition settled (st : State) : nat :=
  (completed (generationStatus st) + failed (generationStatus st))%nat.

(** The batch an event belongs to; the pause between batches to none. *)
Definition eventBatch (e : Event) : option nat :=
  match e with
  | TaskStarted b _ | Staggered b _ _ | SaveCalled b _ _ | TaskSettled b _ _ => Some b
  | BatchPause _ => None
  end.

(** An event of a task of the given batch; a stagger sleep lasts
    [GENERATION_DELAY] and is never the first task's. *)
Definition taskEvent (batch : nat) (e : Event) : Prop :=
  eventBatch e = Some batch
  /\ match e with
     | Staggered _ index ms => ms = GENERATION_DELAY /\ (0 < index)%nat
     | _ => True
     end.

(** An event that belongs to the given batch or to a later one, or the
    pause between two batches. *)
Definition laterEvent (batch : nat) (e : Event) : Prop :=
  match eventBatch e with
  | Some b => (batch <= b)%nat /\ taskEvent b e
  | None => e = BatchPause (GENERATION_DELAY * 2)
  end.

(** What the handler has checked of a question when it calls
    [saveQuestion]: the sanitized title, a truthy difficulty, description
    and solution, lists for topics and steps, a list or nothing for the
    pseudocode. *)
Definition handedOver (question : JsValue) : Prop :=
  (exists title, getProp question (js "title") = JString title
                 /\ (1 <= length title <= 200)%nat)
  /\ truthy (getProp question (js "difficulty")) = true
  /\ truthy (getProp question (js "description")) = true
  /\ truthy (getProp question (js "solution_python")) = true
  /\ isArray (getProp question (js "topics")) = true
  /\ isArray (getProp question (js "step_by_step_explanation")) = true
  /\ (isArray (getProp question (js "pseudocode")) = true
      \/ getProp question (js "pseudocode") = JUndefined).

(** The state of a run that started from the table [before]: every
    question handed to [saveQuestion] so far was checked as above, and
    every row that is new passed the table's check on [difficulty]. *)
Definition savesChecked (before : list Database.DatabaseQuestion) (st : State) : Prop :=
  Forall (fun e => match e with
                   | SaveCalled _ _ question => handedOver question
                   | _ => True
                   end) (trace st)
  /\ Forall (fun row => row ∈ before \/ Database.difficultyCheck row = true) (table st).

(** The ledger accounts for its failures: one entry per failed title,
    each naming a title of the request. *)
Definition ledgerOk (titles : list jsstring) (st : State) : Prop :=
  length (errors (generationStatus st)) = failed (generationStatus st)
  /\ Forall (fun entry => exists title reason,
                 title ∈ titles /\ entry = errorEntry title reason)
       (errors (generationStatus st)).

(** The body [{ titles: [...] }]. *)
Definition request (titles : list jsstring) : JsValue :=
  JObject [(js "titles", JArray (map JString titles))].

(** The state in which the first batch starts. *)
Definition started (titles : list jsstring) (table : list Database.DatabaseQuestion)
  : State :=
  {| generationStatus :=
       {| total := length titles; completed := 0; failed := 0; errors := [] |};
     generatedQuestions := []; table := table; trace := [] |}.

(** The ledger after one more title settled: with [None] the title
    completed, with an entry it failed and the entry went to the
    errors. *)
Definition settledAs (outcome : option jsstring) (status : GenerationStatus)
  : GenerationStatus :=
  match outcome with
  | None =>
      {| total := total status; completed := S (completed status);
         failed := failed status; errors := errors status |}
  | Some entry =>
      {| total := total status; completed := completed status;
         failed := S (failed status); errors := errors status ++ [entry] |}
  end.

(** Two ledgers with the same counts and the same error entries, in
    whatever order. *)
Definition sameTotals (a b : GenerationStatus) : Prop :=
  total a = total b /\ completed a = completed b /\ failed a = failed b
  /\ errors a ≡ₚ errors b.

(** The sleeps between batches among the events of a trace. *)
Definition pauses (events : list Event) : list Event :=
  filter (fun e => eventBatch e = None) events.

(** What is known of a question when the handler hands it to
    [saveQuestion] for a request with the given titles: its title is one
    of them, trimmed. *)
Definition titledFrom (titles : list jsstring) (e : Event) : Prop :=
  match e with
  | SaveCalled _ _ question =>
      exists title, title ∈ titles
                    /\ getProp question (js "title") = JString (trim title)
  | _ => True
  end.

End Generate.

(** ** Sample platform, payloads and worlds *)

Module Examples.

Import Value Types Generate.

(** A text written with the apostrophe standing for the double quote. *)
Definition jsq (s : string) : jsstring :=
  map (fun c => if (c =? 39)%N then quote else c) (js s).

Definition platform : Platform := {|
  numberToJson := fun _ => js "0";
  syntaxErrorMessage := fun _ => js "Unexpected token in JSON";
  nullAccessMessage := js "Cannot read properties of null";
  zodIssueMessage := fun _ => js "String must contain at least 1 character(s)";
  bindIrregular := fun _ =>
    Throw (mkError TypeError
             (js "SQLite3 can only bind numbers, strings, bigints, buffers, and null"));
  sqliteMessage := fun _ => js "constraint failed"
|}.

Definition evenOdd : jsstring := js "Check if a number is even or odd".

(** The empty title. *)
Definition emptyTitle : jsstring := [].

(** A reply of the service with every field of the prompt's contract. *)
Definition completeReply : jsstring :=
  jsq "{'title':'Check if a number is even or odd','difficulty':'Easy','topics':['math','conditionals'],'description':'Given an integer n, decide whether n is even or odd.','example':{'input':'4','output':'even','explanation':'4 is divisible by 2'},'solution_python':'def parity(n): return n % 2','step_by_step_explanation':['take n modulo 2','compare with 0'],'pseudocode':['if n mod 2 = 0 then even else odd']}".

(** A reply that passes the parser and the handler's check, without
    topics and steps and with a five-character description. *)
Definition thinReply : jsstring :=
  jsq "{'title':'t','difficulty':'Easy','description':'short','example':{'input':'1','output':'2','explanation':'e'},'solution_python':'pass'}".

Definition worldReplying (reply : jsstring) : World := {|
  generateContent := fun _ _ _ => Ok reply;
  generateId := fun n => js "q-" ++ decimal n;
  createdAt := fun _ => js "2024-05-01T10:00:00.000Z";
  savedAt := fun _ => js "2024-05-01T10:00:01.000Z"
|}.

Definition inOrder : Schedule := fun _ => [].

(** What the parser makes of [completeReply]. *)
Definition completeMetadata : JsValue :=
  Eval vm_compute in
    match Gemini.parseResponse platform completeReply with
    | Ok metadata => metadata
    | Throw _ => JUndefined
    end.

(** The question the handler builds from [thinReply] for the title "t". *)
Definition thinQuestion : JsValue :=
  Eval vm_compute in
    match trace (POST platform (worldReplying thinReply) inOrder (request [js "t"]) []).2
    with
    | [_; SaveCalled _ _ question; _] => question
    | _ => JUndefined
    end.

Definition sampleQuestion : Question := {|
  id := js "q-1";
  title := evenOdd;
  difficulty := Easy;
  topics := [js "math"; js "conditionals"];
  description := js "Given an integer n, decide whether n is even or odd.";
  example := {| input := js "4"; output := js "even";
                explanation := js "4 is divisible by 2" |};
  solution_python := js "def parity(n): return n % 2";
  step_by_step_explanation := [js "take n modulo 2"; js "compare with 0"];
  pseudocode := None;
  created_at := js "2024-05-01T10:00:00.000Z";
  updated_at := None
|}.

Definition client : jsstring := js "203.0.113.7".

(** The table after [sampleQuestion] was saved into an empty one. *)
Definition savedTable : list Database.DatabaseQuestion :=
  Eval vm_compute in
    match Database.saveQuestion platform (js "2024-05-02T08:30:00.000Z")
            (toJs sampleQuestion) [] with
    | Ok table => table
    | Throw _ => []
    end.

(** [sampleQuestion] under an identifier that ends in a high surrogate
    without its partner. *)
Definition loneSurrogateQuestion : Question := {|
  id := js "q-" ++ [55296%N];
  title := title sampleQuestion;
  difficulty := difficulty sampleQuestion;
  topics := topics sampleQuestion;
  description := description sampleQuestion;
  example := example sampleQuestion;
  solution_python := solution_python sampleQuestion;
  step_by_step_explanation := step_by_step_explanation sampleQuestion;
  pseudocode := pseudocode sampleQuestion;
  created_at := created_at sampleQuestion;
  updated_at := updated_at sampleQuestion
|}.

(** A question that shares nothing with [sampleQuestion]. *)
Definition otherQuestion : Question := {|
  id := js "q-3";
  title := js "Reverse a string";
  difficulty := Easy;
  topics := [js "strings"];
  description := js "Return the characters of the text in reverse order.";
  example := {| input := js "abc"; output := js "cba";
                explanation := js "the last character comes first" |};
  solution_python := js "def reverse(s): return s[::-1]";
  step_by_step_explanation := [js "slice with a negative step"];
  pseudocode := None;
  created_at := js "2024-05-04T09:00:00.000Z";
  updated_at := None
|}.

(** Another question with the title of [sampleQuestion]. *)
Definition sameTitleQuestion : Question := {|
  id := js "q-2";
  title := evenOdd;
  difficulty := Medium;
  topics := [js "math"];
  description := js "Say whether the given integer is even or odd.";
  example := {| input := js "7"; output := js "odd";
                explanation := js "7 leaves the remainder 1" |};
  solution_python := js "def parity(n): return n & 1";
  step_by_step_explanation := [js "look at the last bit"];
  pseudocode := None;
  created_at := js "2024-05-03T09:00:00.000Z";
  updated_at := None
|}.

End Examples.

(* ===================================================================== *)
(** * Part II: properties                                                 *)
(* ===================================================================== *)

(** ** The rate limiter *)

Section RateLimiterFacts.

Import RateLimiter.

(** What one call does to the record of the calling client. *)
Lemma isAllowed_step (config : RateLimitConfig) (now : Z) (clientId : jsstring)
    (clients : gmap jsstring RateLimitInfo) :
  let recorded := from_option requests [] (clients !! clientId) in
  let kept := filter (fun time => now - windowMs config < time) recorded in
  let verdict := (isAllowed config now clientId clients).1 in
  let clients' := (isAllowed config now clientId clients).2 in
  allowed verdict = bool_decide (Z.of_nat (length kept) < maxRequests config)
  /\ requests <$> (clients' !! clientId)
     = Some (if allowed verdict then kept ++ [now] else kept)
  /\ forall other, other <> clientId -> clients' !! other = clients !! other.
Proof.
  unfold isAllowed; cbn zeta; simpl.
  destruct (clients !! clientId) as [info|] eqn:Hget; simpl.
  - repeat split.
    + apply eq_true_iff_eq.
      rewrite bool_decide_eq_true, Z.ltb_lt. reflexivity.
    + rewrite lookup_insert_eq. reflexivity.
    + intros other Hne. rewrite lookup_insert_ne; [reflexivity | congruence].
  - repeat split.
    + apply eq_true_iff_eq.
      rewrite bool_decide_eq_true, Z.ltb_lt. reflexivity.
    + rewrite lookup_insert_eq. reflexivity.
    + intros other Hne. rewrite lookup_insert_ne; [reflexivity | congruence].
Qed.

Lemma cleanup_lookup (config : RateLimitConfig) (now : Z) (clientId : jsstring)
    (clients : gmap jsstring RateLimitInfo) :
  cleanup config now clients !! clientId
  = match clients !! clientId with
    | Some info =>
        if bool_decide (lastReset info < now - windowMs config * 2)
        then None else Some info
    | None => None
    end.
Proof.
  unfold cleanup; cbn zeta.
  destruct (clients !! clientId) as [info|] eqn:Hget.
  - case_bool_decide as Hold.
    + apply map_lookup_filter_None. right. intros info' Hget'. simpl.
      rewrite Hget in Hget'. injection Hget' as <-. tauto.
    + apply map_lookup_filter_Some. split; [assumption | exact Hold].
  - apply map_lookup_filter_None. left. assumption.
Qed.

End RateLimiterFacts.

Section RateLimiterRuns.

Import RateLimiter.

(** The admission decision on the list of recorded timestamps alone. *)
Lemma isAllowed_on_record (config : RateLimitConfig) (now : Z) (clientId : jsstring)
    (clients : gmap jsstring RateLimitInfo) (recorded : list Z) :
  from_option requests [] (clients !! clientId) = recorded ->
  let kept := filter (fun time => now - windowMs config < time) recorded in
  let admitted := bool_decide (Z.of_nat (length kept) < maxRequests config) in
  allowed (isAllowed config now clientId clients).1 = admitted
  /\ from_option requests [] ((isAllowed config now clientId clients).2 !! clientId)
     = (if admitted then kept ++ [now] else kept).
Proof.
  intros Hrec.
  destruct (isAllowed_step config now clientId clients) as (Hadm & Hreq & _).
  rewrite Hrec in Hadm, Hreq. cbn zeta in *.
  split; [exact Hadm|].
  destruct ((isAllowed config now clientId clients).2 !! clientId) as [info|];
    simpl in *; [|discriminate].
  injection Hreq as ->. rewrite Hadm. reflexivity.
Qed.

Lemma run_call (config : RateLimitConfig) (now : Z) (clientId : jsstring)
    (ops : list Op) (clients : gmap jsstring RateLimitInfo) :
  (run config (Call now clientId :: ops) clients).1
  = allowed (isAllowed config now clientId clients).1
    :: (run config ops (isAllowed config now clientId clients).2).1.
Proof.
  cbn [run]. destruct (isAllowed config now clientId clients) as [v clients'].
  cbn [fst snd]. destruct (run config ops clients') as [vs final]. reflexivity.
Qed.

Lemma run_sweep (config : RateLimitConfig) (now : Z) (ops : list Op)
    (clients : gmap jsstring RateLimitInfo) :
  run config (Sweep now :: ops) clients = run config ops (cleanup config now clients).
Proof. reflexivity. Qed.

End RateLimiterRuns.

(** Decide the filters over explicit lists of clock readings. *)
Ltac prune_window :=
  repeat first
    [ rewrite filter_nil
    | rewrite filter_cons_True by (simpl; lia)
    | rewrite filter_cons_False by (simpl; lia) ].

Ltac admit_call Hrec :=
  match goal with
  | |- context [RateLimiter.isAllowed ?cfg ?now ?c ?m] =>
      let Ha := fresh "Hadm" in
      let Hr := fresh "Hrec" in
      destruct (isAllowed_on_record cfg now c m _ Hrec) as [Ha Hr];
      cbn zeta in Ha, Hr; simpl RateLimiter.windowMs in Ha, Hr;
      simpl RateLimiter.maxRequests in Ha, Hr
  end.


Ltac decide_count :=
  match goal with
  | |- context [bool_decide ?P] =>
      first [ rewrite (bool_decide_eq_true_2 P) by (simpl; lia)
            | rewrite (bool_decide_eq_false_2 P) by (simpl; lia) ]
  end.

Ltac next_call Hprev Hnext :=
  rewrite run_call; admit_call Hprev;
  match goal with
  | Ha : RateLimiter.allowed _ = _,
    Hr : from_option RateLimiter.requests [] _ = _ |- _ =>
      revert Ha Hr; prune_window; decide_count; intros -> Hnext;
      cbn [app] in Hnext; f_equal
  end.

Section RateLimiterClaims.

Import RateLimiter.

(** Six calls of one client inside a window, and a seventh once the
    first has left it, under the limits of the [generation] limiter. *)
Lemma window_scenario (c : jsstring) (t1 t2 t3 t4 t5 t6 t7 : Z) :
  t1 <= t2 <= t3 -> t3 <= t4 <= t5 -> t5 <= t6 < t1 + 60000 -> t1 + 60000 <= t7 ->
  (run generation
     [Call t1 c; Call t2 c; Call t3 c; Call t4 c; Call t5 c; Call t6 c; Call t7 c]
     ∅).1
  = [true; true; true; true; true; false; true].
Proof.
  intros H12 H34 H56 H7.
  assert (Hrec0 : from_option requests [] ((∅ : gmap jsstring RateLimitInfo) !! c) = [])
    by (rewrite lookup_empty; reflexivity).
  next_call Hrec0 Hrec1.
  next_call Hrec1 Hrec2.
  next_call Hrec2 Hrec3.
  next_call Hrec3 Hrec4.
  next_call Hrec4 Hrec5.
  next_call Hrec5 Hrec6.
  rewrite run_call. admit_call Hrec6. rewrite Hadm. f_equal.
  apply bool_decide_eq_true_2.
  rewrite filter_cons_False by (simpl; lia).
  pose proof (length_filter (fun time => t7 - 60 * 1000 < time) [t2; t3; t4; t5]) as Hle.
  simpl length in Hle at 2. lia.
Qed.

(** C6 (as amended): a call of [isAllowed] keeps exactly the recorded
    timestamps strictly later than [now - windowMs] (one that is exactly
    a window old is dropped with the older ones), admits if and only if
    fewer than [maxRequests] are kept, records [now] only on admission
    and touches no other client; and with max 5 and a window of 60 s,
    five calls of a fresh client are admitted, a sixth less than a window
    after the first is rejected, and a call a full window or more after
    the first is admitted again. *)
Theorem C6_sliding_window_admission :
  (forall (config : RateLimitConfig) (now : Z) (clientId : jsstring)
          (clients : gmap jsstring RateLimitInfo),
      let recorded := from_option requests [] (clients !! clientId) in
      let kept := filter (fun time => now - windowMs config < time) recorded in
      let verdict := (isAllowed config now clientId clients).1 in
      let clients' := (isAllowed config now clientId clients).2 in
      allowed verdict = bool_decide (Z.of_nat (length kept) < maxRequests config)
      /\ requests <$> (clients' !! clientId)
         = Some (if allowed verdict then kept ++ [now] else kept)
      /\ forall other, other <> clientId -> clients' !! other = clients !! other)
  /\ (forall (c : jsstring) (t1 t2 t3 t4 t5 t6 t7 : Z),
        t1 <= t2 <= t3 -> t3 <= t4 <= t5 -> t5 <= t6 < t1 + 60000 ->
        t1 + 60000 <= t7 ->
        (run generation
           [Call t1 c; Call t2 c; Call t3 c; Call t4 c; Call t5 c; Call t6 c;
            Call t7 c] ∅).1
        = [true; true; true; true; true; false; true]).
Proof.
  split.
  - intros config now clientId clients. apply isAllowed_step.
  - apply window_scenario.
Qed.

Lemma C6_sliding_window_admission_witness :
  (run generation
     [Call 0 Examples.client; Call 10 Examples.client; Call 20 Examples.client;
      Call 30 Examples.client; Call 40 Examples.client; Call 59999 Examples.client;
      Call 60000 Examples.client] ∅).1
  = [true; true; true; true; true; false; true].
Proof.
  apply (proj2 C6_sliding_window_admission Examples.client 0 10 20 30 40 59999 60000);
    lia.
Defined.

(** C6, as the specification words it, fails on the boundary: with five
    requests recorded at 0..4 ms and a sixth call at 60000 ms, none of
    the five is older than [now - window = 0], so the rule "drop the
    older ones, admit below the maximum" rejects; the code drops the
    request made at 0 and admits. *)
Lemma C6_boundary_counterexample :
  let five := [Call 0 Examples.client; Call 1 Examples.client; Call 2 Examples.client;
               Call 3 Examples.client; Call 4 Examples.client] in
  from_option requests [] ((run generation five ∅).2 !! Examples.client)
  = [0; 1; 2; 3; 4]
  /\ spec_admits generation 60000 [0; 1; 2; 3; 4] = false
  /\ allowed (isAllowed generation 60000 Examples.client (run generation five ∅).2).1
     = true.
Proof. vm_compute. repeat split. Qed.

(** C7: the sweep tests [lastReset], which is set when the record is
    created and never again, so it evicts a client for having been seen
    first more than two windows ago, however recent its newest request.
    Here the newest request (at 200000 ms) is 1 ms old when the sweep
    runs; and the eviction wipes the window: five admissions at
    200000..200004, a sweep, and a sixth admission at 200006, which is
    rejected when no sweep runs in between. *)
Theorem C7_sweep_evicts_active_client :
  let c := Examples.client in
  let clients := (run generation [Call 0 c; Call 200000 c] ∅).2 in
  from_option requests [] (clients !! c) = [200000]
  /\ (200000 <? 200001 - windowMs generation * 2) = false
  /\ cleanup generation 200001 clients !! c = None
  /\ (run generation
        [Call 0 c; Call 200000 c; Call 200001 c; Call 200002 c; Call 200003 c;
         Call 200004 c; Sweep 200005; Call 200006 c] ∅).1
     = [true; true; true; true; true; true; true]
  /\ (run generation
        [Call 0 c; Call 200000 c; Call 200001 c; Call 200002 c; Call 200003 c;
         Call 200004 c; Call 200006 c] ∅).1
     = [true; true; true; true; true; true; false].
Proof. vm_compute. repeat split. Qed.

End RateLimiterClaims.

(** ** The cache *)

Section CacheClaims.

Import MemoryCache.
Context {T : Type}.

Lemma get_fresh (now : Z) (key : jsstring) (item : CacheItem T)
    (cache : gmap jsstring (CacheItem T)) :
  cache !! key = Some item -> now - timestamp item <= ttl item ->
  get now key cache = (Some (data item), cache)
  /\ has now key cache = (true, cache).
Proof.
  intros Hget Hlive. unfold get, has. rewrite Hget.
  destruct (ttl item <? now - timestamp item) eqn:Hexp.
  - apply Z.ltb_lt in Hexp. lia.
  - split; reflexivity.
Qed.

Lemma get_expired (now : Z) (key : jsstring) (item : CacheItem T)
    (cache : gmap jsstring (CacheItem T)) :
  cache !! key = Some item -> ttl item < now - timestamp item ->
  get now key cache = (None, base.delete key cache)
  /\ has now key cache = (false, base.delete key cache).
Proof.
  intros Hget Hexp. unfold get, has. rewrite Hget.
  apply Z.ltb_lt in Hexp. rewrite Hexp. split; reflexivity.
Qed.

End CacheClaims.

(** C8: after [set(k, v, t)] with a TTL [t >= 0], a [get(k)] at the
    same clock reading, and at any reading not more than [t] later,
    returns [v]; once more than [t] has passed, [get(k)] returns absent,
    [has(k)] returns false, and either lookup leaves the map without the
    entry. *)
Theorem C8_cache_set_get_expiry (T : Type) (k : jsstring) (v : T) (t now : Z)
    (cache : gmap jsstring (MemoryCache.CacheItem T)) :
  0 <= t ->
  let stored := MemoryCache.set now k v (Some t) cache in
  MemoryCache.get now k stored = (Some v, stored)
  /\ (forall later, later - now <= t ->
        MemoryCache.get later k stored = (Some v, stored))
  /\ (forall later, t < later - now ->
        MemoryCache.get later k stored = (None, base.delete k stored)
        /\ MemoryCache.has later k stored = (false, base.delete k stored)
        /\ base.delete k stored !! k = None).
Proof.
  intros Ht stored.
  assert (Hget : stored !! k
                 = Some {| MemoryCache.data := v; MemoryCache.timestamp := now;
                           MemoryCache.ttl := t |})
    by (unfold stored, MemoryCache.set; rewrite lookup_insert_eq; reflexivity).
  split; [|split].
  - eapply (proj1 (get_fresh now k _ stored Hget _)).
  - intros later Hlive. eapply (proj1 (get_fresh later k _ stored Hget _)).
  - intros later Hexp.
    destruct (get_expired later k _ stored Hget ltac:(simpl; lia)) as [Hg Hh].
    repeat split; [exact Hg | exact Hh | apply lookup_delete_eq].
  Unshelve. all: simpl; lia.
Qed.

Lemma C8_cache_set_get_expiry_witness :
  let stored := MemoryCache.set 5000 (js "questions:all") 42 (Some 1000) ∅ in
  MemoryCache.get 5000 (js "questions:all") stored = (Some 42, stored)
  /\ MemoryCache.get 6001 (js "questions:all") stored
     = (None, base.delete (js "questions:all") stored)
  /\ MemoryCache.has 6001 (js "questions:all") stored
     = (false, base.delete (js "questions:all") stored).
Proof.
  intros stored.
  destruct (C8_cache_set_get_expiry Z (js "questions:all") 42 1000 5000 ∅ ltac:(lia))
    as (Hnow & _ & Hlater).
  destruct (Hlater 6001 ltac:(lia)) as (Hg & Hh & _).
  split; [exact Hnow | split; [exact Hg | exact Hh]].
Defined.

(** ** The backtracking matcher against the language of a pattern *)

Section RegexFacts.

Import Regex.

Lemma starClass_sound {A} (p : codeunit -> bool) (s : jsstring)
    (k : jsstring -> option A) (a : A) :
  starClass p s k = Some a ->
  exists s1 s2, s = s1 ++ s2 /\ matches (StarClass p) s1 /\ k s2 = Some a.
Proof.
  induction s as [|c s IH]; simpl.
  - intros Hk. exists [], []. repeat split; [constructor | exact Hk].
  - destruct (p c) eqn:Hp.
    + destruct (starClass p s k) as [a'|] eqn:Hrec.
      * intros [= ->]. destruct (IH eq_refl) as (s1 & s2 & -> & Hm & Hk).
        exists (c :: s1), s2. repeat split; [constructor; assumption | exact Hk].
      * intros Hk. exists [], (c :: s). repeat split; [constructor | exact Hk].
    + intros Hk. exists [], (c :: s). repeat split; [constructor | exact Hk].
Qed.

Lemma starClass_complete {A} (p : codeunit -> bool) (s1 s2 : jsstring)
    (k : jsstring -> option A) :
  matches (StarClass p) s1 -> is_Some (k s2) -> is_Some (starClass p (s1 ++ s2) k).
Proof.
  intros Hm Hk. remember (StarClass p) as r eqn:Hr.
  induction Hm; try discriminate; injection Hr as ->.
  - simpl. destruct s2 as [|c s2]; simpl; [exact Hk|].
    destruct (p c); [|exact Hk].
    destruct (starClass p s2 k); [eexists; reflexivity | exact Hk].
  - simpl. rewrite H.
    destruct (IHHm eq_refl) as [a Ha]. rewrite Ha. eexists; reflexivity.
Qed.

Lemma exec_sound {A} (r : regex) :
  forall (s : jsstring) (caps : list jsstring)
         (k : jsstring -> list jsstring -> option A) (a : A),
    exec r s caps k = Some a ->
    exists s1 s2 caps', s = s1 ++ s2 /\ matches r s1 /\ k s2 caps' = Some a.
Proof.
  induction r as [|p|r1 IH1 r2 IH2|r IH|p|r IH]; intros s caps k a; simpl.
  - intros Hk. exists [], s, caps. repeat split; [constructor | exact Hk].
  - destruct s as [|c s]; [discriminate|].
    destruct (p c) eqn:Hp; [|discriminate].
    intros Hk. exists [c], s, caps. repeat split; [constructor; exact Hp | exact Hk].
  - intros Hex. apply IH1 in Hex as (s1 & s' & caps1 & -> & Hm1 & Hex).
    apply IH2 in Hex as (s2 & s3 & caps2 & -> & Hm2 & Hk).
    exists (s1 ++ s2), s3, caps2. rewrite <- app_assoc.
    repeat split; [constructor; assumption | exact Hk].
  - destruct (exec r s caps k) as [a'|] eqn:Hex.
    + intros [= ->]. apply IH in Hex as (s1 & s2 & caps' & -> & Hm & Hk).
      exists s1, s2, caps'. repeat split; [apply MOptTake; exact Hm | exact Hk].
    + intros Hk. exists [], s, caps. repeat split; [constructor | exact Hk].
  - intros Hex. apply starClass_sound in Hex as (s1 & s2 & -> & Hm & Hk).
    exists s1, s2, caps. repeat split; assumption.
  - intros Hex. apply IH in Hex as (s1 & s2 & caps' & -> & Hm & Hk).
    exists s1, s2, (caps' ++ [take (length (s1 ++ s2) - length s2) (s1 ++ s2)]).
    repeat split; [constructor; exact Hm | exact Hk].
Qed.

Lemma exec_complete {A} (r : regex) (s1 : jsstring) :
  matches r s1 ->
  forall (s2 : jsstring) (caps : list jsstring)
         (k : jsstring -> list jsstring -> option A),
    (forall caps', is_Some (k s2 caps')) ->
    is_Some (exec r (s1 ++ s2) caps k).
Proof.
  induction 1 as [|p c Hp|r1 r2 s1 s2 _ IH1 _ IH2|r|r s _ IH|p|p c s Hp Hm _|r s _ IH];
    intros rest caps k Hk; simpl.
  - apply Hk.
  - rewrite Hp. apply Hk.
  - rewrite <- app_assoc. apply IH1. intros caps'. apply IH2. exact Hk.
  - destruct (exec r rest caps k); [eexists; reflexivity | apply Hk].
  - destruct (IH rest caps k Hk) as [a ->]. eexists; reflexivity.
  - apply (starClass_complete p [] rest); [constructor | apply Hk].
  - apply (starClass_complete p (c :: s) rest); [constructor; assumption | apply Hk].
  - apply IH. intros caps'. apply Hk.
Qed.

End RegexFacts.

Section SearchFacts.
Import Regex.

Lemma matchAt_sound (r : regex) (s : jsstring) (m : list jsstring) :
  matchAt r s = Some m ->
  exists s1 s2, s = s1 ++ s2 /\ matches r s1 /\ nth 0 m [] = s1.
Proof.
  unfold matchAt. intros Hex.
  apply exec_sound in Hex as (s1 & s2 & caps & -> & Hm & [= <-]).
  exists s1, s2. repeat split; [exact Hm|]. simpl.
  rewrite length_app. replace (length s1 + length s2 - length s2)%nat with (length s1) by lia.
  apply take_app_length.
Qed.

Lemma matchAt_complete (r : regex) (s1 s2 : jsstring) :
  matches r s1 -> is_Some (matchAt r (s1 ++ s2)).
Proof.
  intros Hm. unfold matchAt. apply exec_complete; [exact Hm|].
  intros caps. eexists; reflexivity.
Qed.

Lemma str_match_sound (r : regex) (s : jsstring) (m : list jsstring) :
  str_match r s = Some m ->
  exists before s1 after,
    s = before ++ s1 ++ after /\ matches r s1 /\ nth 0 m [] = s1.
Proof.
  induction s as [|c s IH]; simpl.
  - destruct (matchAt r []) as [m'|] eqn:Hat; [|discriminate].
    intros [= ->]. apply matchAt_sound in Hat as (s1 & s2 & Hs & Hm & Hfirst).
    exists [], s1, s2. auto.
  - destruct (matchAt r (c :: s)) as [m'|] eqn:Hat.
    + intros [= ->]. apply matchAt_sound in Hat as (s1 & s2 & Hs & Hm & Hfirst).
      exists [], s1, s2. auto.
    + intros Hrec. destruct (IH Hrec) as (before & s1 & after & -> & Hm & Hfirst).
      exists (c :: before), s1, after. auto.
Qed.

Lemma str_match_complete (r : regex) (before s1 after : jsstring) :
  matches r s1 -> is_Some (str_match r (before ++ s1 ++ after)).
Proof.
  intros Hm. induction before as [|c before IH]; simpl.
  - destruct (matchAt_complete r s1 after Hm) as [m Hat].
    destruct (s1 ++ after); simpl; rewrite Hat; eexists; reflexivity.
  - destruct (matchAt r (c :: before ++ s1 ++ after)); [eexists; reflexivity | exact IH].
Qed.

Lemma matches_seq_inv (r1 r2 : regex) (s : jsstring) :
  matches (Seq r1 r2) s ->
  exists s1 s2, s = s1 ++ s2 /\ matches r1 s1 /\ matches r2 s2.
Proof. inversion 1; subst. eauto. Qed.

(** A match of the fenced pattern holds a match of the brace pattern. *)
Lemma fenced_holds_braces (s : jsstring) :
  matches fenced s ->
  exists before g after, s = before ++ g ++ after /\ matches braces g.
Proof.
  unfold fenced. intros Hm.
  apply matches_seq_inv in Hm as (a & s1 & -> & _ & Hm).
  apply matches_seq_inv in Hm as (b & s2 & -> & _ & Hm).
  apply matches_seq_inv in Hm as (c & s3 & -> & _ & Hm).
  apply matches_seq_inv in Hm as (g & s4 & -> & Hg & _).
  inversion Hg; subst.
  exists (a ++ b ++ c), g, s4. split; [|assumption].
  repeat rewrite <- app_assoc. reflexivity.
Qed.

(** The text matched by the brace pattern opens with a brace. *)
Lemma braces_opens (s : jsstring) :
  matches braces s -> exists rest, s = 123%N :: rest.
Proof.
  unfold braces. intros Hm.
  apply matches_seq_inv in Hm as (a & s1 & -> & Ha & _).
  inversion Ha as [|p c Hc| | | | | |]; subst.
  apply N.eqb_eq in Hc as <-. simpl. eauto.
Qed.

Lemma fenced_needs_braces (s : jsstring) :
  str_match braces s = None -> str_match fenced s = None.
Proof.
  intros Hnone. destruct (str_match fenced s) as [m|] eqn:Hf; [|reflexivity].
  apply str_match_sound in Hf as (before & s1 & after & -> & Hm & _).
  apply fenced_holds_braces in Hm as (b & g & a & -> & Hg).
  destruct (str_match_complete braces (before ++ b) g (a ++ after) Hg) as [m' Hsome].
  repeat rewrite <- app_assoc in Hsome. repeat rewrite <- app_assoc in Hnone.
  congruence.
Qed.

End SearchFacts.

(** ** The response parser *)

Section ParserFacts.

Import Value Regex Json JsonText Gemini.

Lemma lookup_assign_eq (key : jsstring) (v : JsValue) (props : list (jsstring * JsValue)) :
  lookup key (assign key v props) = v.
Proof.
  induction props as [|[k w] props IH]; simpl.
  - rewrite bool_decide_eq_true_2; reflexivity.
  - case_bool_decide as Hk; simpl.
    + rewrite bool_decide_eq_true_2; [reflexivity | exact Hk].
    + rewrite bool_decide_eq_false_2; [exact IH | exact Hk].
Qed.

Lemma lookup_assign_ne (key other : jsstring) (v : JsValue)
    (props : list (jsstring * JsValue)) :
  key <> other -> lookup other (assign key v props) = lookup other props.
Proof.
  intros Hne. induction props as [|[k w] props IH]; simpl.
  - rewrite bool_decide_eq_false_2; [reflexivity | exact Hne].
  - case_bool_decide as Hk; simpl.
    + subst k. rewrite !bool_decide_eq_false_2 by exact Hne. reflexivity.
    + case_bool_decide; [reflexivity | exact IH].
Qed.

Lemma parseValue_brace (fuel : nat) (rest : jsstring) :
  match parseValue (S fuel) (123%N :: rest) with
  | Some (JObject _, _) => True
  | Some _ => False
  | None => True
  end.
Proof.
  cbn [parseValue skipWs].
  change (isJsonSpace 123) with false. cbv iota.
  change (123 =? 123)%N with true. cbv iota.
  repeat case_match; simpl; try exact I; unfold mkObject in *; congruence.
Qed.

(** A text that opens with a brace decodes to an object or not at all. *)
Lemma decode_brace_object (rest : jsstring) (v : JsValue) :
  decode (123%N :: rest) = Some v -> exists props, v = JObject props.
Proof.
  unfold decode.
  replace (2 * length (123%N :: rest) + 2)%nat with (S (2 * length rest + 3))
    by (simpl; lia).
  pose proof (parseValue_brace (2 * length rest + 3) rest) as Hobj.
  destruct (parseValue (S (2 * length rest + 3)) (123%N :: rest)) as [[w out]|];
    [|discriminate].
  destruct (skipWs out); [|discriminate]. intros [= <-].
  destruct w; simpl in Hobj; try contradiction. eauto.
Qed.

(** The span the parser decodes: the leftmost match of the brace pattern
    in the trimmed text. *)
Lemma located_span_opens (text : jsstring) (m : list jsstring) :
  str_match braces text = Some m -> exists rest, first m = 123%N :: rest.
Proof.
  intros Hm. apply str_match_sound in Hm as (before & s1 & after & _ & Hs1 & Hfirst).
  unfold first. rewrite Hfirst. apply braces_opens. exact Hs1.
Qed.

Lemma parseResponse_no_span (pf : Platform) (text : jsstring) :
  str_match braces (trim text) = None ->
  parseResponse pf text
  = Throw (mkError GeminiError (js "Invalid response format from Gemini API")).
Proof.
  intros Hnone. unfold parseResponse. cbn zeta.
  rewrite Hnone, (fenced_needs_braces _ Hnone). reflexivity.
Qed.

Lemma parseResponse_undecodable (pf : Platform) (text : jsstring) (m : list jsstring) :
  str_match braces (trim text) = Some m -> decode (first m) = None ->
  parseResponse pf text
  = Throw (mkError SyntaxError (syntaxErrorMessage pf (first m))).
Proof.
  intros Hm Hdec. unfold parseResponse, JSON_parse. cbn zeta.
  rewrite Hm, Hdec. reflexivity.
Qed.

Lemma parseResponse_decoded (pf : Platform) (text : jsstring) (m : list jsstring)
    (props : list (jsstring * JsValue)) :
  str_match braces (trim text) = Some m -> decode (first m) = Some (JObject props) ->
  parseResponse pf text
  = if truthy (lookup (js "title") props) && truthy (lookup (js "difficulty") props)
       && truthy (lookup (js "description") props)
    then
      let topics := lookup (js "topics") props in
      let props1 :=
        assign (js "topics") (if isArray topics then topics else JArray []) props in
      let steps := lookup (js "step_by_step_explanation") props1 in
      let props2 :=
        assign (js "step_by_step_explanation")
          (if isArray steps then steps else JArray []) props1 in
      let pseudocode := lookup (js "pseudocode") props2 in
      Ok (JObject (assign (js "pseudocode")
                     (if isArray pseudocode then pseudocode else JUndefined) props2))
    else Throw (mkError GeminiError (js "Incomplete response from Gemini API")).
Proof.
  intros Hm Hdec. unfold parseResponse, JSON_parse. cbn zeta.
  rewrite Hm, Hdec. cbn [bind getProp].
  destruct (truthy (lookup (js "title") props));
    destruct (truthy (lookup (js "difficulty") props));
    destruct (truthy (lookup (js "description") props)); reflexivity.
Qed.

End ParserFacts.

Ltac keys_differ :=
  let H := fresh in intros H; vm_compute in H; discriminate H.

Section ParserClaims.

Import Value Regex Json JsonText Gemini.

(** C5 (as amended): the parser fails exactly when the brace pattern
    finds no span in the trimmed text, or the span found is not JSON, or
    the decoded object has a title, difficulty or description that is
    absent or falsy (null, false, zero or the empty string); and when
    the three are truthy it succeeds whatever the other fields hold,
    with topics and step_by_step_explanation replaced by the empty list
    unless they are lists, pseudocode replaced by undefined unless it is
    a list, and every other property as decoded. *)
Theorem C5_parser_failure_cases (pf : Platform) (text : jsstring) :
  let span := option_map first (str_match braces (trim text)) in
  let mandatory props :=
    truthy (lookup (js "title") props) && truthy (lookup (js "difficulty") props)
    && truthy (lookup (js "description") props) in
  (isOk (parseResponse pf text) = false <->
     span = None
     \/ (exists s, span = Some s /\ decode s = None)
     \/ (exists s props, span = Some s /\ decode s = Some (JObject props)
                         /\ mandatory props = false))
  /\ (forall s props,
        span = Some s -> decode s = Some (JObject props) -> mandatory props = true ->
        exists out,
          parseResponse pf text = Ok (JObject out)
          /\ lookup (js "topics") out
             = (if isArray (lookup (js "topics") props)
                then lookup (js "topics") props else JArray [])
          /\ lookup (js "step_by_step_explanation") out
             = (if isArray (lookup (js "step_by_step_explanation") props)
                then lookup (js "step_by_step_explanation") props else JArray [])
          /\ lookup (js "pseudocode") out
             = (if isArray (lookup (js "pseudocode") props)
                then lookup (js "pseudocode") props else JUndefined)
          /\ forall key,
               key <> js "topics" -> key <> js "step_by_step_explanation" ->
               key <> js "pseudocode" -> lookup key out = lookup key props).
Proof.
  intros span mandatory. subst span.
  destruct (str_match braces (trim text)) as [m|] eqn:Hm; cbn [option_map].
  - destruct (decode (first m)) as [v|] eqn:Hdec.
    + destruct (located_span_opens _ _ Hm) as [rest Hopen].
      assert (Hobj : exists props, v = JObject props)
        by (apply (decode_brace_object rest); rewrite <- Hopen; exact Hdec).
      destruct Hobj as [props ->].
      pose proof (parseResponse_decoded pf text m props Hm Hdec) as Hparse.
      fold (mandatory props) in Hparse. cbn zeta in Hparse. split.
      * rewrite Hparse. destruct (mandatory props) eqn:Hmand; simpl; split.
        -- discriminate.
        -- intros [Hnone | [(s & [= <-] & Hbad) | (s & props' & [= <-] & Hd & Hfalse)]];
             [discriminate | congruence |].
           rewrite Hdec in Hd. injection Hd as <-. congruence.
        -- intros _. right; right. exists (first m), props. auto.
        -- reflexivity.
      * intros s props' [= <-] Hd Hmand. rewrite Hdec in Hd. injection Hd as <-.
        rewrite Hmand in Hparse. eexists. split; [exact Hparse|].
        repeat split.
        -- rewrite !lookup_assign_ne by keys_differ. apply lookup_assign_eq.
        -- rewrite lookup_assign_ne by keys_differ. rewrite lookup_assign_eq.
           rewrite lookup_assign_ne by keys_differ. reflexivity.
        -- rewrite lookup_assign_eq. rewrite !lookup_assign_ne by keys_differ.
           reflexivity.
        -- intros key H1 H2 H3. rewrite !lookup_assign_ne by congruence. reflexivity.
    + split.
      * rewrite (parseResponse_undecodable pf text m Hm Hdec). simpl. split.
        -- intros _. right; left. exists (first m). auto.
        -- reflexivity.
      * intros s props [= <-] Hd. congruence.
  - split.
    + rewrite (parseResponse_no_span pf text Hm). simpl. split; [auto | reflexivity].
    + intros s props Hs. discriminate.
Qed.

Lemma C5_parser_failure_cases_witness :
  exists out,
    parseResponse Examples.platform Examples.thinReply = Ok (JObject out)
    /\ lookup (js "topics") out = JArray []
    /\ lookup (js "pseudocode") out = JUndefined.
Proof.
  destruct (proj2 (C5_parser_failure_cases Examples.platform Examples.thinReply)
              (trim Examples.thinReply)
              [(js "title", JString (js "t"));
               (js "difficulty", JString (js "Easy"));
               (js "description", JString (js "short"));
               (js "example",
                 JObject [(js "input", JString (js "1"));
                          (js "output", JString (js "2"));
                          (js "explanation", JString (js "e"))]);
               (js "solution_python", JString (js "pass"))]
              ltac:(vm_compute; reflexivity) ltac:(vm_compute; reflexivity)
              ltac:(vm_compute; reflexivity))
    as (out & Hout & Htopics & _ & Hpseudo & _).
  exists out. split; [exact Hout | split; [exact Htopics | exact Hpseudo]].
Defined.

(** C5, as worded, fails twice.  A reply whose object has all three
    mandatory keys, the title being the empty string, is refused although
    no field is missing; and a reply in which the brace pattern locates a
    span that is not JSON is refused although a span was located and no
    object was decoded. *)
Lemma C5_counterexample :
  let present := Examples.jsq "{'title':'','difficulty':'Easy','description':'Sum two numbers.'}" in
  let garbled := Examples.jsq "Here it is: {title: 'Two Sum'}" in
  (exists m props,
      str_match braces (trim present) = Some m
      /\ decode (first m) = Some (JObject props)
      /\ map fst props = [js "title"; js "difficulty"; js "description"])
  /\ parseResponse Examples.platform present
     = Throw (mkError GeminiError (js "Incomplete response from Gemini API"))
  /\ option_map first (str_match braces (trim garbled))
     = Some (Examples.jsq "{title: 'Two Sum'}")
  /\ isOk (parseResponse Examples.platform garbled) = false.
Proof.
  split; [|vm_compute; repeat split].
  eexists. eexists. split; [vm_compute; reflexivity|].
  split; vm_compute; reflexivity.
Qed.

(** C10: when the brace pattern finds nothing in the trimmed text, the
    fenced-block pattern finds nothing either, and the parser ends in the
    invalid-response-format failure. *)
Theorem C10_fenced_fallback_unreachable (pf : Platform) (text : jsstring) :
  str_match braces (trim text) = None ->
  str_match fenced (trim text) = None
  /\ parseResponse pf text
     = Throw (mkError GeminiError (js "Invalid response format from Gemini API")).
Proof.
  intros Hnone. split.
  - apply fenced_needs_braces. exact Hnone.
  - apply parseResponse_no_span. exact Hnone.
Qed.

Lemma C10_fenced_fallback_unreachable_witness :
  str_match fenced (trim (js "```json I cannot help with that. ```")) = None
  /\ parseResponse Examples.platform (js "```json I cannot help with that. ```")
     = Throw (mkError GeminiError (js "Invalid response format from Gemini API")).
Proof.
  apply (C10_fenced_fallback_unreachable Examples.platform
           (js "```json I cannot help with that. ```")).
  vm_compute. reflexivity.
Defined.

End ParserClaims.

(** ** JSON texts read back *)

Section JsonRoundTrip.

Import Value Json JsonText.

Lemma hexValue_hexDigit (n : N) : (n < 16)%N -> hexValue (hexDigit n) = Some n.
Proof.
  intros Hn. destruct n as [|p]; [reflexivity|].
  do 4 (destruct p as [p|p|]; try reflexivity); exfalso; lia.
Qed.

Lemma hex4_unicodeEscape (c : codeunit) :
  (c < 65536)%N ->
  hex4 (hexDigit (c / 4096 mod 16)) (hexDigit (c / 256 mod 16))
       (hexDigit (c / 16 mod 16)) (hexDigit (c mod 16)) = Some c.
Proof.
  intros Hc. unfold hex4.
  rewrite !hexValue_hexDigit by (apply N.mod_upper_bound; discriminate).
  f_equal.
  replace (c / 4096)%N with (c / 16 / 16 / 16)%N
    by (rewrite !N.Div0.div_div; reflexivity).
  replace (c / 256)%N with (c / 16 / 16)%N
    by (rewrite !N.Div0.div_div; reflexivity).
  zify. Z.to_euclidean_division_equations. lia.
Qed.


Lemma parseChars_literal (c : codeunit) (s : jsstring) :
  c <> 34%N -> c <> 92%N -> (32 <= c)%N ->
  parseChars (c :: s)
  = match parseChars s with
    | Some (str, out) => Some (c :: str, out)
    | None => None
    end.
Proof.
  intros H34 H92 H32. cbn [parseChars].
  rewrite (proj2 (N.eqb_neq c 34) H34), (proj2 (N.eqb_neq c 92) H92).
  rewrite (proj2 (N.ltb_ge c 32) H32). reflexivity.
Qed.

Lemma parseChars_escape (e c : codeunit) (s : jsstring) :
  unescape e = Some c ->
  parseChars (92%N :: e :: s)
  = match parseChars s with
    | Some (str, out) => Some (c :: str, out)
    | None => None
    end.
Proof.
  intros He. cbn [parseChars]. change (92 =? 34)%N with false.
  change (92 =? 92)%N with true. cbv iota.
  destruct (e =? 117)%N eqn:Hu.
  - apply N.eqb_eq in Hu. subst e. discriminate He.
  - rewrite He. reflexivity.
Qed.

Lemma parseChars_unicode (c : codeunit) (s : jsstring) :
  (c < 65536)%N ->
  parseChars (unicodeEscape c ++ s)
  = match parseChars s with
    | Some (str, out) => Some (c :: str, out)
    | None => None
    end.
Proof.
  intros Hc. unfold unicodeEscape. cbn [app parseChars].
  change (92 =? 34)%N with false. change (92 =? 92)%N with true.
  change (117 =? 117)%N with true. cbv iota.
  rewrite (hex4_unicodeEscape c Hc). reflexivity.
Qed.

Lemma parseChars_escapeUnit (c : codeunit) (s : jsstring) :
  isHighSurrogate c = false -> isLowSurrogate c = false ->
  parseChars (escapeUnit c ++ s)
  = match parseChars s with
    | Some (str, out) => Some (c :: str, out)
    | None => None
    end.
Proof.
  intros _ _. unfold escapeUnit.
  destruct (c =? 8)%N eqn:H8; [apply N.eqb_eq in H8 as ->; reflexivity|].
  destruct (c =? 9)%N eqn:H9; [apply N.eqb_eq in H9 as ->; reflexivity|].
  destruct (c =? 10)%N eqn:H10; [apply N.eqb_eq in H10 as ->; reflexivity|].
  destruct (c =? 12)%N eqn:H12; [apply N.eqb_eq in H12 as ->; reflexivity|].
  destruct (c =? 13)%N eqn:H13; [apply N.eqb_eq in H13 as ->; reflexivity|].
  destruct (c =? 34)%N eqn:H34; [apply N.eqb_eq in H34 as ->; reflexivity|].
  destruct (c =? 92)%N eqn:H92; [apply N.eqb_eq in H92 as ->; reflexivity|].
  destruct (c <? 32)%N eqn:H32.
  - apply parseChars_unicode. apply N.ltb_lt in H32. lia.
  - apply parseChars_literal.
    + apply N.eqb_neq. exact H34.
    + apply N.eqb_neq. exact H92.
    + apply N.ltb_ge. exact H32.
Qed.

Lemma parseChars_quoteUnits_bounded (n : nat) :
  forall (s rest : jsstring),
    (length s <= n)%nat -> parseChars (quoteUnits s ++ 34%N :: rest) = Some (s, rest).
Proof.
  induction n as [|n IH]; intros s rest Hlen.
  - destruct s; [reflexivity | simpl in Hlen; lia].
  - destruct s as [|c s]; [reflexivity|]. simpl in Hlen. cbn [quoteUnits].
    destruct (isHighSurrogate c) eqn:Hhigh.
    + assert (Hc : (55296 <= c <= 56319)%N).
      { unfold isHighSurrogate in Hhigh. apply andb_true_iff in Hhigh as [H1 H2].
        apply N.leb_le in H1, H2. lia. }
      destruct s as [|d s].
      * rewrite parseChars_unicode by lia. reflexivity.
      * destruct (isLowSurrogate d) eqn:Hlow.
        -- assert (Hd : (56320 <= d <= 57343)%N).
           { unfold isLowSurrogate in Hlow. apply andb_true_iff in Hlow as [H1 H2].
             apply N.leb_le in H1, H2. lia. }
           cbn [app]. rewrite parseChars_literal by lia.
           rewrite parseChars_literal by lia.
           rewrite IH by (simpl in Hlen; lia). reflexivity.
        -- rewrite <- app_assoc, parseChars_unicode by lia.
           rewrite IH by lia. reflexivity.
    + destruct (isLowSurrogate c) eqn:Hlow.
      * assert (Hc : (56320 <= c <= 57343)%N).
        { unfold isLowSurrogate in Hlow. apply andb_true_iff in Hlow as [H1 H2].
          apply N.leb_le in H1, H2. lia. }
        rewrite <- app_assoc, parseChars_unicode by lia.
        rewrite IH by lia. reflexivity.
      * rewrite <- app_assoc, parseChars_escapeUnit by assumption.
        rewrite IH by lia. reflexivity.
Qed.

(** Reading back a quoted string gives the string. *)
Lemma parseChars_quoteUnits (s rest : jsstring) :
  parseChars (quoteUnits s ++ 34%N :: rest) = Some (s, rest).
Proof. apply (parseChars_quoteUnits_bounded (length s)). lia. Qed.

Lemma parseValue_quoteString (fuel : nat) (s rest : jsstring) :
  parseValue (S fuel) (quoteString s ++ rest) = Some (JString s, rest).
Proof.
  unfold quoteString. cbn [app parseValue skipWs].
  change (isJsonSpace 34) with false. cbv iota.
  change (34 =? 123)%N with false. change (34 =? 91)%N with false.
  change (34 =? 34)%N with true. cbv iota.
  rewrite <- app_assoc. cbn [app]. rewrite parseChars_quoteUnits. reflexivity.
Qed.

Lemma parseValue_quoted (fuel : nat) (s rest : jsstring) :
  (1 <= fuel)%nat -> parseValue fuel (quoteString s ++ rest) = Some (JString s, rest).
Proof.
  intros Hfuel. destruct fuel as [|fuel]; [lia|]. apply parseValue_quoteString.
Qed.

Lemma joinWith_more (sep a b : jsstring) (l : list jsstring) :
  joinWith sep (a :: b :: l) = a ++ sep ++ joinWith sep (b :: l).
Proof. reflexivity. Qed.

Lemma parseElements_strings (l : list jsstring) :
  forall (x : jsstring) (fuel : nat) (rest : jsstring),
    (length l + 2 <= fuel)%nat ->
    parseElements fuel (joinWith [44%N] (map quoteString (x :: l)) ++ 93%N :: rest)
    = Some (map JString (x :: l), rest).
Proof.
  induction l as [|y l IH]; intros x fuel rest Hfuel.
  - destruct fuel as [|fuel]; [simpl in Hfuel; lia|].
    change (joinWith [44%N] (map quoteString [x])) with (quoteString x).
    cbn [parseElements]. rewrite parseValue_quoted by (simpl in Hfuel; lia).
    reflexivity.
  - destruct fuel as [|fuel]; [simpl in Hfuel; lia|].
    change (map quoteString (x :: y :: l))
      with (quoteString x :: quoteString y :: map quoteString l).
    rewrite joinWith_more. cbn [parseElements].
    rewrite <- !app_assoc. rewrite parseValue_quoted by (simpl in Hfuel; lia).
    cbn [app skipWs]. change (isJsonSpace 44) with false. cbv iota.
    change (quoteString y :: map quoteString l) with (map quoteString (y :: l)).
    rewrite IH by (simpl in Hfuel; lia). reflexivity.
Qed.

Lemma stringify_strings (pf : Platform) (l : list jsstring) :
  stringify pf (Types.strings l)
  = Some ([91%N] ++ joinWith [44%N] (map quoteString l) ++ [93%N]).
Proof.
  unfold Types.strings. cbn [stringify]. do 3 f_equal.
  rewrite map_map. reflexivity.
Qed.

Lemma parseValue_strings (l : list jsstring) (fuel : nat) (rest : jsstring) :
  (length l + 2 <= fuel)%nat ->
  parseValue fuel (([91%N] ++ joinWith [44%N] (map quoteString l) ++ [93%N]) ++ rest)
  = Some (Types.strings l, rest).
Proof.
  intros Hfuel. destruct fuel as [|fuel]; [lia|].
  destruct l as [|x l].
  - reflexivity.
  - cbn [app parseValue skipWs]. change (isJsonSpace 91) with false. cbv iota.
    change (91 =? 123)%N with false. change (91 =? 91)%N with true. cbv iota.
    rewrite <- app_assoc. cbn [app].
    rewrite parseElements_strings by (simpl in Hfuel; lia).
    assert (Hhead : exists tail,
               joinWith [44%N] (map quoteString (x :: l)) ++ 93%N :: rest
               = 34%N :: tail).
    { destruct l as [|y l].
      - change (joinWith [44%N] (map quoteString [x])) with (quoteString x).
        unfold quoteString. cbn [app]. eauto.
      - change (map quoteString (x :: y :: l))
          with (quoteString x :: quoteString y :: map quoteString l).
        rewrite joinWith_more. unfold quoteString at 1. cbn [app]. eauto. }
    destruct Hhead as [tail ->]. reflexivity.
Qed.

Lemma joinWith_length (l : list jsstring) :
  (length l <= length (joinWith [44%N] (map quoteString l)) + 1)%nat.
Proof.
  induction l as [|x [|y l] IH]; simpl in *; try lia.
  rewrite !length_app in *. simpl in *. lia.
Qed.

(** [JSON.parse(JSON.stringify(l))] for a list of strings [l]. *)
Lemma decode_strings (pf : Platform) (l : list jsstring) :
  exists text, stringify pf (Types.strings l) = Some text
               /\ decode text = Some (Types.strings l).
Proof.
  rewrite stringify_strings. eexists. split; [reflexivity|].
  unfold decode.
  rewrite <- (app_nil_r ([91%N] ++ joinWith [44%N] (map quoteString l) ++ [93%N])) at 2.
  rewrite parseValue_strings; [reflexivity|].
  pose proof (joinWith_length l). rewrite !length_app. simpl. lia.
Qed.


Lemma parseMembers_head (fuel : nat) (key : jsstring) (tail : jsstring) :
  parseMembers (S fuel) (quoteString key ++ 58%N :: tail)
  = match parseValue fuel tail with
    | None => None
    | Some (v, s4) =>
        match skipWs s4 with
        | 44%N :: s5 =>
            match parseMembers fuel s5 with
            | Some (ms, s6) => Some ((key, v) :: ms, s6)
            | None => None
            end
        | 125%N :: s5 => Some ([(key, v)], s5)
        | _ => None
        end
    end.
Proof.
  unfold quoteString. cbn [app parseMembers skipWs].
  change (isJsonSpace 34) with false. cbv iota.
  rewrite <- app_assoc. cbn [app]. rewrite parseChars_quoteUnits.
  cbn [skipWs]. change (isJsonSpace 58) with false. cbv iota. reflexivity.
Qed.

(** The text [JSON.stringify] gives for the example of a question. *)
Lemma stringify_example (pf : Platform) (e : Types.Example) :
  stringify pf (Types.exampleToJs e)
  = Some (123%N
          :: quoteString (js "input") ++ 58%N
          :: quoteString (Types.input e) ++ 44%N
          :: quoteString (js "output") ++ 58%N
          :: quoteString (Types.output e) ++ 44%N
          :: quoteString (js "explanation") ++ 58%N
          :: quoteString (Types.explanation e) ++ [125%N]).
Proof.
  unfold Types.exampleToJs. cbn [stringify omap list_omap fst snd joinWith].
  f_equal. rewrite <- !app_assoc. cbn [app]. reflexivity.
Qed.

(** [JSON.parse(JSON.stringify(e))] for the example of a question. *)
Lemma decode_example (pf : Platform) (e : Types.Example) :
  exists text, stringify pf (Types.exampleToJs e) = Some text
               /\ decode text = Some (Types.exampleToJs e).
Proof.
  rewrite stringify_example. eexists. split; [reflexivity|].
  unfold decode.
  match goal with
  | |- context [parseValue ?f _] =>
      assert (Hfuel : exists fuel, f = S (S (S (S (S fuel)))))
        by (exists (f - 5)%nat; simpl; lia)
  end.
  destruct Hfuel as [fuel ->].
  cbn [parseValue skipWs]. change (isJsonSpace 123) with false. cbv iota.
  change (123 =? 123)%N with true. cbv iota.
  assert (Hopen : forall t u, skipWs (quoteString t ++ u) = quoteString t ++ u)
    by (intros; reflexivity).
  rewrite Hopen. unfold quoteString at 1. cbn [app].
  change (34%N :: quoteUnits (js "input") ++ 34%N :: 58%N :: ?x)
    with (quoteString (js "input") ++ 58%N :: x).
  rewrite parseMembers_head. rewrite parseValue_quoted. 2:{ lia. }
  cbn [skipWs]. change (isJsonSpace 44) with false. cbv iota.
  rewrite parseMembers_head. rewrite parseValue_quoted by lia.
  cbn [skipWs]. change (isJsonSpace 44) with false. cbv iota.
  rewrite parseMembers_head. rewrite parseValue_quoted by lia.
  reflexivity.
Qed.

End JsonRoundTrip.

(** ** Texts on their way into the table *)

Section TextFacts.

Import JsonText Database.

Lemma wellFormed_fixed (s : jsstring) : wellFormed s -> toWellFormed s = s.
Proof.
  induction 1 as [|c s Hhigh Hlow _ IH|c d s Hhigh Hlow _ IH]; cbn [toWellFormed].
  - reflexivity.
  - rewrite Hhigh, Hlow, IH. reflexivity.
  - rewrite Hhigh, Hlow, IH. reflexivity.
Qed.

Lemma wellFormed_app (a b : jsstring) :
  wellFormed a -> wellFormed b -> wellFormed (a ++ b).
Proof.
  intros Ha Hb. induction Ha as [|c s Hhigh Hlow _ IH|c d s Hhigh Hlow _ IH]; cbn [app].
  - exact Hb.
  - apply WellFormedUnit; assumption.
  - apply WellFormedPair; assumption.
Qed.

Lemma plain_unit (c : codeunit) :
  (c < 55296)%N -> isHighSurrogate c = false /\ isLowSurrogate c = false.
Proof.
  intros Hc. unfold isHighSurrogate, isLowSurrogate.
  split; apply andb_false_iff; left; apply N.leb_gt; lia.
Qed.

Lemma wellFormed_plain (s : jsstring) :
  Forall (fun c => (c < 55296)%N) s -> wellFormed s.
Proof.
  induction 1 as [|c s Hc _ IH]; [constructor|].
  destruct (plain_unit c Hc). apply WellFormedUnit; assumption.
Qed.

Lemma toWellFormed_bounded (n : nat) :
  forall s : jsstring,
    (length s <= n)%nat ->
    wellFormed (toWellFormed s) /\ length (toWellFormed s) = length s.
Proof.
  assert (Hmark : isHighSurrogate 65533 = false /\ isLowSurrogate 65533 = false)
    by (split; reflexivity).
  destruct Hmark as [Hmark1 Hmark2].
  induction n as [|n IH]; intros s Hlen.
  - destruct s; [split; [constructor | reflexivity] | cbn in Hlen; lia].
  - destruct s as [|c s]; [split; [constructor | reflexivity]|].
    cbn [length] in Hlen. cbn [toWellFormed].
    destruct (isHighSurrogate c) eqn:Hhigh.
    + destruct s as [|d s].
      * split; [apply WellFormedUnit; [assumption | assumption | constructor] | reflexivity].
      * destruct (isLowSurrogate d) eqn:Hlow.
        -- destruct (IH s) as [Hwf Hsame]; [cbn [length] in Hlen; lia|].
           split; [apply WellFormedPair; assumption | cbn [length]; lia].
        -- destruct (IH (d :: s)) as [Hwf Hsame]; [lia|].
           split; [apply WellFormedUnit; assumption | cbn [length] in *; lia].
    + destruct (IH s) as [Hwf Hsame]; [lia|].
      destruct (isLowSurrogate c) eqn:Hlow.
      * split; [apply WellFormedUnit; assumption | cbn [length]; lia].
      * split; [apply WellFormedUnit; assumption | cbn [length]; lia].
Qed.

Lemma toWellFormed_wellFormed (s : jsstring) : wellFormed (toWellFormed s).
Proof. apply (toWellFormed_bounded (length s) s (le_n _)). Qed.

Lemma toWellFormed_length (s : jsstring) : length (toWellFormed s) = length s.
Proof. apply (toWellFormed_bounded (length s) s (le_n _)). Qed.

(** Whether a text holds a lone surrogate can be computed. *)
Lemma wellFormed_checked (s : jsstring) : toWellFormed s = s -> wellFormed s.
Proof. intros Hs. rewrite <- Hs. apply toWellFormed_wellFormed. Qed.

Lemma toWellFormed_filled (s : jsstring) : s <> [] -> toWellFormed s <> [].
Proof.
  intros Hs Hnil. apply (f_equal length) in Hnil.
  rewrite toWellFormed_length in Hnil. destruct s; [congruence | discriminate].
Qed.

Lemma toWellFormed_twice (s : jsstring) :
  toWellFormed (toWellFormed s) = toWellFormed s.
Proof. apply wellFormed_fixed, toWellFormed_wellFormed. Qed.

Lemma hexDigit_plain (n : N) : (n < 16)%N -> (hexDigit n < 55296)%N.
Proof. intros Hn. unfold hexDigit. destruct (n <? 10)%N; lia. Qed.

Lemma wellFormed_unicodeEscape (c : codeunit) : wellFormed (unicodeEscape c).
Proof.
  apply wellFormed_plain. unfold unicodeEscape.
  repeat constructor; try lia; apply hexDigit_plain; apply N.mod_lt; lia.
Qed.

Lemma wellFormed_escapeUnit (c : codeunit) :
  isHighSurrogate c = false -> isLowSurrogate c = false -> wellFormed (escapeUnit c).
Proof.
  intros Hhigh Hlow. unfold escapeUnit.
  repeat match goal with
         | |- context [if ?b then _ else _] =>
             destruct b; [apply wellFormed_plain; repeat constructor; lia|]
         end.
  destruct (c <? 32)%N; [apply wellFormed_unicodeEscape|].
  apply WellFormedUnit; [assumption | assumption | constructor].
Qed.

Lemma wellFormed_quoteUnits_bounded (n : nat) :
  forall s : jsstring, (length s <= n)%nat -> wellFormed (quoteUnits s).
Proof.
  induction n as [|n IH]; intros s Hlen.
  - destruct s; [constructor | cbn in Hlen; lia].
  - destruct s as [|c s]; [constructor|]. cbn [length] in Hlen. cbn [quoteUnits].
    destruct (isHighSurrogate c) eqn:Hhigh.
    + destruct s as [|d s]; [apply wellFormed_unicodeEscape|].
      destruct (isLowSurrogate d) eqn:Hlow.
      * apply WellFormedPair; [assumption | assumption|].
        apply IH. cbn [length] in Hlen. lia.
      * apply wellFormed_app; [apply wellFormed_unicodeEscape | apply IH; lia].
    + destruct (isLowSurrogate c) eqn:Hlow.
      * apply wellFormed_app; [apply wellFormed_unicodeEscape | apply IH; lia].
      * apply wellFormed_app; [apply wellFormed_escapeUnit; assumption | apply IH; lia].
Qed.

Lemma wellFormed_quoteString (s : jsstring) : wellFormed (quoteString s).
Proof.
  unfold quoteString.
  apply wellFormed_app; [apply wellFormed_plain; repeat constructor; lia|].
  apply wellFormed_app;
    [apply (wellFormed_quoteUnits_bounded (length s) s (le_n _))|].
  apply wellFormed_plain. repeat constructor; lia.
Qed.

Lemma wellFormed_joinWith (sep : jsstring) (parts : list jsstring) :
  wellFormed sep -> Forall wellFormed parts -> wellFormed (joinWith sep parts).
Proof.
  intros Hsep. induction 1 as [|p parts Hp Hparts IH]; [constructor|].
  destruct parts as [|q parts]; [exact Hp|].
  change (joinWith sep (p :: q :: parts)) with (p ++ sep ++ joinWith sep (q :: parts)).
  apply wellFormed_app; [exact Hp|]. apply wellFormed_app; [exact Hsep | exact IH].
Qed.

(** The text [JSON.stringify] makes of a list of strings, and of an
    example, is stored as it is. *)
Lemma stringify_strings_stored (pf : Platform) (l : list jsstring) (text : jsstring) :
  stringify pf (Types.strings l) = Some text -> toWellFormed text = text.
Proof.
  rewrite stringify_strings. intros [= <-]. apply wellFormed_fixed.
  apply (wellFormed_app [91%N]); [apply wellFormed_plain; repeat constructor; lia|].
  apply wellFormed_app; [|apply wellFormed_plain; repeat constructor; lia].
  apply wellFormed_joinWith; [apply wellFormed_plain; repeat constructor; lia|].
  apply Forall_forall. intros p Hp. apply list_elem_of_fmap in Hp as (s & -> & _).
  apply wellFormed_quoteString.
Qed.

Lemma stringify_example_stored (pf : Platform) (e : Types.Example) (text : jsstring) :
  stringify pf (Types.exampleToJs e) = Some text -> toWellFormed text = text.
Proof.
  rewrite stringify_example. intros Htext. apply (inj Some) in Htext. subst text.
  apply wellFormed_fixed.
  assert (Hunit : forall (c : codeunit) (s : jsstring),
             (c < 55296)%N -> wellFormed s -> wellFormed (c :: s)).
  { intros c s Hc Hs. destruct (plain_unit c Hc). apply WellFormedUnit; assumption. }
  repeat match goal with
         | |- wellFormed (quoteString ?s ++ ?rest) =>
             apply (wellFormed_app (quoteString s) rest);
             [apply wellFormed_quoteString|]
         | |- wellFormed (?c :: ?rest) => apply (Hunit c rest); [lia|]
         end.
  constructor.
Qed.

End TextFacts.

(** ** The question store *)

Section StoreFacts.

Import Value JsonText Database.

Lemma stringified_strings (pf : Platform) (l : list jsstring) :
  exists text, stringified pf (Types.strings l) = JString text
               /\ JSON_parse pf text = Ok (Types.strings l).
Proof.
  destruct (decode_strings pf l) as (text & Hs & Hd).
  exists text. unfold stringified, JSON_parse. rewrite Hs, Hd. auto.
Qed.

Lemma stringified_example (pf : Platform) (e : Types.Example) :
  exists text, stringified pf (Types.exampleToJs e) = JString text
               /\ JSON_parse pf text = Ok (Types.exampleToJs e).
Proof.
  destruct (decode_example pf e) as (text & Hs & Hd).
  exists text. unfold stringified, JSON_parse. rewrite Hs, Hd. auto.
Qed.

(** The text of a list of strings is never empty, so a stored
    pseudocode column is truthy. *)
Lemma stringified_strings_truthy (pf : Platform) (l : list jsstring) (text : jsstring) :
  stringified pf (Types.strings l) = JString text -> text <> [].
Proof.
  unfold stringified. rewrite stringify_strings. intros [= <-]. discriminate.
Qed.

(** The texts [JSON.stringify] makes for the list and example columns
    are stored as they are. *)
Lemma stringified_strings_stored (pf : Platform) (l : list jsstring) (text : jsstring) :
  stringified pf (Types.strings l) = JString text -> toWellFormed text = text.
Proof.
  unfold stringified. destruct (stringify pf (Types.strings l)) as [t|] eqn:Hs;
    [|discriminate].
  intros Htext. injection Htext as <-. exact (stringify_strings_stored pf l t Hs).
Qed.

Lemma stringified_example_stored (pf : Platform) (e : Types.Example) (text : jsstring) :
  stringified pf (Types.exampleToJs e) = JString text -> toWellFormed text = text.
Proof.
  unfold stringified. destruct (stringify pf (Types.exampleToJs e)) as [t|] eqn:Hs;
    [|discriminate].
  intros Htext. injection Htext as <-. exact (stringify_example_stored pf e t Hs).
Qed.

Lemma difficultyName_stored (d : Types.Difficulty) :
  toWellFormed (Types.difficultyName d) = Types.difficultyName d.
Proof. destruct d; reflexivity. Qed.

(** A question whose texts hold no lone surrogate is stored as it is. *)
Lemma asStored_fixed (a : Types.Question) :
  wellFormed (Types.id a) -> wellFormed (Types.title a) ->
  wellFormed (Types.description a) -> wellFormed (Types.solution_python a) ->
  wellFormed (Types.created_at a) ->
  asStored a = a.
Proof.
  intros Hid Htitle Hdescription Hsolution Hcreated. destruct a. unfold asStored.
  cbn [Types.id Types.title Types.description Types.solution_python Types.created_at] in *.
  rewrite !wellFormed_fixed by assumption. reflexivity.
Qed.

Lemma selectById_inserted (key : jsstring) (row : DatabaseQuestion)
    (table : list DatabaseQuestion) :
  id row = SText (toWellFormed key) ->
  selectById key (filter (fun old => conflicts row old = false) table ++ [row])
  = Some row.
Proof.
  intros Hid. unfold selectById. induction table as [|old table IH].
  - simpl. rewrite Hid. simpl. rewrite bool_decide_eq_true_2; reflexivity.
  - rewrite filter_cons. case_decide as Hkeep; [|exact IH].
    cbn [app find]. unfold conflicts in Hkeep. rewrite Hid in Hkeep.
    apply orb_false_iff in Hkeep as [Hold _]. rewrite Hold. exact IH.
Qed.

Lemma difficultyName_checked (d : Types.Difficulty) :
  sqlEqb (SText (Types.difficultyName d)) (SText (js "Easy"))
  || sqlEqb (SText (Types.difficultyName d)) (SText (js "Medium"))
  || sqlEqb (SText (Types.difficultyName d)) (SText (js "Hard")) = true.
Proof. destruct d; vm_compute; reflexivity. Qed.

Lemma truthy_string (s : jsstring) : s <> [] -> truthy (JString s) = true.
Proof. intros Hs. simpl. rewrite bool_decide_eq_false_2; [reflexivity | exact Hs]. Qed.

End StoreFacts.

Section StoreClaims.

Import Value JsonText Database.

(** C9 (as amended): saving a question and reading it back by its
    non-empty identifier gives the question as it was stored: field for
    field and with the list-typed fields in order, with every lone
    surrogate of the identifier, the title, the description, the solution
    and the creation time replaced by U+FFFD, and with [updated_at]
    holding the time of the save whatever the question carried.  Where
    those texts hold no lone surrogate, what is read is the question that
    was written, except for [updated_at]. *)
Theorem C9_save_then_get (pf : Platform) (now : jsstring) (a : Types.Question)
    (table : list DatabaseQuestion) :
  Types.id a <> [] -> now <> [] ->
  exists table',
    saveQuestion pf now (Types.toJs a) table = Ok table'
    /\ getQuestion pf (Types.id a) table'
       = Ok (Some (Types.toJs
                     (Types.withUpdatedAt (Some (toWellFormed now)) (asStored a))))
    /\ (wellFormed now -> wellFormed (Types.id a) -> wellFormed (Types.title a) ->
        wellFormed (Types.description a) -> wellFormed (Types.solution_python a) ->
        wellFormed (Types.created_at a) ->
        getQuestion pf (Types.id a) table'
        = Ok (Some (Types.toJs (Types.withUpdatedAt (Some now) a)))).
Proof.
  intros Hid Hnow.
  destruct (stringified_strings pf (Types.topics a)) as (tTopics & HsT & HpT).
  destruct (stringified_strings pf (Types.step_by_step_explanation a))
    as (tSteps & HsS & HpS).
  destruct (stringified_example pf (Types.example a)) as (tEx & HsE & HpE).
  pose proof (stringified_strings_stored pf _ _ HsT) as HwT.
  pose proof (stringified_strings_stored pf _ _ HsS) as HwS.
  pose proof (stringified_example_stored pf _ _ HsE) as HwE.
  set (pseudo := match Types.pseudocode a with
                 | Some l => match stringify pf (Types.strings l) with
                             | Some t => SText t | None => SNull end
                 | None => SNull
                 end).
  set (row := {| id := SText (toWellFormed (Types.id a));
                 title := SText (toWellFormed (Types.title a));
                 difficulty := SText (Types.difficultyName (Types.difficulty a));
                 topics := SText tTopics;
                 description := SText (toWellFormed (Types.description a));
                 example := SText tEx;
                 solution_python := SText (toWellFormed (Types.solution_python a));
                 step_by_step_explanation := SText tSteps;
                 pseudocode := pseudo;
                 created_at := SText (toWellFormed (Types.created_at a));
                 updated_at := SText (toWellFormed now) |}).
  exists (filter (fun old => conflicts row old = false) table ++ [row]).
  assert (Hsave : saveQuestion pf now (Types.toJs a) table
                  = Ok (filter (fun old => conflicts row old = false) table ++ [row])).
  { unfold saveQuestion.
    change (getProp (Types.toJs a) (js "id")) with (JString (Types.id a)).
    change (getProp (Types.toJs a) (js "title")) with (JString (Types.title a)).
    change (getProp (Types.toJs a) (js "difficulty"))
      with (JString (Types.difficultyName (Types.difficulty a))).
    change (getProp (Types.toJs a) (js "topics")) with (Types.strings (Types.topics a)).
    change (getProp (Types.toJs a) (js "description"))
      with (JString (Types.description a)).
    change (getProp (Types.toJs a) (js "example"))
      with (Types.exampleToJs (Types.example a)).
    change (getProp (Types.toJs a) (js "solution_python"))
      with (JString (Types.solution_python a)).
    change (getProp (Types.toJs a) (js "step_by_step_explanation"))
      with (Types.strings (Types.step_by_step_explanation a)).
    change (getProp (Types.toJs a) (js "pseudocode"))
      with (from_option Types.strings JUndefined (Types.pseudocode a)).
    change (getProp (Types.toJs a) (js "created_at"))
      with (JString (Types.created_at a)).
    rewrite HsT, HsS, HsE.
    assert (Hp : (if truthy (from_option Types.strings JUndefined (Types.pseudocode a))
                  then stringified pf
                         (from_option Types.strings JUndefined (Types.pseudocode a))
                  else JNull) = sqlToJs pseudo).
    { subst pseudo. destruct (Types.pseudocode a) as [l|]; [|reflexivity].
      cbn [from_option]. unfold stringified. rewrite stringify_strings. reflexivity. }
    rewrite Hp. unfold bindParameters.
    assert (Hreg : regular (sqlToJs pseudo) = Some pseudo).
    { subst pseudo. destruct (Types.pseudocode a) as [l|]; [|reflexivity].
      destruct (stringify pf (Types.strings l)) as [t|] eqn:Hs; [|reflexivity].
      cbn [sqlToJs regular]. rewrite (stringify_strings_stored pf l t Hs). reflexivity. }
    unfold mapM.
    cbn [list_fmap regular mbind option_bind mret option_ret foldr fmap option_fmap
         option_map].
    rewrite Hreg.
    cbn [list_fmap regular mbind option_bind mret option_ret foldr fmap option_fmap
         option_map bind].
    rewrite HwT, HwS, HwE, difficultyName_stored.
    unfold insert. cbn [rowOf]. fold row.
    unfold notNullViolation. cbn [isNull title difficulty topics description example
      solution_python step_by_step_explanation created_at row].
    unfold difficultyCheck. cbn [difficulty row].
    rewrite difficultyName_checked. reflexivity. }
  assert (Hget : getQuestion pf (Types.id a)
                   (filter (fun old => conflicts row old = false) table ++ [row])
                 = Ok (Some (Types.toJs
                               (Types.withUpdatedAt (Some (toWellFormed now))
                                  (asStored a))))).
  { unfold getQuestion. rewrite truthy_string by exact Hid. cbn [negb].
    rewrite selectById_inserted by reflexivity.
    unfold convertDbToQuestion.
    cbn [topics example step_by_step_explanation pseudocode updated_at id title
         difficulty description solution_python created_at row parseColumn].
    rewrite HpT, HpE, HpS. cbn [bind].
    assert (Hpseudo : (if truthy (sqlToJs pseudo) then parseColumn pf pseudo
                       else Ok JUndefined)
                      = Ok (from_option Types.strings JUndefined (Types.pseudocode a))).
    { subst pseudo. destruct (Types.pseudocode a) as [l|]; [|reflexivity].
      destruct (stringified_strings pf l) as (t & Hs & Hp).
      pose proof (stringified_strings_truthy pf l t Hs) as Hne.
      unfold stringified in Hs. destruct (stringify pf (Types.strings l)) as [t'|];
        [|discriminate]. injection Hs as ->.
      cbn [sqlToJs]. rewrite truthy_string by exact Hne. cbn [parseColumn]. exact Hp. }
    rewrite Hpseudo. cbn [bind wrapError sqlToJs].
    rewrite truthy_string by (apply toWellFormed_filled; exact Hnow). reflexivity. }
  split; [exact Hsave|]. split; [exact Hget|].
  intros Hwnow Hwid Hwtitle Hwdescription Hwsolution Hwcreated.
  rewrite Hget, (wellFormed_fixed now Hwnow), asStored_fixed by assumption.
  reflexivity.
Qed.

Lemma C9_save_then_get_witness :
  exists table',
    saveQuestion Examples.platform (js "2024-05-02T08:30:00.000Z")
      (Types.toJs Examples.sampleQuestion) [] = Ok table'
    /\ getQuestion Examples.platform (Types.id Examples.sampleQuestion) table'
       = Ok (Some (Types.toJs
                     (Types.withUpdatedAt (Some (js "2024-05-02T08:30:00.000Z"))
                        Examples.sampleQuestion))).
Proof.
  destruct (C9_save_then_get Examples.platform (js "2024-05-02T08:30:00.000Z")
              Examples.sampleQuestion [])
    as (table' & Hsave & _ & Hget);
    [intros H; vm_compute in H; discriminate H ..|].
  exists table'. split; [exact Hsave|].
  apply Hget; apply wellFormed_checked; vm_compute; reflexivity.
Defined.

(** C9, as worded, fails on [updated_at]: a question written without it
    is read back with the time of the save in that field. *)
Lemma C9_counterexample :
  let a := Examples.sampleQuestion in
  let now := js "2024-05-02T08:30:00.000Z" in
  exists table' read,
    saveQuestion Examples.platform now (Types.toJs a) [] = Ok table'
    /\ getQuestion Examples.platform (Types.id a) table' = Ok (Some read)
    /\ getProp (Types.toJs a) (js "updated_at") = JUndefined
    /\ getProp read (js "updated_at") = JString now
    /\ read <> Types.toJs a.
Proof.
  eexists. eexists. split; [vm_compute; reflexivity|].
  split; [vm_compute; reflexivity|].
  split; [reflexivity|]. split; [reflexivity|].
  intros H. vm_compute in H. discriminate H.
Qed.

End StoreClaims.

(** ** The orchestrator: the ledger *)

Section LedgerFacts.

Import Value Types Generate.

Context (pf : Platform) (w : World).

Lemma arrange_perm {A} (choices : list nat) (fuel : nat) :
  forall (pending : list A) (choices : list nat),
    length pending = fuel -> arrange choices fuel pending ≡ₚ pending.
Proof.
  induction fuel as [|fuel IH]; intros pending cs Hlen.
  - destruct pending; [reflexivity | discriminate].
  - cbn [arrange].
    destruct (lookup_lt_is_Some_2 pending (hd 0%nat cs mod length pending))
      as [p Hp].
    { apply Nat.mod_upper_bound. lia. }
    rewrite Hp. etrans; [|symmetry; apply (delete_Permutation pending _ p Hp)].
    constructor. apply IH.
    rewrite length_delete by eauto. lia.
Qed.

(** Every order of resumption is the arrangement of some choices. *)
Lemma arrange_complete {A} (order : list A) :
  forall (pending : list A),
    order ≡ₚ pending ->
    exists choices, arrange choices (length pending) pending = order.
Proof.
  induction order as [|x order IH]; intros pending Hperm.
  - apply Permutation.Permutation_nil in Hperm as ->. exists []. reflexivity.
  - assert (Hin : x ∈ pending) by (rewrite <- Hperm; apply elem_of_cons; left; reflexivity).
    apply list_elem_of_lookup in Hin as [i Hi].
    pose proof (lookup_lt_Some _ _ _ Hi) as Hlt.
    assert (Hrest : order ≡ₚ base.delete i pending).
    { apply (Permutation_cons_inv (a := x)).
      rewrite Hperm. apply delete_Permutation. exact Hi. }
    destruct (IH _ Hrest) as [choices Hchoices].
    exists (i :: choices). destruct pending as [|p pending]; [simpl in Hlt; lia|].
    cbn [length arrange hd tl]. rewrite Nat.mod_small by exact Hlt.
    rewrite Hi. f_equal.
    rewrite length_delete in Hchoices by eauto. cbn [length] in Hchoices.
    rewrite Nat.sub_1_r in Hchoices. exact Hchoices.
Qed.

Lemma startTask_ledger (titles : list jsstring) (batch offset index : nat)
    (title : jsstring) (st : State) (pending : list Pending) :
  title ∈ titles -> ledgerOk titles st ->
  Forall (fun p => rawTitle p ∈ titles) pending ->
  let st' := (startTask batch offset (st, pending) (index, title)).1 in
  let pending' := (startTask batch offset (st, pending) (index, title)).2 in
  ledgerOk titles st'
  /\ Forall (fun p => rawTitle p ∈ titles) pending'
  /\ total (generationStatus st') = total (generationStatus st)
  /\ (settled st' + length pending' = settled st + length pending + 1)%nat.
Proof.
  intros Hin [Hlen Hentries] Hpending. cbn zeta. unfold startTask.
  destruct (Validation.validateAndSanitizeTitle title) as [sanitized|e]; cbn [fst snd].
  - assert (Hst : generationStatus
                    (if (0 <? index)%nat
                     then log (Staggered batch index GENERATION_DELAY)
                            (log (TaskStarted batch index) st)
                     else log (TaskStarted batch index) st)
                  = generationStatus st) by (destruct (0 <? index)%nat; reflexivity).
    unfold ledgerOk, settled. rewrite Hst. repeat split; try assumption.
    + apply Forall_app. split; [assumption|]. constructor; [exact Hin | constructor].
    + rewrite length_app. simpl. lia.
  - unfold ledgerOk, settled. cbn. repeat split; try assumption.
    + rewrite length_app. simpl. lia.
    + apply Forall_app. split; [assumption|]. constructor; [|constructor].
      exists title, (Utils.getErrorMessage e). auto.
    + lia.
Qed.

Lemma settleTask_ledger (titles : list jsstring) (batch : nat) (st : State)
    (p : Pending) :
  rawTitle p ∈ titles -> ledgerOk titles st ->
  let st' := settleTask pf w batch st p in
  ledgerOk titles st'
  /\ total (generationStatus st') = total (generationStatus st)
  /\ settled st' = S (settled st).
Proof.
  intros Hin [Hlen Hentries]. cbn zeta.
  assert (Hfail : forall e st0,
             generationStatus st0 = generationStatus st ->
             let st' := log (TaskSettled batch (batchIndex p) false)
                          (recordFailure (rawTitle p) e st0) in
             ledgerOk titles st'
             /\ total (generationStatus st') = total (generationStatus st)
             /\ settled st' = S (settled st)).
  { intros e st0 Hst0. unfold ledgerOk, settled. cbn. rewrite Hst0.
    repeat split.
    - rewrite length_app. simpl. lia.
    - apply Forall_app. split; [assumption|]. constructor; [|constructor].
      exists (rawTitle p), (Utils.getErrorMessage e). auto.
    - lia. }
  unfold settleTask.
  destruct (Gemini.generateQuestionMetadata pf w (task p) (sanitizedTitle p))
    as [metadata|e]; [|apply Hfail; reflexivity].
  match goal with |- context [if ?c then _ else _] => destruct c end;
    [apply Hfail; reflexivity|].
  destruct (Database.saveQuestion pf _ _ _) as [table'|e]; [|apply Hfail; reflexivity].
  unfold ledgerOk, settled. cbn. repeat split; try assumption; lia.
Qed.


Lemma startAll_ledger (titles : list jsstring) (batch offset : nat)
    (entries : list (nat * jsstring)) :
  forall (st : State) (pending : list Pending),
    Forall (fun entry => entry.2 ∈ titles) entries ->
    ledgerOk titles st ->
    Forall (fun p => rawTitle p ∈ titles) pending ->
    let st' := (fold_left (startTask batch offset) entries (st, pending)).1 in
    let pending' := (fold_left (startTask batch offset) entries (st, pending)).2 in
    ledgerOk titles st'
    /\ Forall (fun p => rawTitle p ∈ titles) pending'
    /\ total (generationStatus st') = total (generationStatus st)
    /\ (settled st' + length pending' = settled st + length pending + length entries)%nat.
Proof.
  induction entries as [|[index title] entries IH]; intros st pending Hin Hok Hpending.
  - cbn [fold_left fst snd length].
    split; [exact Hok|]. split; [exact Hpending|]. split; [reflexivity | lia].
  - apply Forall_cons in Hin as [Hhere Hrest]. cbn [fold_left].
    destruct (startTask_ledger titles batch offset index title st pending
                Hhere Hok Hpending) as (Hok1 & Hpend1 & Htot1 & Hcount1).
    destruct (startTask batch offset (st, pending) (index, title)) as [st1 pending1].
    cbn [fst snd] in *.
    destruct (IH st1 pending1 Hrest Hok1 Hpend1) as (Hok2 & Hpend2 & Htot2 & Hcount2).
    cbn zeta. split; [exact Hok2|]. split; [exact Hpend2|].
    split; [congruence | cbn [length]; lia].
Qed.

Lemma settleAll_ledger (titles : list jsstring) (batch : nat) (order : list Pending) :
  forall (st : State),
    Forall (fun p => rawTitle p ∈ titles) order ->
    ledgerOk titles st ->
    let st' := fold_left (settleTask pf w batch) order st in
    ledgerOk titles st'
    /\ total (generationStatus st') = total (generationStatus st)
    /\ (settled st' = settled st + length order)%nat.
Proof.
  induction order as [|p order IH]; intros st Hin Hok.
  - cbn [fold_left length]. split; [exact Hok|]. split; [reflexivity | lia].
  - apply Forall_cons in Hin as [Hhere Hrest]. cbn [fold_left].
    destruct (settleTask_ledger titles batch st p Hhere Hok) as (Hok1 & Htot1 & Hcount1).
    destruct (IH _ Hrest Hok1) as (Hok2 & Htot2 & Hcount2).
    cbn zeta. split; [exact Hok2|]. split; [congruence | cbn [length]; lia].
Qed.

Lemma indexed_within (titles batchTitles : list jsstring)
    (f : nat -> jsstring -> nat * jsstring) :
  (forall i t, (f i t).2 = t) ->
  Forall (fun t => t ∈ titles) batchTitles ->
  Forall (fun entry => entry.2 ∈ titles) (imap f batchTitles).
Proof.
  revert f. induction batchTitles as [|t l IH]; intros f Hf Hall; [constructor|].
  apply Forall_cons in Hall as [Ht Hl]. cbn [imap]. constructor.
  - rewrite Hf. exact Ht.
  - apply IH; [intros; apply Hf | exact Hl].
Qed.

Lemma runBatch_ledger (titles batchTitles : list jsstring) (sched : Schedule)
    (batch offset : nat) (st : State) :
  Forall (fun t => t ∈ titles) batchTitles -> ledgerOk titles st ->
  let st' := runBatch pf w sched batch offset batchTitles st in
  ledgerOk titles st'
  /\ total (generationStatus st') = total (generationStatus st)
  /\ (settled st' = settled st + length batchTitles)%nat.
Proof.
  intros Hin Hok. cbn zeta. unfold runBatch.
  destruct (startAll_ledger titles batch offset (imap (fun i t => (i, t)) batchTitles)
              st [] ) as (Hok1 & Hpend1 & Htot1 & Hcount1);
    [ | exact Hok | constructor | ].
  { apply indexed_within; [reflexivity | exact Hin]. }
  destruct (fold_left (startTask batch offset) _ (st, [])) as [st1 pending].
  cbn [fst snd] in *.
  pose proof (arrange_perm (sched batch) (length pending) pending (sched batch) eq_refl)
    as Hperm.
  destruct (settleAll_ledger titles batch
              (arrange (sched batch) (length pending) pending) st1)
    as (Hok2 & Htot2 & Hcount2); [ | exact Hok1 | ].
  { rewrite Hperm. exact Hpend1. }
  split; [exact Hok2|]. split; [congruence|].
  rewrite Hcount2, (Permutation_length Hperm).
  rewrite length_imap in Hcount1. cbn [length] in Hcount1. lia.
Qed.

Lemma runBatches_ledger (titles : list jsstring) (sched : Schedule)
    (batches : list (list jsstring)) :
  forall (batch offset : nat) (st : State),
    Forall (Forall (fun t => t ∈ titles)) batches -> ledgerOk titles st ->
    let st' := runBatches pf w sched batch offset batches st in
    ledgerOk titles st'
    /\ total (generationStatus st') = total (generationStatus st)
    /\ (settled st' = settled st + length (concat batches))%nat.
Proof.
  induction batches as [|b batches IH]; intros batch offset st Hin Hok.
  - cbn [runBatches concat length]. split; [exact Hok|]. split; [reflexivity | lia].
  - apply Forall_cons in Hin as [Hhere Hrest]. cbn [runBatches].
    destruct (runBatch_ledger titles b sched batch offset st Hhere Hok)
      as (Hok1 & Htot1 & Hcount1).
    set (st1 := runBatch pf w sched batch offset b st) in *.
    set (st2 := match batches with
                | [] => st1
                | _ :: _ => log (BatchPause (GENERATION_DELAY * 2)) st1
                end).
    assert (Hst2 : generationStatus st2 = generationStatus st1)
      by (subst st2; destruct batches; reflexivity).
    assert (Hok2 : ledgerOk titles st2) by (unfold ledgerOk; rewrite Hst2; exact Hok1).
    destruct (IH (S batch) (offset + length b)%nat st2 Hrest Hok2)
      as (Hok3 & Htot3 & Hcount3).
    cbn zeta. split; [exact Hok3|]. split.
    + rewrite Htot3, Hst2. exact Htot1.
    + rewrite Hcount3. unfold settled at 1. rewrite Hst2. fold (settled st1).
      cbn [concat]. rewrite length_app. lia.
Qed.

Lemma slices_concat (fuel : nat) :
  forall (titles : list jsstring),
    (length titles <= fuel)%nat -> concat (slices fuel titles) = titles.
Proof.
  induction fuel as [|fuel IH]; intros titles Hlen.
  - destruct titles; [reflexivity | simpl in Hlen; lia].
  - destruct titles as [|t titles]; [reflexivity|].
    cbn [slices concat].
    rewrite IH; [apply take_drop|].
    rewrite length_drop. unfold MAX_CONCURRENT_GENERATIONS.
    cbn [length] in *. lia.
Qed.

Lemma slices_sizes (fuel : nat) :
  forall (titles : list jsstring),
    Forall (fun b => (1 <= length b <= MAX_CONCURRENT_GENERATIONS)%nat)
      (slices fuel titles).
Proof.
  induction fuel as [|fuel IH]; intros titles; [constructor|].
  destruct titles as [|t titles]; [constructor|].
  cbn [slices]. constructor; [|apply IH].
  rewrite length_take. unfold MAX_CONCURRENT_GENERATIONS. cbn [length]. lia.
Qed.

Lemma batchesOf_concat (titles : list jsstring) : concat (batchesOf titles) = titles.
Proof. apply slices_concat. lia. Qed.

Lemma batchesOf_within (titles : list jsstring) :
  Forall (Forall (fun t => t ∈ titles)) (batchesOf titles).
Proof.
  assert (Hall : Forall (fun t => t ∈ titles) (concat (batchesOf titles))).
  { rewrite batchesOf_concat. apply Forall_forall. auto. }
  induction (batchesOf titles) as [|b bs IH]; [constructor|].
  cbn [concat] in Hall. apply Forall_app in Hall as [Hb Hbs].
  constructor; [exact Hb | apply IH; exact Hbs].
Qed.

End LedgerFacts.

Section LedgerClaims.

Import Value Types Generate.

Lemma titles_accepted (titles : list jsstring) :
  Forall (fun t => (1 <= length t <= 200)%nat) titles ->
  mapM (Schema.stringBetween 1 200) (map JString titles) = Some titles.
Proof.
  induction 1 as [|t titles Ht _ IH]; [reflexivity|].
  change (mapM (Schema.stringBetween 1 200) (map JString (t :: titles)))
    with (Schema.stringBetween 1 200 (JString t)
          ≫= (fun y => mapM (Schema.stringBetween 1 200) (map JString titles)
                       ≫= fun k => mret (y :: k))).
  rewrite IH. unfold Schema.stringBetween. destruct Ht as [Hlo Hhi].
  rewrite (proj2 (Nat.leb_le 1 (length t)) Hlo), (proj2 (Nat.leb_le (length t) 200) Hhi).
  reflexivity.
Qed.

(** The batch precondition is what request validation accepts. *)
Lemma request_accepted (pf : Platform) (titles : list jsstring) :
  (1 <= length titles <= 20)%nat ->
  Forall (fun t => (1 <= length t <= 200)%nat) titles ->
  Validation.validateGenerateRequest pf (request titles) = Ok titles.
Proof.
  intros [Hlo Hhi] Hall. unfold Validation.validateGenerateRequest, request.
  unfold Schema.GenerateRequestSchema. cbn [lookup].
  rewrite bool_decide_eq_true_2 by reflexivity.
  rewrite (titles_accepted titles Hall).
  rewrite (proj2 (Nat.leb_le 1 (length titles)) Hlo),
          (proj2 (Nat.leb_le (length titles) 20) Hhi).
  reflexivity.
Qed.



End LedgerClaims.

(** ** The orchestrator: the scenario with an empty title *)

Section ScenarioClaims.

Import Value Types Generate.

Lemma completeReply_parsed (pf : Platform) :
  Gemini.parseResponse pf Examples.completeReply = Ok Examples.completeMetadata.
Proof.
  erewrite parseResponse_decoded;
    [ | vm_compute; reflexivity | vm_compute; reflexivity ].
  vm_compute. reflexivity.
Qed.

Lemma completeReply_generated (pf : Platform) (w : World) (n : nat) :
  generateContent w n 0 Examples.evenOdd = Ok Examples.completeReply ->
  Gemini.generateQuestionMetadata pf w n Examples.evenOdd
  = Ok Examples.completeMetadata.
Proof.
  intros Hreply. unfold Gemini.generateQuestionMetadata.
  change (trim Examples.evenOdd) with Examples.evenOdd.
  change (negb (truthy (JString Examples.evenOdd))
          || (length Examples.evenOdd =? 0)%nat) with false. cbv iota.
  unfold Utils.retry. change (3 - 1)%nat with 2%nat.
  cbn [Utils.retryFrom]. rewrite Hreply. cbn [bind].
  change (negb (truthy (JString Examples.completeReply))) with false. cbv iota.
  cbn [bind]. rewrite completeReply_parsed. reflexivity.
Qed.

Lemma arrange_single {A} (choices : list nat) (p : A) : arrange choices 1 [p] = [p].
Proof. cbn [arrange length]. rewrite Nat.mod_1_r. reflexivity. Qed.


Lemma blank_scenario_started (st0 : State) :
  fold_left (startTask 0 0) (imap (fun i t => (i, t)) [Examples.evenOdd; js "  "])
    (st0, [])
  = (log (TaskSettled 0 1 false)
       (recordFailure (js "  ") (mkError ValidationError (js "Title cannot be empty"))
          (log (TaskStarted 0 1) (log (TaskStarted 0 0) st0))),
     [{| batchIndex := 0; task := 0; rawTitle := Examples.evenOdd;
         sanitizedTitle := Examples.evenOdd |}]).
Proof. reflexivity. Qed.

(** The question built from the complete payload is stored, under its
    title, in an empty table. *)
Lemma completeQuestion_saved (pf : Platform) (w : World) :
  exists row,
    Database.saveQuestion pf (savedAt w 0)
      (buildQuestion w 0 Examples.completeMetadata Examples.evenOdd) []
    = Ok [row]
    /\ Database.title row = SText Examples.evenOdd.
Proof.
  unfold Database.saveQuestion, Database.bindParameters.
  match goal with
  | |- context [mapM Database.regular ?args] =>
      let values := eval vm_compute in args in change args with values
  end.
  unfold mapM.
  cbn [list_fmap Database.regular mbind option_bind mret option_ret foldr fmap
       option_fmap option_map bind].
  repeat match goal with
         | |- context [Database.toWellFormed (?field 0%nat)] =>
             generalize (Database.toWellFormed (field 0%nat)); intro
         end.
  vm_compute. eexists. split; reflexivity.
Qed.

(** C2 (as amended): the request whose titles are 'Check if a number is
    even or odd' and the empty string is refused as a whole by request
    validation, whose schema wants every title non-empty: the answer is
    the validation error with status 400, there is no ledger, no title
    is processed and nothing is stored.  The ledger of the scenario is
    what a blank second title gives: with the second title made of two
    spaces, a service that answers the first with a complete payload and
    an empty store, the ledger has total 2, completed 1, failed 1 and the
    single error entry naming the blank title with the reason 'Title
    cannot be empty', and the store holds one question, titled 'Check if
    a number is even or odd'. *)
Theorem C2_empty_title_scenario (pf : Platform) (w : World) (sched : Schedule) :
  (forall table,
      POST pf w sched (request [Examples.evenOdd; Examples.emptyTitle]) table
      = (failure 400
           (js "Invalid generate request: "
            ++ zodIssueMessage pf (request [Examples.evenOdd; Examples.emptyTitle])),
         initial table))
  /\ (generateContent w 0 0 Examples.evenOdd = Ok Examples.completeReply ->
      let run := POST pf w sched (request [Examples.evenOdd; js "  "]) [] in
      data run.1 = Some (generationStatus run.2)
      /\ generationStatus run.2
         = {| total := 2; completed := 1; failed := 1;
              errors := [errorEntry (js "  ") (js "Title cannot be empty")] |}
      /\ exists row, table run.2 = [row]
                     /\ Database.title row = SText Examples.evenOdd).
Proof.
  split.
  - intros table. reflexivity.
  - intros Hreply. cbn zeta. unfold POST.
    rewrite request_accepted;
      [ | vm_compute; lia | repeat constructor; vm_compute; lia ].
    change (length [Examples.evenOdd; js "  "] =? 0)%nat with false.
    change (20 <? length [Examples.evenOdd; js "  "])%nat with false.
    cbv iota. cbn [fst snd].
    change (batchesOf [Examples.evenOdd; js "  "]) with [[Examples.evenOdd; js "  "]].
    cbn [runBatches]. unfold runBatch. rewrite blank_scenario_started.
    cbn [length]. rewrite arrange_single. cbn [fold_left]. unfold settleTask.
    cbn [task sanitizedTitle batchIndex rawTitle].
    rewrite (completeReply_generated pf w 0 Hreply).
    destruct (completeQuestion_saved pf w) as (row & Hsave & Htitle).
    cbn [table log recordFailure]. rewrite Hsave.
    vm_compute. repeat split. exists row. split; [reflexivity | exact Htitle].
Qed.

Lemma C2_empty_title_scenario_witness :
  let run := POST Examples.platform (Examples.worldReplying Examples.completeReply)
               Examples.inOrder (request [Examples.evenOdd; js "  "]) [] in
  data run.1 = Some (generationStatus run.2)
  /\ generationStatus run.2
     = {| total := 2; completed := 1; failed := 1;
          errors := [errorEntry (js "  ") (js "Title cannot be empty")] |}
  /\ exists row, table run.2 = [row] /\ Database.title row = SText Examples.evenOdd.
Proof.
  apply (proj2 (C2_empty_title_scenario Examples.platform
                  (Examples.worldReplying Examples.completeReply) Examples.inOrder)).
  reflexivity.
Defined.

(** C2, as worded, fails: on the titles 'Check if a number is even or
    odd' and the empty string, the schema of the request refuses the
    empty title, so the answer is the error with status 400 and no
    ledger; no task starts and nothing is stored. *)
Lemma C2_counterexample :
  let body := request [Examples.evenOdd; Examples.emptyTitle] in
  let run := POST Examples.platform (Examples.worldReplying Examples.completeReply)
               Examples.inOrder body [] in
  Schema.GenerateRequestSchema body = None
  /\ httpStatus run.1 = 400%nat
  /\ data run.1 = None
  /\ trace run.2 = []
  /\ table run.2 = [].
Proof. vm_compute. repeat split. Qed.

End ScenarioClaims.

(** ** The orchestrator: the order of events *)

Ltac list_mem :=
  repeat match goal with
         | H : _ ∈ [] |- _ => apply elem_of_nil in H; contradiction
         end;
  rewrite ?elem_of_app, ?elem_of_cons, ?elem_of_nil; intuition eauto.

Section TraceFacts.

Import Value Types Generate.

Context (pf : Platform) (w : World).

Lemma startTask_trace (batch offset index : nat) (title : jsstring) (st : State)
    (pending : list Pending) :
  let st' := (startTask batch offset (st, pending) (index, title)).1 in
  let pending' := (startTask batch offset (st, pending) (index, title)).2 in
  exists evs,
    trace st' = trace st ++ evs
    /\ Forall (taskEvent batch) evs
    /\ TaskStarted batch index ∈ evs
    /\ ((TaskSettled batch index false ∈ evs /\ pending' = pending)
        \/ exists p, pending' = pending ++ [p] /\ batchIndex p = index).
Proof.
  cbn zeta. unfold startTask.
  destruct (Validation.validateAndSanitizeTitle title) as [sanitized|e]; cbn [fst snd].
  - destruct (0 <? index)%nat eqn:Hpos.
    + exists [TaskStarted batch index; Staggered batch index GENERATION_DELAY].
      cbn [log trace]. rewrite <- app_assoc. split; [reflexivity|].
      apply Nat.ltb_lt in Hpos.
      split; [repeat constructor; assumption|].
      split; [list_mem|]. right. eexists. split; reflexivity.
    + exists [TaskStarted batch index]. cbn [log trace]. split; [reflexivity|].
      split; [repeat constructor|]. split; [list_mem|].
      right. eexists. split; reflexivity.
  - exists [TaskStarted batch index; TaskSettled batch index false].
    cbn [log trace recordFailure]. rewrite <- app_assoc. split; [reflexivity|].
    split; [repeat constructor|]. split; [list_mem|]. left. split; [list_mem|reflexivity].
Qed.

Lemma settleTask_trace (batch : nat) (st : State) (p : Pending) :
  exists evs,
    trace (settleTask pf w batch st p) = trace st ++ evs
    /\ Forall (taskEvent batch) evs
    /\ exists ok, TaskSettled batch (batchIndex p) ok ∈ evs.
Proof.
  unfold settleTask.
  destruct (Gemini.generateQuestionMetadata pf w (task p) (sanitizedTitle p))
    as [metadata|e].
  - match goal with |- context [if ?c then _ else _] => destruct c end.
    + exists [TaskSettled batch (batchIndex p) false]. cbn [log trace recordFailure].
      split; [reflexivity|]. split; [repeat constructor|]. exists false. list_mem.
    + destruct (Database.saveQuestion pf _ _ _) as [table'|e].
      * eexists [SaveCalled batch (batchIndex p) _; TaskSettled batch (batchIndex p) true].
        cbn [log trace recordSuccess]. rewrite <- app_assoc. split; [reflexivity|].
        split; [repeat constructor|]. exists true. list_mem.
      * eexists [SaveCalled batch (batchIndex p) _; TaskSettled batch (batchIndex p) false].
        cbn [log trace recordFailure]. rewrite <- app_assoc. split; [reflexivity|].
        split; [repeat constructor|]. exists false. list_mem.
  - exists [TaskSettled batch (batchIndex p) false]. cbn [log trace recordFailure].
    split; [reflexivity|]. split; [repeat constructor|]. exists false. list_mem.
Qed.

Lemma startAll_trace (batch offset : nat) (entries : list (nat * jsstring)) :
  forall (st : State) (pending : list Pending),
    let st' := (fold_left (startTask batch offset) entries (st, pending)).1 in
    let pending' := (fold_left (startTask batch offset) entries (st, pending)).2 in
    exists evs,
      trace st' = trace st ++ evs
      /\ Forall (taskEvent batch) evs
      /\ (forall p, p ∈ pending -> p ∈ pending')
      /\ forall entry, entry ∈ entries ->
           TaskStarted batch entry.1 ∈ evs
           /\ ((exists ok, TaskSettled batch entry.1 ok ∈ evs)
               \/ exists p, p ∈ pending' /\ batchIndex p = entry.1).
Proof.
  induction entries as [|[index title] entries IH]; intros st pending; cbn zeta.
  - exists []. cbn [fold_left fst snd]. rewrite app_nil_r.
    split; [reflexivity|]. split; [constructor|]. split; [auto|].
    intros entry Hin. list_mem.
  - cbn [fold_left].
    destruct (startTask_trace batch offset index title st pending)
      as (evs1 & Htr1 & Hev1 & Hstart1 & Hcase).
    destruct (startTask batch offset (st, pending) (index, title)) as [st1 pending1].
    cbn [fst snd] in *.
    destruct (IH st1 pending1) as (evs2 & Htr2 & Hev2 & Hkeep & Hrest).
    exists (evs1 ++ evs2). rewrite app_assoc, <- Htr1. split; [exact Htr2|].
    split; [apply Forall_app; auto|]. split.
    + intros p Hp. apply Hkeep. destruct Hcase as [[_ ->] | (q & -> & _)]; list_mem.
    + intros entry Hin. apply elem_of_cons in Hin as [-> | Hin].
      * cbn [fst]. split; [list_mem|].
        destruct Hcase as [[Hsettled _] | (q & -> & Hq)].
        -- left. exists false. list_mem.
        -- right. exists q. split; [apply Hkeep; list_mem | exact Hq].
      * destruct (Hrest entry Hin) as [Hs Hc]. split; [list_mem|].
        destruct Hc as [[ok Hok] | Hp]; [left; exists ok; list_mem | right; exact Hp].
Qed.

Lemma settleAll_trace (batch : nat) (order : list Pending) :
  forall (st : State),
    exists evs,
      trace (fold_left (settleTask pf w batch) order st) = trace st ++ evs
      /\ Forall (taskEvent batch) evs
      /\ forall p, p ∈ order -> exists ok, TaskSettled batch (batchIndex p) ok ∈ evs.
Proof.
  induction order as [|p order IH]; intros st.
  - exists []. cbn [fold_left]. rewrite app_nil_r.
    split; [reflexivity|]. split; [constructor|]. intros p Hp. list_mem.
  - cbn [fold_left].
    destruct (settleTask_trace batch st p) as (evs1 & Htr1 & Hev1 & ok1 & Hok1).
    destruct (IH (settleTask pf w batch st p)) as (evs2 & Htr2 & Hev2 & Hrest).
    exists (evs1 ++ evs2). rewrite app_assoc, <- Htr1. split; [exact Htr2|].
    split; [apply Forall_app; auto|].
    intros q Hq. apply elem_of_cons in Hq as [-> | Hq].
    + exists ok1. list_mem.
    + destruct (Hrest q Hq) as [ok Hok]. exists ok. list_mem.
Qed.

(** One batch: every event is an event of that batch, and every title
    of the batch was started and was settled. *)
Lemma runBatch_trace (sched : Schedule) (batch offset : nat) (titles : list jsstring)
    (st : State) :
  exists evs,
    trace (runBatch pf w sched batch offset titles st) = trace st ++ evs
    /\ Forall (taskEvent batch) evs
    /\ forall k, (k < length titles)%nat ->
         TaskStarted batch k ∈ evs /\ exists ok, TaskSettled batch k ok ∈ evs.
Proof.
  unfold runBatch.
  destruct (startAll_trace batch offset (imap (fun i t => (i, t)) titles) st [])
    as (evs1 & Htr1 & Hev1 & _ & Hstarted).
  destruct (fold_left (startTask batch offset) _ (st, [])) as [st1 pending].
  cbn [fst snd] in *.
  pose proof (arrange_perm (sched batch) (length pending) pending (sched batch) eq_refl)
    as Hperm.
  destruct (settleAll_trace batch (arrange (sched batch) (length pending) pending) st1)
    as (evs2 & Htr2 & Hev2 & Hsettled).
  exists (evs1 ++ evs2). rewrite app_assoc, <- Htr1. split; [exact Htr2|].
  split; [apply Forall_app; auto|].
  intros k Hk. destruct (lookup_lt_is_Some_2 titles k Hk) as [t Ht].
  assert (Hin : (k, t) ∈ imap (fun i t => (i, t)) titles).
  { apply elem_of_lookup_imap. exists k, t. auto. }
  destruct (Hstarted _ Hin) as [Hs Hc]. cbn [fst] in *. split; [list_mem|].
  destruct Hc as [[ok Hok] | (p & Hp & Hidx)].
  - exists ok. list_mem.
  - destruct (Hsettled p) as [ok Hok]; [rewrite Hperm; exact Hp|].
    exists ok. rewrite <- Hidx. list_mem.
Qed.

End TraceFacts.

Section BarrierFacts.

Import Value Types Generate.

Context (pf : Platform) (w : World).

Lemma taskEvent_later (batch b : nat) (e : Event) :
  (batch <= b)%nat -> taskEvent b e -> laterEvent batch e.
Proof.
  intros Hle Hev. unfold laterEvent. destruct Hev as [Hb Hs]. rewrite Hb.
  split; [exact Hle | split; assumption].
Qed.

Lemma laterEvent_weaken (batch batch' : nat) (e : Event) :
  (batch <= batch')%nat -> laterEvent batch' e -> laterEvent batch e.
Proof.
  unfold laterEvent. intros Hle. destruct (eventBatch e); [|auto].
  intros [Hb Hev]. split; [lia | exact Hev].
Qed.

(** All the batches from the [batch]-th on: only their events and the
    pauses between them, and the first of them starts all its tasks. *)
Lemma runBatches_trace (sched : Schedule) (batches : list (list jsstring)) :
  forall (batch offset : nat) (st : State),
    exists evs,
      trace (runBatches pf w sched batch offset batches st) = trace st ++ evs
      /\ Forall (laterEvent batch) evs
      /\ forall t rest, batches = t :: rest ->
           forall k, (k < length t)%nat -> TaskStarted batch k ∈ evs.
Proof.
  induction batches as [|t batches IH]; intros batch offset st.
  - exists []. cbn [runBatches]. rewrite app_nil_r.
    split; [reflexivity|]. split; [constructor|]. intros t rest Hnil. discriminate.
  - cbn [runBatches].
    destruct (runBatch_trace pf w sched batch offset t st) as (evs1 & Htr1 & Hev1 & Hall1).
    set (st1 := runBatch pf w sched batch offset t st) in *.
    set (st2 := match batches with
                | [] => st1
                | _ :: _ => log (BatchPause (GENERATION_DELAY * 2)) st1
                end).
    destruct (IH (S batch) (offset + length t)%nat st2) as (evs2 & Htr2 & Hev2 & _).
    assert (Hst2 : exists pause, trace st2 = trace st1 ++ pause
                                 /\ Forall (laterEvent batch) pause).
    { subst st2. destruct batches.
      - exists []. rewrite app_nil_r. split; [reflexivity | constructor].
      - exists [BatchPause (GENERATION_DELAY * 2)]. split; [reflexivity|].
        constructor; [reflexivity | constructor]. }
    destruct Hst2 as (pause & Hpause & Hevp).
    exists (evs1 ++ pause ++ evs2). split; [|split].
    + rewrite Htr2, Hpause, Htr1. rewrite <- !app_assoc. reflexivity.
    + apply Forall_app. split.
      * eapply Forall_impl; [exact Hev1|]. intros e He.
        apply (taskEvent_later batch batch); [lia | exact He].
      * apply Forall_app. split; [exact Hevp|].
        eapply Forall_impl; [exact Hev2|]. intros e He.
        apply (laterEvent_weaken batch (S batch)); [lia | exact He].
    + intros t' rest [= <- <-] k Hk. destruct (Hall1 k Hk) as [Hs _]. list_mem.
Qed.

Lemma runBatches_more (sched : Schedule) (batch offset : nat)
    (t1 t2 : list jsstring) (rest : list (list jsstring)) (st : State) :
  runBatches pf w sched batch offset (t1 :: t2 :: rest) st
  = runBatches pf w sched (S batch) (offset + length t1)%nat (t2 :: rest)
      (log (BatchPause (GENERATION_DELAY * 2)) (runBatch pf w sched batch offset t1 st)).
Proof. reflexivity. Qed.

(** The barrier between the [i]-th batch after [batch] and the next. *)
Lemma barrier_between (sched : Schedule) (batches : list (list jsstring)) :
  forall (batch offset : nat) (st : State) (i : nat),
    (S i < length batches)%nat ->
    exists before after,
      trace (runBatches pf w sched batch offset batches st)
      = trace st ++ before ++ BatchPause (GENERATION_DELAY * 2) :: after
      /\ (forall e b, e ∈ before -> eventBatch e = Some b -> (b <= batch + i)%nat)
      /\ Forall (laterEvent (S (batch + i))) after
      /\ (forall t, batches !! i = Some t ->
            forall k, (k < length t)%nat ->
              exists ok, TaskSettled (batch + i) k ok ∈ before)
      /\ (forall t, batches !! S i = Some t ->
            forall k, (k < length t)%nat -> TaskStarted (S (batch + i)) k ∈ after).
Proof.
  induction batches as [|t1 batches IH]; intros batch offset st i Hlen;
    [simpl in Hlen; lia|].
  destruct batches as [|t2 batches]; [simpl in Hlen; lia|].
  rewrite runBatches_more.
  destruct (runBatch_trace pf w sched batch offset t1 st) as (evs1 & Htr1 & Hev1 & Hall1).
  set (st1 := runBatch pf w sched batch offset t1 st) in *.
  set (st2 := log (BatchPause (GENERATION_DELAY * 2)) st1).
  assert (Htr2 : trace st2 = trace st ++ evs1 ++ [BatchPause (GENERATION_DELAY * 2)]).
  { subst st2. cbn [log trace]. rewrite Htr1, <- app_assoc. reflexivity. }
  destruct i as [|i].
  - destruct (runBatches_trace sched (t2 :: batches) (S batch)
                (offset + length t1)%nat st2) as (evs2 & Htr & Hev2 & Hstart2).
    exists evs1, evs2. rewrite Nat.add_0_r. split; [|split; [|split; [|split]]].
    + rewrite Htr, Htr2. rewrite <- !app_assoc. reflexivity.
    + intros e b He Hb. rewrite Forall_forall in Hev1.
      destruct (Hev1 e He) as [Hb' _]. rewrite Hb in Hb'. injection Hb' as ->. lia.
    + exact Hev2.
    + intros t [= <-] k Hk. destruct (Hall1 k Hk) as [_ Hsettled]. exact Hsettled.
    + intros t [= <-] k Hk. apply (Hstart2 t2 batches eq_refl k Hk).
  - destruct (IH (S batch) (offset + length t1)%nat st2 i) as
      (before & after & Htr & Hbefore & Hafter & Hsettled & Hstarted);
      [simpl in Hlen |- *; lia|].
    exists (evs1 ++ BatchPause (GENERATION_DELAY * 2) :: before), after.
    replace (batch + S i)%nat with (S batch + i)%nat by lia.
    split; [|split; [|split; [|split]]].
    + rewrite Htr, Htr2. rewrite <- !app_assoc. reflexivity.
    + intros e b He Hb. apply elem_of_app in He as [He | He].
      * rewrite Forall_forall in Hev1. destruct (Hev1 e He) as [Hb' _].
        rewrite Hb in Hb'. injection Hb' as ->. lia.
      * apply elem_of_cons in He as [-> | He]; [discriminate Hb|].
        apply (Hbefore e b He Hb).
    + exact Hafter.
    + intros t Ht k Hk. destruct (Hsettled t Ht k Hk) as [ok Hok].
      exists ok. list_mem.
    + intros t Ht. apply (Hstarted t Ht).
Qed.

End BarrierFacts.

Section BarrierClaims.

Import Value Types Generate.

(** C3: the titles are cut into consecutive batches of at most
    [MAX_CONCURRENT_GENERATIONS = 3]; whatever the order in which the
    tasks of a batch resume, every event of batch [i] or earlier, and
    among them the settling (success or failure) of every task of batch
    [i], comes before a pause of twice [GENERATION_DELAY], and every
    event of a later batch, and among them the start of every task of
    batch [i + 1], comes after it; the stagger sleeps inside a batch last
    [GENERATION_DELAY]. *)
Theorem C3_batches_and_barrier (pf : Platform) (w : World) (sched : Schedule)
    (titles : list jsstring) (table : list Database.DatabaseQuestion) :
  (1 <= length titles <= 20)%nat ->
  Forall (fun t => (1 <= length t <= 200)%nat) titles ->
  let st := (POST pf w sched (request titles) table).2 in
  let batches := batchesOf titles in
  concat batches = titles
  /\ Forall (fun b => (1 <= length b <= 3)%nat) batches
  /\ (forall i, (S i < length batches)%nat ->
        exists before after,
          trace st = before ++ BatchPause (2 * GENERATION_DELAY) :: after
          /\ (forall e b, e ∈ before -> eventBatch e = Some b -> (b <= i)%nat)
          /\ (forall e b, e ∈ after -> eventBatch e = Some b -> (i < b)%nat)
          /\ (forall t, batches !! i = Some t ->
                forall k, (k < length t)%nat -> exists ok, TaskSettled i k ok ∈ before)
          /\ (forall t, batches !! S i = Some t ->
                forall k, (k < length t)%nat -> TaskStarted (S i) k ∈ after))
  /\ (forall b k ms, Staggered b k ms ∈ trace st -> ms = GENERATION_DELAY).
Proof.
  intros Hsize Hall. cbn zeta. unfold POST.
  rewrite (request_accepted pf titles Hsize Hall).
  destruct Hsize as [Hlo Hhi].
  rewrite (proj2 (Nat.eqb_neq (length titles) 0)) by lia.
  rewrite (proj2 (Nat.ltb_ge 20 (length titles))) by lia.
  cbn [snd].
  match goal with
  | |- context [runBatches pf w sched 0 0 (batchesOf titles) ?s] => set (st0 := s)
  end.
  split; [apply batchesOf_concat|]. split; [apply slices_sizes|]. split.
  - intros i Hi.
    destruct (barrier_between pf w sched (batchesOf titles) 0 0 st0 i Hi)
      as (before & after & Htr & Hbefore & Hafter & Hsettled & Hstarted).
    exists before, after. cbn [Nat.add] in *. split; [exact Htr|].
    split; [exact Hbefore|]. split; [|split; assumption].
    intros e b He Hb. rewrite Forall_forall in Hafter.
    specialize (Hafter e He). unfold laterEvent in Hafter. rewrite Hb in Hafter.
    destruct Hafter as [Hle _]. lia.
  - intros b k ms Hin.
    destruct (runBatches_trace pf w sched (batchesOf titles) 0 0 st0)
      as (evs & Htr & Hev & _).
    rewrite Htr in Hin. cbn [trace st0 app] in Hin.
    rewrite Forall_forall in Hev. specialize (Hev _ Hin).
    unfold laterEvent in Hev. cbn [eventBatch] in Hev.
    destruct Hev as [_ [_ [Hms _]]]. exact Hms.
Qed.

Lemma C3_batches_and_barrier_witness :
  let titles := [js "a"; js "b"; js "c"; js "d"; js "e"; js "f"; js "g"] in
  let st := (POST Examples.platform (Examples.worldReplying Examples.thinReply)
               (fun _ => [2; 0; 1]%nat) (request titles) []).2 in
  length (batchesOf titles) = 3%nat
  /\ exists before after,
       trace st = before ++ BatchPause (2 * GENERATION_DELAY) :: after
       /\ (exists ok, TaskSettled 1 2 ok ∈ before)
       /\ TaskStarted 2 0 ∈ after.
Proof.
  intros titles st.
  destruct (C3_batches_and_barrier Examples.platform
              (Examples.worldReplying Examples.thinReply) (fun _ => [2; 0; 1]%nat)
              titles [])
    as (_ & _ & Hbarrier & _).
  - vm_compute. lia.
  - repeat constructor; vm_compute; lia.
  - split; [reflexivity|].
    destruct (Hbarrier 1%nat ltac:(vm_compute; lia))
      as (before & after & Htr & _ & _ & Hsettled & Hstarted).
    exists before, after. split; [exact Htr|]. split.
    + apply (Hsettled [js "d"; js "e"; js "f"] eq_refl 2%nat). simpl. lia.
    + apply (Hstarted [js "g"] eq_refl 0%nat). simpl. lia.
Defined.

End BarrierClaims.

(** ** The orchestrator: what reaches the store *)

Section ObjectFacts.

Import Value.

Lemma assign_keys (key x : jsstring) (v : JsValue) (props : list (jsstring * JsValue)) :
  x ∈ map fst (assign key v props) -> x = key \/ x ∈ map fst props.
Proof.
  induction props as [|[k w] props IH]; cbn [assign map fst].
  - intros Hx. apply elem_of_cons in Hx as [-> | Hx]; [auto | list_mem].
  - case_bool_decide as Hk; cbn [map fst]; intros Hx.
    + right. exact Hx.
    + apply elem_of_cons in Hx as [-> | Hx]; [right; list_mem|].
      destruct (IH Hx) as [-> | Hin]; [auto | right; list_mem].
Qed.

Lemma assign_nodup (key : jsstring) (v : JsValue) (props : list (jsstring * JsValue)) :
  NoDup (map fst props) -> NoDup (map fst (assign key v props)).
Proof.
  induction props as [|[k w] props IH]; cbn [assign map fst]; intros Hnd.
  - repeat constructor. intros Hin. list_mem.
  - apply NoDup_cons in Hnd as [Hk Hnd].
    case_bool_decide as Hkey; cbn [map fst].
    + apply NoDup_cons. auto.
    + apply NoDup_cons. split; [|apply IH; exact Hnd].
      intros Hin. destruct (assign_keys _ _ _ _ Hin) as [-> | Hin']; auto.
Qed.

Lemma define_nodup (more acc : list (jsstring * JsValue)) :
  NoDup (map fst acc) -> NoDup (map fst (define acc more)).
Proof.
  revert acc. unfold define.
  induction more as [|[k v] more IH]; intros acc Hnd; [exact Hnd|].
  cbn [fold_left fst snd]. apply IH. apply assign_nodup. exact Hnd.
Qed.

Lemma lookup_absent (key : jsstring) (props : list (jsstring * JsValue)) :
  key ∉ map fst props -> lookup key props = JUndefined.
Proof.
  induction props as [|[k w] props IH]; cbn [lookup map fst]; intros Hout; [reflexivity|].
  rewrite bool_decide_eq_false_2 by (intros ->; apply Hout; list_mem).
  apply IH. intros Hin. apply Hout. list_mem.
Qed.

(** A spread over distinct keys: the spread properties win. *)
Lemma lookup_define (key : jsstring) (more : list (jsstring * JsValue)) :
  forall acc,
    NoDup (map fst more) ->
    lookup key (define acc more)
    = if bool_decide (key ∈ map fst more) then lookup key more else lookup key acc.
Proof.
  unfold define. induction more as [|[k v] more IH]; intros acc Hnd.
  - cbn [fold_left map]. rewrite bool_decide_eq_false_2; [reflexivity|].
    intros Hin. list_mem.
  - apply NoDup_cons in Hnd as [Hk Hnd]. cbn [fold_left fst snd map lookup].
    rewrite (IH _ Hnd). destruct (decide (k = key)) as [-> | Hne].
    + rewrite (bool_decide_eq_false_2 _ Hk).
      rewrite bool_decide_eq_true_2 by list_mem.
      rewrite bool_decide_eq_true_2 by reflexivity. apply lookup_assign_eq.
    + rewrite (bool_decide_eq_false_2 (k = key)) by exact Hne.
      case_bool_decide as Hin.
      * rewrite bool_decide_eq_true_2 by list_mem. reflexivity.
      * rewrite bool_decide_eq_false_2.
        -- apply lookup_assign_ne. exact Hne.
        -- intros Hin'. apply elem_of_cons in Hin' as [-> | Hin']; auto.
Qed.

End ObjectFacts.

Section HandOverFacts.

Import Value Regex Json JsonText Gemini Types Generate.

Lemma parseValue_brace_keys (fuel : nat) (rest : jsstring) :
  match parseValue (S fuel) (123%N :: rest) with
  | Some (JObject props, _) => NoDup (map fst props)
  | Some _ => False
  | None => True
  end.
Proof.
  cbn [parseValue skipWs].
  change (isJsonSpace 123) with false. cbv iota.
  change (123 =? 123)%N with true. cbv iota.
  repeat case_match; simpl; try exact I; unfold mkObject in *; simplify_eq;
    first [apply define_nodup; constructor | constructor].
Qed.

Lemma decode_brace_keys (rest : jsstring) (v : JsValue) :
  decode (123%N :: rest) = Some v ->
  exists props, v = JObject props /\ NoDup (map fst props).
Proof.
  unfold decode.
  replace (2 * length (123%N :: rest) + 2)%nat with (S (2 * length rest + 3))
    by (simpl; lia).
  pose proof (parseValue_brace_keys (2 * length rest + 3) rest) as Hobj.
  destruct (parseValue (S (2 * length rest + 3)) (123%N :: rest)) as [[u out]|];
    [|discriminate].
  destruct (skipWs out); [|discriminate]. intros [= <-].
  destruct u; try contradiction. eauto.
Qed.

(** What is known of a metadata object the parser returns. *)
Lemma parseResponse_ok (pf : Platform) (text : jsstring) (metadata : JsValue) :
  parseResponse pf text = Ok metadata ->
  exists out,
    metadata = JObject out
    /\ NoDup (map fst out)
    /\ truthy (lookup (js "difficulty") out) = true
    /\ isArray (lookup (js "topics") out) = true
    /\ isArray (lookup (js "step_by_step_explanation") out) = true
    /\ (isArray (lookup (js "pseudocode") out) = true
        \/ lookup (js "pseudocode") out = JUndefined).
Proof.
  intros Hok.
  destruct (str_match braces (trim text)) as [m|] eqn:Hm;
    [|rewrite (parseResponse_no_span pf text Hm) in Hok; discriminate].
  destruct (decode (first m)) as [v|] eqn:Hdec;
    [|rewrite (parseResponse_undecodable pf text m Hm Hdec) in Hok; discriminate].
  destruct (located_span_opens _ _ Hm) as [rest Hopen].
  rewrite Hopen in Hdec. destruct (decode_brace_keys rest v Hdec) as (props & -> & Hnd).
  rewrite <- Hopen in Hdec.
  rewrite (parseResponse_decoded pf text m props Hm Hdec) in Hok.
  destruct (truthy (lookup (js "title") props)); [|discriminate].
  destruct (truthy (lookup (js "difficulty") props)) eqn:Hdiff; [|discriminate].
  destruct (truthy (lookup (js "description") props)); [|discriminate].
  cbn [andb] in Hok. cbv zeta in Hok. injection Hok as <-.
  eexists. split; [reflexivity|]. split; [repeat apply assign_nodup; exact Hnd|].
  split; [rewrite !lookup_assign_ne by keys_differ; exact Hdiff|].
  split; [|split].
  - rewrite !lookup_assign_ne by keys_differ. rewrite lookup_assign_eq.
    destruct (isArray (lookup (js "topics") props)) eqn:Ha; [exact Ha | reflexivity].
  - rewrite lookup_assign_ne by keys_differ. rewrite lookup_assign_eq.
    match goal with |- isArray (if isArray ?x then _ else _) = true =>
      destruct (isArray x) eqn:Ha; [exact Ha | reflexivity] end.
  - rewrite lookup_assign_eq.
    match goal with |- isArray (if isArray ?x then _ else _) = true \/ _ =>
      destruct (isArray x) eqn:Ha; [left; exact Ha | right; reflexivity] end.
Qed.

Lemma generateQuestionMetadata_ok (pf : Platform) (w : World) (n : nat)
    (title : jsstring) (metadata : JsValue) :
  generateQuestionMetadata pf w n title = Ok metadata ->
  exists text, parseResponse pf text = Ok metadata.
Proof.
  unfold generateQuestionMetadata.
  destruct (negb (truthy (JString title)) || (length (trim title) =? 0)%nat);
    [discriminate|].
  destruct (Utils.retry _ 3) as [text|e]; cbn [bind].
  - destruct (parseResponse pf text) as [m|e] eqn:Hp; cbn [rethrow].
    + intros [= <-]. eauto.
    + destruct (errClass e); discriminate.
  - cbn [rethrow]. destruct (errClass e); discriminate.
Qed.

Lemma sanitized_bounds (title sanitized : jsstring) :
  Validation.validateAndSanitizeTitle title = Ok sanitized ->
  (1 <= length sanitized <= 200)%nat.
Proof.
  unfold Validation.validateAndSanitizeTitle.
  destruct (negb (truthy (JString title))); [discriminate|].
  destruct (length (trim title) =? 0)%nat eqn:H0; [discriminate|].
  destruct (200 <? length (trim title))%nat eqn:H200; [discriminate|].
  intros [= <-]. apply Nat.eqb_neq in H0. apply Nat.ltb_ge in H200. lia.
Qed.

Lemma buildQuestion_title (w : World) (n : nat) (out : list (jsstring * JsValue))
    (sanitized : jsstring) :
  getProp (buildQuestion w n (JObject out) sanitized) (js "title") = JString sanitized.
Proof.
  unfold buildQuestion, define. cbn [getProp propsOf].
  rewrite fold_left_app. cbn [fold_left fst snd].
  rewrite lookup_assign_ne by keys_differ. apply lookup_assign_eq.
Qed.

Lemma buildQuestion_spread (w : World) (n : nat) (out : list (jsstring * JsValue))
    (sanitized key : jsstring) :
  NoDup (map fst out) ->
  key <> js "id" -> key <> js "title" -> key <> js "created_at" ->
  getProp (buildQuestion w n (JObject out) sanitized) key = lookup key out.
Proof.
  intros Hnd Hid Htitle Hcreated. unfold buildQuestion. cbn [getProp propsOf].
  unfold define at 1. rewrite fold_left_app. cbn [fold_left fst snd].
  rewrite !lookup_assign_ne by congruence.
  fold (define [(js "id", JString (generateId w n))] out).
  rewrite (lookup_define key out _ Hnd). case_bool_decide as Hin; [reflexivity|].
  cbn [lookup]. rewrite bool_decide_eq_false_2 by congruence.
  symmetry. apply lookup_absent. exact Hin.
Qed.

Lemma saveQuestion_rows (pf : Platform) (now : jsstring) (question : JsValue)
    (table table' : list Database.DatabaseQuestion) :
  Database.saveQuestion pf now question table = Ok table' ->
  Forall (fun row => row ∈ table \/ Database.difficultyCheck row = true) table'.
Proof.
  unfold Database.saveQuestion.
  destruct (Database.bindParameters pf _) as [values|e]; cbn [bind Database.wrapError];
    [|discriminate].
  unfold Database.insert.
  destruct (Database.rowOf values) as [row|]; [|discriminate].
  destruct (Database.notNullViolation row); [discriminate|].
  destruct (Database.difficultyCheck row) eqn:Hcheck; [|discriminate].
  cbn [Database.wrapError]. intros [= <-]. apply Forall_app. split.
  - apply Forall_forall. intros old Hold. left.
    apply list_elem_of_filter in Hold as [_ Hold]. exact Hold.
  - constructor; [right; exact Hcheck | constructor].
Qed.

End HandOverFacts.

Section HandOverClaims.

Import Value Types Generate.

Context (pf : Platform) (w : World).

Lemma log_checked (before : list Database.DatabaseQuestion) (e : Event) (st : State) :
  match e with SaveCalled _ _ question => handedOver question | _ => True end ->
  savesChecked before st -> savesChecked before (log e st).
Proof.
  intros He [Htrace Htable]. split; [|exact Htable].
  cbn [log trace]. apply Forall_app. split; [exact Htrace|].
  constructor; [exact He | constructor].
Qed.

Lemma startTask_checked (before : list Database.DatabaseQuestion)
    (batch offset : nat) (acc : State * list Pending) (entry : nat * jsstring) :
  savesChecked before acc.1 ->
  Forall (fun p => (1 <= length (sanitizedTitle p) <= 200)%nat) acc.2 ->
  savesChecked before (startTask batch offset acc entry).1
  /\ Forall (fun p => (1 <= length (sanitizedTitle p) <= 200)%nat)
       (startTask batch offset acc entry).2.
Proof.
  destruct acc as [st pending], entry as [index title]. cbn [fst snd].
  intros Hst Hpending. unfold startTask.
  destruct (Validation.validateAndSanitizeTitle title) as [sanitized|e] eqn:Hval;
    cbn [fst snd].
  - split.
    + destruct (0 <? index)%nat; repeat apply log_checked; try exact I; exact Hst.
    + apply Forall_app. split; [exact Hpending|].
      constructor; [|constructor]. cbn [sanitizedTitle].
      apply (sanitized_bounds title). exact Hval.
  - split; [|exact Hpending].
    apply log_checked; [exact I|].
    destruct Hst as [Htrace Htable]. split; [|exact Htable].
    cbn [recordFailure trace log]. apply Forall_app. split; [exact Htrace|].
    constructor; [exact I | constructor].
Qed.

Lemma settleTask_checked (before : list Database.DatabaseQuestion) (batch : nat)
    (st : State) (p : Pending) :
  (1 <= length (sanitizedTitle p) <= 200)%nat ->
  savesChecked before st -> savesChecked before (settleTask pf w batch st p).
Proof.
  intros Hbounds Hst.
  assert (Hfail : forall e st0, savesChecked before st0 ->
             savesChecked before
               (log (TaskSettled batch (batchIndex p) false)
                  (recordFailure (rawTitle p) e st0))).
  { intros e st0 [Htrace Htable]. apply log_checked; [exact I|].
    split; [exact Htrace | exact Htable]. }
  unfold settleTask.
  destruct (Gemini.generateQuestionMetadata pf w (task p) (sanitizedTitle p))
    as [metadata|e] eqn:Hgen; [|apply Hfail; exact Hst].
  destruct (generateQuestionMetadata_ok pf w _ _ _ Hgen) as [text Hparse].
  destruct (parseResponse_ok pf text metadata Hparse)
    as (out & -> & Hnd & Hdiff & Htopics & Hsteps & Hpseudo).
  set (question := buildQuestion w (task p) (JObject out) (sanitizedTitle p)).
  destruct (negb (truthy (getProp question (js "title")))
            || negb (truthy (getProp question (js "description")))
            || negb (truthy (getProp question (js "solution_python")))) eqn:Hgate;
    [apply Hfail; exact Hst|].
  apply orb_false_iff in Hgate as [Hgate Hsol].
  apply orb_false_iff in Hgate as [_ Hdesc].
  apply negb_false_iff in Hsol, Hdesc.
  assert (Hhanded : handedOver question).
  { unfold handedOver. unfold question in *.
    rewrite (buildQuestion_spread w (task p) out (sanitizedTitle p) _ Hnd)
      in Hdesc by keys_differ.
    rewrite (buildQuestion_spread w (task p) out (sanitizedTitle p) _ Hnd)
      in Hsol by keys_differ.
    rewrite buildQuestion_title.
    rewrite !(buildQuestion_spread w (task p) out (sanitizedTitle p) _ Hnd)
      by keys_differ.
    split; [eexists; split; [reflexivity | exact Hbounds]|].
    split; [exact Hdiff|].
    split; [exact Hdesc|]. split; [exact Hsol|].
    split; [exact Htopics|]. split; [exact Hsteps | exact Hpseudo]. }
  assert (Hlogged : savesChecked before
                      (log (SaveCalled batch (batchIndex p) question) st))
    by (apply log_checked; [exact Hhanded | exact Hst]).
  cbn [log table].
  destruct (Database.saveQuestion pf (savedAt w (task p)) question (table st))
    as [table'|e] eqn:Hsave; [|apply Hfail; exact Hlogged].
  apply log_checked; [exact I|].
  destruct Hlogged as [Htrace Htable]. split; [exact Htrace|].
  cbn [recordSuccess table].
  pose proof (saveQuestion_rows pf _ _ _ _ Hsave) as Hrows.
  eapply Forall_impl; [exact Hrows|]. intros row [Hold | Hcheck]; [|auto].
  cbn [log table] in Htable. rewrite Forall_forall in Htable. apply Htable. exact Hold.
Qed.

Lemma startAll_checked (before : list Database.DatabaseQuestion)
    (batch offset : nat) (entries : list (nat * jsstring)) :
  forall acc,
    savesChecked before acc.1 ->
    Forall (fun p => (1 <= length (sanitizedTitle p) <= 200)%nat) acc.2 ->
    savesChecked before (fold_left (startTask batch offset) entries acc).1
    /\ Forall (fun p => (1 <= length (sanitizedTitle p) <= 200)%nat)
         (fold_left (startTask batch offset) entries acc).2.
Proof.
  induction entries as [|entry entries IH]; intros acc Hst Hpending; [auto|].
  cbn [fold_left].
  destruct (startTask_checked before batch offset acc entry Hst Hpending) as [H1 H2].
  apply IH; assumption.
Qed.

Lemma settleAll_checked (before : list Database.DatabaseQuestion) (batch : nat)
    (order : list Pending) :
  forall st,
    Forall (fun p => (1 <= length (sanitizedTitle p) <= 200)%nat) order ->
    savesChecked before st ->
    savesChecked before (fold_left (settleTask pf w batch) order st).
Proof.
  induction order as [|p order IH]; intros st Hall Hst; [exact Hst|].
  apply Forall_cons in Hall as [Hp Hall]. cbn [fold_left].
  apply IH; [exact Hall|]. apply settleTask_checked; assumption.
Qed.

Lemma runBatch_checked (before : list Database.DatabaseQuestion) (sched : Schedule)
    (batch offset : nat) (titles : list jsstring) (st : State) :
  savesChecked before st ->
  savesChecked before (runBatch pf w sched batch offset titles st).
Proof.
  intros Hst. unfold runBatch.
  destruct (startAll_checked before batch offset (imap (fun i t => (i, t)) titles)
              (st, []) Hst (Forall_nil_2 _)) as [H1 H2].
  destruct (fold_left (startTask batch offset) _ (st, [])) as [st1 pending].
  cbn [fst snd] in *. apply settleAll_checked; [|exact H1].
  rewrite (arrange_perm (sched batch) (length pending) pending (sched batch) eq_refl).
  exact H2.
Qed.

Lemma runBatches_checked (before : list Database.DatabaseQuestion) (sched : Schedule)
    (batches : list (list jsstring)) :
  forall (batch offset : nat) (st : State),
    savesChecked before st ->
    savesChecked before (runBatches pf w sched batch offset batches st).
Proof.
  induction batches as [|t batches IH]; intros batch offset st Hst; [exact Hst|].
  cbn [runBatches]. apply IH.
  pose proof (runBatch_checked before sched batch offset t st Hst) as H1.
  destruct batches; [exact H1 | apply log_checked; [exact I | exact H1]].
Qed.

Lemma POST_checked (sched : Schedule) (body : JsValue)
    (table : list Database.DatabaseQuestion) :
  savesChecked table (POST pf w sched body table).2.
Proof.
  assert (Hinit : forall status,
             savesChecked table
               {| generationStatus := status; generatedQuestions := [];
                  Generate.table := table; trace := [] |}).
  { intros status. split; [constructor|]. cbn [Generate.table].
    apply Forall_forall. auto. }
  unfold POST.
  destruct (Validation.validateGenerateRequest pf body) as [titles|e];
    [|apply Hinit].
  destruct (length titles =? 0)%nat; [apply Hinit|].
  destruct (20 <? length titles)%nat; [apply Hinit|].
  cbn [snd]. apply runBatches_checked. apply Hinit.
Qed.

End HandOverClaims.

(** C4 (as amended): every question the handler hands to [saveQuestion]
    carries the sanitized title (1 to 200 code units), a truthy
    difficulty, description and solution, a list (possibly empty) for
    topics and for the steps, and a list or nothing for the pseudocode;
    the bounds on topics, description and steps, the example and the
    enumeration of the difficulty are not checked by the pipeline.  Of
    the rows a run adds to the table, each has its difficulty among Easy,
    Medium and Hard, by the table's own check. *)
Theorem C4_handed_over_questions (pf : Platform) (w : World)
    (sched : Generate.Schedule) (body : JsValue)
    (table : list Database.DatabaseQuestion) :
  let st := (Generate.POST pf w sched body table).2 in
  (forall batch index question,
      Generate.SaveCalled batch index question ∈ Generate.trace st ->
      Generate.handedOver question)
  /\ (forall row, row ∈ Generate.table st ->
        row ∈ table \/ Database.difficultyCheck row = true).
Proof.
  cbn zeta. destruct (POST_checked pf w sched body table) as [Htrace Htable]. split.
  - intros batch index question Hin. rewrite Forall_forall in Htrace.
    apply (Htrace _ Hin).
  - intros row Hin. rewrite Forall_forall in Htable. apply (Htable _ Hin).
Qed.

Lemma C4_handed_over_questions_witness : Generate.handedOver Examples.thinQuestion.
Proof.
  apply (proj1 (C4_handed_over_questions Examples.platform
                  (Examples.worldReplying Examples.thinReply) Examples.inOrder
                  (Generate.request [js "t"]) []) 0%nat 0%nat).
  apply list_elem_of_lookup. exists 1%nat. vm_compute. reflexivity.
Defined.

(** C4, as worded, fails: a reply without topics and steps and with a
    description of five characters passes the parser and the handler's
    check, is handed to [saveQuestion], is stored, and is read back by
    [getQuestion] with no topic, no step and the short description. *)
Lemma C4_counterexample :
  let run := Generate.POST Examples.platform (Examples.worldReplying Examples.thinReply)
               Examples.inOrder (Generate.request [js "t"]) [] in
  Generate.trace run.2
  = [Generate.TaskStarted 0 0; Generate.SaveCalled 0 0 Examples.thinQuestion;
     Generate.TaskSettled 0 0 true]
  /\ Schema.contentValid Examples.thinQuestion = false
  /\ Value.getProp Examples.thinQuestion (js "topics") = JArray []
  /\ Value.getProp Examples.thinQuestion (js "step_by_step_explanation") = JArray []
  /\ Value.getProp Examples.thinQuestion (js "description") = JString (js "short")
  /\ exists read,
       Database.getQuestion Examples.platform (js "q-0") (Generate.table run.2)
       = Ok (Some read)
       /\ Schema.contentValid read = false
       /\ Value.getProp read (js "topics") = JArray [].
Proof.
  split; [vm_compute; reflexivity|].
  split; [vm_compute; reflexivity|].
  split; [vm_compute; reflexivity|].
  split; [vm_compute; reflexivity|].
  split; [vm_compute; reflexivity|].
  eexists. split; [vm_compute; reflexivity|].
  split; vm_compute; reflexivity.
Qed.

(** The constraints are satisfiable: a complete question meets them. *)
Example contentValid_sample :
  Schema.contentValid (Types.toJs Examples.sampleQuestion) = true.
Proof. vm_compute. reflexivity. Qed.

(** ** rate-limit.ts: whole runs, and the client identifier *)

Section SlidingWindowFacts.

Import RateLimiter.

Context (config : RateLimitConfig).


(** Pruning twice, the second time at a later clock reading, is pruning
    once at the later reading. *)
Lemma prune_again (earlier now : Z) (times : list Z) :
  earlier <= now ->
  filter (fun time => now - windowMs config < time)
    (filter (fun time => earlier - windowMs config < time) times)
  = filter (fun time => now - windowMs config < time) times.
Proof.
  intros Hle. induction times as [|t times IH]; [reflexivity|].
  destruct (decide (earlier - windowMs config < t)) as [Hin | Hout].
  - rewrite (filter_cons_True _ _ _ Hin).
    destruct (decide (now - windowMs config < t)) as [Hin' | Hout'].
    + rewrite !filter_cons_True by exact Hin'. f_equal. exact IH.
    + rewrite !filter_cons_False by exact Hout'. exact IH.
  - rewrite (filter_cons_False _ _ _ Hout).
    rewrite (filter_cons_False (fun time => now - windowMs config < time)) by lia.
    exact IH.
Qed.

Lemma admittedTimes_cons (c : jsstring) (now : Z) (who : jsstring)
    (calls : list (Z * jsstring)) (v : bool) (vs : list bool) :
  admittedTimes c ((now, who) :: calls) (v :: vs)
  = (if v && bool_decide (who = c) then [now] else []) ++ admittedTimes c calls vs.
Proof. cbn [admittedTimes]. destruct (v && bool_decide (who = c)); reflexivity. Qed.

Lemma tracks_recorded (clients : gmap jsstring RateLimitInfo)
    (history : jsstring -> list Z) (last now : Z) (c : jsstring) :
  tracks config clients history last -> last <= now ->
  filter (fun time => now - windowMs config < time)
    (from_option requests [] (clients !! c))
  = filter (fun time => now - windowMs config < time) (history c).
Proof.
  intros Htr Hle. specialize (Htr c).
  destruct (clients !! c) as [info|]; cbn [from_option].
  - destruct Htr as (p & Hp & ->). apply prune_again. lia.
  - rewrite Htr. reflexivity.
Qed.

Lemma tracks_step (clients : gmap jsstring RateLimitInfo)
    (history : jsstring -> list Z) (last now : Z) (c : jsstring) :
  0 < windowMs config ->
  tracks config clients history last -> last <= now ->
  let v := allowed (isAllowed config now c clients).1 in
  tracks config (isAllowed config now c clients).2
    (fun c' => history c' ++ (if v && bool_decide (c = c') then [now] else []))
    now.
Proof.
  intros Hw Htr Hle v c'.
  destruct (isAllowed_step config now c clients) as (Hadm & Hreq & Hother).
  cbn zeta in Hadm, Hreq. fold v in Hreq.
  destruct (decide (c = c')) as [<- | Hne].
  - rewrite bool_decide_eq_true_2 by reflexivity. rewrite andb_true_r.
    apply fmap_Some in Hreq as (info & -> & Hreq). exists now. split; [lia|].
    rewrite <- Hreq, (tracks_recorded clients history last now c Htr Hle).
    rewrite filter_app. destruct v; [|rewrite filter_nil, app_nil_r; reflexivity].
    rewrite filter_cons_True by lia. rewrite filter_nil. reflexivity.
  - rewrite bool_decide_eq_false_2 by exact Hne. rewrite andb_false_r, app_nil_r.
    rewrite (Hother c') by congruence. specialize (Htr c').
    destruct (clients !! c') as [info|]; [|exact Htr].
    destruct Htr as (p & Hp & Hreq'). exists p. split; [lia | exact Hreq'].
Qed.

Lemma run_tracks (calls : list (Z * jsstring)) :
  0 < windowMs config ->
  forall (clients : gmap jsstring RateLimitInfo) (history : jsstring -> list Z)
         (last : Z),
    tracks config clients history last -> ascending last calls ->
    let vs := (run config (callsOnly calls) clients).1 in
    length vs = length calls
    /\ forall (k : nat) (now : Z) (c : jsstring),
         calls !! k = Some (now, c) ->
         vs !! k
         = Some (bool_decide
                   (Z.of_nat
                      (length
                         (filter (fun time => now - windowMs config < time)
                            (history c
                             ++ admittedTimes c (take k calls) (take k vs))))
                    < maxRequests config)).
Proof.
  intros Hw. induction calls as [|[now0 c0] calls IH];
    intros clients history last Htr Hasc; cbn zeta.
  - split; [reflexivity|]. intros k now c Hk. destruct k; discriminate.
  - destruct Hasc as [Hle Hasc]. unfold callsOnly. cbn [map fst snd].
    rewrite run_call. fold (callsOnly calls).
    pose proof (tracks_step clients history last now0 c0 Hw Htr Hle) as Htr'.
    cbn zeta in Htr'.
    destruct (isAllowed_step config now0 c0 clients) as (Hadm & _ & _).
    cbn zeta in Hadm.
    set (v := allowed (isAllowed config now0 c0 clients).1) in *.
    destruct (IH _ _ _ Htr' Hasc) as [Hlen Hrule]. cbn zeta in Hlen, Hrule.
    set (vs := (run config (callsOnly calls) (isAllowed config now0 c0 clients).2).1) in *.
    split; [cbn [length]; congruence|].
    intros [|k] now c Hk.
    + injection Hk as -> ->. cbn [take admittedTimes lookup list_lookup].
      rewrite app_nil_r, Hadm.
      rewrite (tracks_recorded clients history last now c Htr Hle). reflexivity.
    + cbn [lookup list_lookup] in Hk |- *. change (vs !! k = ?x) with (vs !! k = x).
      rewrite (Hrule k now c Hk). cbn [take]. rewrite admittedTimes_cons.
      rewrite app_assoc. reflexivity.
Qed.


Lemma admittedTimes_snoc (c : jsstring) (n : nat) :
  forall (calls : list (Z * jsstring)) (vs : list bool) (now : Z) (who : jsstring)
         (v : bool),
    calls !! n = Some (now, who) -> vs !! n = Some v ->
    admittedTimes c (take (S n) calls) (take (S n) vs)
    = admittedTimes c (take n calls) (take n vs)
      ++ (if v && bool_decide (who = c) then [now] else []).
Proof.
  induction n as [|n IH]; intros calls vs now who v Hcall Hv.
  - destruct calls as [|[now0 who0] calls]; [discriminate|].
    destruct vs as [|v0 vs]; [discriminate|].
    injection Hcall as -> ->. injection Hv as ->.
    cbn [take admittedTimes]. destruct (v && bool_decide (who = c)); reflexivity.
  - destruct calls as [|[now0 who0] calls]; [discriminate|].
    destruct vs as [|v0 vs]; [discriminate|].
    cbn [lookup list_lookup] in Hcall, Hv.
    change (take (S (S n)) ((now0, who0) :: calls))
      with ((now0, who0) :: take (S n) calls).
    change (take (S (S n)) (v0 :: vs)) with (v0 :: take (S n) vs).
    change (take (S n) ((now0, who0) :: calls)) with ((now0, who0) :: take n calls).
    change (take (S n) (v0 :: vs)) with (v0 :: take n vs).
    rewrite !admittedTimes_cons, (IH calls vs now who v Hcall Hv).
    rewrite app_assoc. reflexivity.
Qed.

Lemma filter_length_le {A} (P Q : A -> Prop) `{!forall x, Decision (P x)}
    `{!forall x, Decision (Q x)} (l : list A) :
  (forall x, x ∈ l -> P x -> Q x) ->
  (length (filter P l) <= length (filter Q l))%nat.
Proof.
  induction l as [|x l IH]; intros Himp; [reflexivity|].
  assert (Hl : forall y, y ∈ l -> P y -> Q y)
    by (intros y Hy; apply Himp; apply elem_of_cons; right; exact Hy).
  specialize (IH Hl).
  destruct (decide (P x)) as [HP | HP].
  - rewrite (filter_cons_True P _ _ HP).
    rewrite (filter_cons_True Q) by (apply Himp; [apply elem_of_cons; left; reflexivity | exact HP]).
    cbn [length]. lia.
  - rewrite (filter_cons_False P _ _ HP).
    destruct (decide (Q x)) as [HQ | HQ].
    + rewrite (filter_cons_True Q _ _ HQ). cbn [length]. lia.
    + rewrite (filter_cons_False Q _ _ HQ). exact IH.
Qed.

Lemma tracks_fresh (last : Z) : tracks config ∅ (fun _ => []) last.
Proof. intros c. rewrite lookup_empty. reflexivity. Qed.

Lemma window_bound_prefix (calls : list (Z * jsstring)) (start : Z) (c : jsstring)
    (t : Z) :
  0 < windowMs config -> ascending start calls ->
  let vs := (run config (callsOnly calls) ∅).1 in
  forall n, (n <= length calls)%nat ->
    Z.of_nat
      (length (filter (fun time => t - windowMs config < time <= t)
                 (admittedTimes c (take n calls) (take n vs))))
    <= Z.max 0 (maxRequests config).
Proof.
  intros Hw Hasc vs.
  destruct (run_tracks calls Hw ∅ (fun _ => []) start (tracks_fresh start) Hasc)
    as [Hlen Hrule].
  cbn zeta in Hlen, Hrule. fold vs in Hlen, Hrule. cbn [app] in Hrule.
  induction n as [|n IH]; intros Hn.
  - cbn [take admittedTimes]. destruct calls, vs; cbn; lia.
  - destruct (lookup_lt_is_Some_2 calls n) as [[now who] Hcall]; [lia|].
    pose proof (Hrule n now who Hcall) as Hv.
    rewrite (admittedTimes_snoc c n calls vs now who _ Hcall Hv).
    specialize (IH ltac:(lia)).
    case_bool_decide as Hcount; cbn [andb];
      [|rewrite app_nil_r; exact IH].
    case_bool_decide as Hwho; [subst who | rewrite app_nil_r; exact IH].
    rewrite filter_app, length_app.
    destruct (decide (t - windowMs config < now <= t)) as [Hin | Hout].
    + rewrite (filter_cons_True (fun time => t - windowMs config < time <= t) _ _ Hin).
      rewrite filter_nil. cbn [length].
      pose proof (filter_length_le
                    (fun time => t - windowMs config < time <= t)
                    (fun time => now - windowMs config < time)
                    (admittedTimes c (take n calls) (take n vs))) as Hle.
      specialize (Hle ltac:(intros x _ Hx; cbn beta in Hx |- *; lia)). lia.
    + rewrite (filter_cons_False (fun time => t - windowMs config < time <= t) _ _ Hout).
      rewrite filter_nil. cbn [length]. lia.
Qed.

End SlidingWindowFacts.

Section IsolationFacts.

Import RateLimiter.

Context (config : RateLimitConfig).

Lemma isAllowed_local (now : Z) (c : jsstring)
    (clients1 clients2 : gmap jsstring RateLimitInfo) :
  clients1 !! c = clients2 !! c ->
  (isAllowed config now c clients1).1 = (isAllowed config now c clients2).1
  /\ (isAllowed config now c clients1).2 !! c = (isAllowed config now c clients2).2 !! c.
Proof.
  intros Heq. unfold isAllowed. cbn zeta. cbn [fst snd]. rewrite Heq.
  split; [reflexivity|]. rewrite !lookup_insert_eq. reflexivity.
Qed.

Lemma run_isolated (c : jsstring) (ops : list Op) :
  forall (clients1 clients2 : gmap jsstring RateLimitInfo),
    clients1 !! c = clients2 !! c ->
    answersTo c ops (run config ops clients1).1
    = (run config (filter (fun op => concerns c op = true) ops) clients2).1.
Proof.
  induction ops as [|[now who | now] ops IH]; intros clients1 clients2 Heq.
  - reflexivity.
  - rewrite run_call. cbn [answersTo].
    destruct (decide (who = c)) as [-> | Hne].
    + rewrite bool_decide_eq_true_2 by reflexivity.
      rewrite filter_cons_True by (cbn [concerns]; apply bool_decide_eq_true_2; reflexivity).
      rewrite run_call.
      destruct (isAllowed_local now c clients1 clients2 Heq) as [Hv Hst].
      rewrite Hv. f_equal. apply IH. exact Hst.
    + rewrite bool_decide_eq_false_2 by exact Hne.
      rewrite filter_cons_False
        by (cbn [concerns]; rewrite bool_decide_eq_false_2 by exact Hne; discriminate).
      apply IH.
      destruct (isAllowed_step config now who clients1) as (_ & _ & Hother).
      rewrite Hother by congruence. exact Heq.
  - rewrite run_sweep. cbn [answersTo].
    rewrite filter_cons_True by reflexivity. rewrite run_sweep.
    apply IH. rewrite !cleanup_lookup, Heq. reflexivity.
Qed.

End IsolationFacts.

Section RateLimiterRunClaims.

Import RateLimiter.

(** X1: on a fresh limiter with a positive window, called at clock
    readings that never go back and never swept, every call gets a
    verdict, and the verdict is the sliding-window rule over the whole
    history: a call at [now] by a client is admitted exactly when fewer
    than [maxRequests] of the calls of that client admitted before it
    are later than [now - windowMs]. *)
Theorem X1_window_rule_over_runs (config : RateLimitConfig)
    (calls : list (Z * jsstring)) (start : Z) :
  0 < windowMs config -> ascending start calls ->
  let vs := (run config (callsOnly calls) ∅).1 in
  length vs = length calls
  /\ forall (k : nat) (now : Z) (c : jsstring),
       calls !! k = Some (now, c) ->
       vs !! k
       = Some (bool_decide
                 (Z.of_nat
                    (length
                       (filter (fun time => now - windowMs config < time)
                          (admittedTimes c (take k calls) (take k vs))))
                  < maxRequests config)).
Proof.
  intros Hw Hasc.
  exact (run_tracks config calls Hw ∅ (fun _ => []) start (tracks_fresh config start) Hasc).
Qed.

Lemma X1_window_rule_over_runs_witness :
  let calls := [(0, Examples.client); (10, js "198.51.100.2"); (20, Examples.client);
                (59999, Examples.client); (60000, Examples.client)] in
  let config := {| windowMs := 60000; maxRequests := 2 |} in
  (run config (callsOnly calls) ∅).1 !! 3%nat
  = Some (bool_decide
            (Z.of_nat
               (length
                  (filter (fun time => 59999 - 60000 < time)
                     (admittedTimes Examples.client (take 3 calls)
                        (take 3 (run config (callsOnly calls) ∅).1))))
             < 2)).
Proof.
  intros calls config.
  apply (proj2 (X1_window_rule_over_runs config calls 0 ltac:(reflexivity)
                  ltac:(cbn; lia)) 3%nat 59999 Examples.client).
  reflexivity.
Defined.

(** X2: under the same conditions no client is admitted more than
    [maxRequests] times within any stretch of [windowMs] milliseconds:
    for every instant [t], at most [maxRequests] admitted calls of the
    client lie in the window that ends at [t]. *)
Theorem X2_at_most_max_per_window (config : RateLimitConfig)
    (calls : list (Z * jsstring)) (start : Z) (c : jsstring) (t : Z) :
  0 < windowMs config -> ascending start calls ->
  let vs := (run config (callsOnly calls) ∅).1 in
  Z.of_nat
    (length (filter (fun time => t - windowMs config < time <= t)
               (admittedTimes c calls vs)))
  <= Z.max 0 (maxRequests config).
Proof.
  intros Hw Hasc vs.
  pose proof (window_bound_prefix config calls start c t Hw Hasc (length calls) (le_n _))
    as H.
  cbn zeta in H. fold vs in H.
  destruct (run_tracks config calls Hw ∅ (fun _ => []) start (tracks_fresh config start) Hasc)
    as [Hlen _].
  cbn zeta in Hlen. fold vs in Hlen.
  rewrite firstn_all in H. rewrite <- Hlen, firstn_all in H. exact H.
Qed.

Lemma X2_at_most_max_per_window_witness :
  let calls := [(0, Examples.client); (10, Examples.client); (20, Examples.client);
                (59999, Examples.client); (60000, Examples.client)] in
  let config := {| windowMs := 60000; maxRequests := 2 |} in
  Z.of_nat
    (length (filter (fun time => 60000 - 60000 < time <= 60000)
               (admittedTimes Examples.client calls
                  (run config (callsOnly calls) ∅).1)))
  <= Z.max 0 2.
Proof.
  intros calls config.
  apply (X2_at_most_max_per_window config calls 0 Examples.client 60000);
    [reflexivity | cbn; lia].
Defined.

(** X3: the verdicts a client gets depend on its own calls and on the
    sweeps only, whatever the clock does: calls of other clients can be
    taken out of a run without changing them. *)
Theorem X3_clients_do_not_interfere (config : RateLimitConfig) (c : jsstring)
    (ops : list Op) (clients : gmap jsstring RateLimitInfo) :
  answersTo c ops (run config ops clients).1
  = (run config (filter (fun op => concerns c op = true) ops) clients).1.
Proof. apply run_isolated. reflexivity. Qed.

(** X4: after [reset] a client is treated as one never seen, whatever
    was recorded for it and whatever the other clients do afterwards,
    and the verdicts of the other clients are what they would have been
    without the reset. *)
Theorem X4_reset_forgets_the_client (config : RateLimitConfig) (c : jsstring)
    (ops : list Op) (clients : gmap jsstring RateLimitInfo) :
  answersTo c ops (run config ops (reset c clients)).1
  = (run config (filter (fun op => concerns c op = true) ops) ∅).1
  /\ forall other, other <> c ->
       answersTo other ops (run config ops (reset c clients)).1
       = answersTo other ops (run config ops clients).1.
Proof.
  split.
  - apply run_isolated. unfold reset. rewrite lookup_delete_eq, lookup_empty. reflexivity.
  - intros other Hne.
    rewrite (run_isolated config other ops (reset c clients) clients).
    + symmetry. apply run_isolated. reflexivity.
    + unfold reset. apply lookup_delete_ne. congruence.
Qed.

End RateLimiterRunClaims.

Section ClientIdClaims.

Import RateLimiter.

(** The first piece of a split: the text before the first separator. *)
Lemma str_split_first (sep : codeunit) (s : jsstring) :
  exists first pieces,
    str_split sep s = first :: pieces
    /\ (sep ∉ first)
    /\ (s = first \/ exists rest, s = first ++ sep :: rest).
Proof.
  induction s as [|c s (first & pieces & Hsplit & Hfree & Hshape)]; cbn [str_split].
  - exists [], []. split; [reflexivity|]. split; [|left; reflexivity].
    intros Hin. apply elem_of_nil in Hin. exact Hin.
  - destruct (c =? sep)%N eqn:Hc.
    + apply N.eqb_eq in Hc as ->. exists [], (str_split sep s).
      split; [reflexivity|]. split; [|right; exists s; reflexivity].
      intros Hin. apply elem_of_nil in Hin. exact Hin.
    + apply N.eqb_neq in Hc. rewrite Hsplit. exists (c :: first), pieces.
      split; [reflexivity|]. split.
      * intros Hin. apply elem_of_cons in Hin as [-> | Hin]; [congruence | auto].
      * destruct Hshape as [-> | [rest ->]]; [left; reflexivity|].
        right. exists rest. reflexivity.
Qed.

(** X5: [getClientId] never answers the empty text.  When the header
    [x-forwarded-for] holds a text that does not start with a comma, the
    answer is that text up to its first comma (so it holds no comma)
    and the header [x-real-ip] is not looked at; without either header
    the answer is the text unknown. *)
Theorem X5_client_id_of_a_request (request : Request) :
  getClientId request <> []
  /\ (forall forwarded c rest,
        headersGet request (js "x-forwarded-for") = Some forwarded ->
        forwarded = c :: rest -> c <> 44%N ->
        exists after,
          (forwarded = getClientId request \/ forwarded = getClientId request ++ 44%N :: after)
          /\ (44%N ∉ getClientId request))
  /\ (headersGet request (js "x-forwarded-for") = None ->
      headersGet request (js "x-real-ip") = None ->
      getClientId request = js "unknown").
Proof.
  unfold getClientId. cbn zeta.
  split; [|split].
  - destruct (headersGet request (js "x-forwarded-for")) as [f|]; cbn [option_map].
    + destruct (nth 0 (str_split 44 f) []) as [|c ip]; [|discriminate].
      destruct (headersGet request (js "x-real-ip")) as [[|c ip]|]; discriminate.
    + destruct (headersGet request (js "x-real-ip")) as [[|c ip]|]; discriminate.
  - intros forwarded c rest -> -> Hc. cbn [option_map].
    destruct (str_split_first 44 (c :: rest)) as (first & pieces & Hsplit & Hfree & Hshape).
    rewrite Hsplit. cbn [nth].
    destruct first as [|c' ip].
    + destruct Hshape as [Hs | [after Hs]]; [discriminate|].
      injection Hs as -> _. congruence.
    + destruct Hshape as [Hs | [after Hs]].
      * exists []. split; [left; exact Hs | exact Hfree].
      * exists after. split; [right; exact Hs | exact Hfree].
  - intros -> ->. reflexivity.
Qed.

End ClientIdClaims.

(** ** cache.ts: reads, sweeps and deletions *)

Section CacheFacts.

Import MemoryCache.

Context {T : Type}.

Implicit Types (cache : gmap jsstring (CacheItem T)) (key : jsstring) (now : Z).

(** What a read returns and leaves, by the stored item. *)
Lemma get_lookup now key cache :
  get now key cache
  = match cache !! key with
    | Some item =>
        if bool_decide (ttl item < now - timestamp item)
        then (None, base.delete key cache) else (Some (data item), cache)
    | None => (None, cache)
    end.
Proof.
  unfold get. destruct (cache !! key) as [item|]; [|reflexivity].
  case_bool_decide as Hexp.
  - rewrite (proj2 (Z.ltb_lt _ _) Hexp). reflexivity.
  - rewrite (proj2 (Z.ltb_ge _ _)) by lia. reflexivity.
Qed.

Lemma has_get now key cache :
  has now key cache
  = (bool_decide (is_Some (get now key cache).1), (get now key cache).2).
Proof.
  unfold has, get. destruct (cache !! key) as [item|]; cbn [fst snd].
  - destruct (ttl item <? now - timestamp item); cbn [fst snd].
    + rewrite bool_decide_eq_false_2; [reflexivity|]. intros [x Hx]. discriminate.
    + rewrite bool_decide_eq_true_2; [reflexivity|]. eexists; reflexivity.
  - rewrite bool_decide_eq_false_2; [reflexivity|]. intros [x Hx]. discriminate.
Qed.

Lemma cleanup_lookup_item now key cache :
  cleanup now cache !! key
  = match cache !! key with
    | Some item =>
        if bool_decide (ttl item < now - timestamp item) then None else Some item
    | None => None
    end.
Proof.
  unfold cleanup. destruct (cache !! key) as [item|] eqn:Hget.
  - case_bool_decide as Hexp.
    + apply map_lookup_filter_None. right. intros item' Hget'. cbn [snd].
      rewrite Hget in Hget'. injection Hget' as <-. tauto.
    + apply map_lookup_filter_Some. split; [exact Hget | exact Hexp].
  - apply map_lookup_filter_None. left. exact Hget.
Qed.

Lemma cleanup_delete_expired now key cache item :
  cache !! key = Some item -> ttl item < now - timestamp item ->
  cleanup now (base.delete key cache) = cleanup now cache.
Proof.
  intros Hget Hexp. apply map_eq. intros k. rewrite !cleanup_lookup_item.
  destruct (decide (k = key)) as [-> | Hne].
  - rewrite lookup_delete_eq, Hget. rewrite bool_decide_eq_true_2 by exact Hexp.
    reflexivity.
  - rewrite lookup_delete_ne by congruence. reflexivity.
Qed.

End CacheFacts.

Section CacheMoreClaims.

Import MemoryCache.

(** X6: [has] answers whether [get] would return the data, and the two
    leave the same cache behind: both drop the entry they find expired. *)
Theorem X6_has_agrees_with_get (T : Type) (now : Z) (key : jsstring)
    (cache : gmap jsstring (CacheItem T)) :
  (has now key cache).2 = (get now key cache).2
  /\ ((has now key cache).1 = true <-> exists value, (get now key cache).1 = Some value).
Proof.
  rewrite has_get. cbn [fst snd]. split; [reflexivity|].
  rewrite bool_decide_eq_true. reflexivity.
Qed.

(** X7: the sweep [cleanup] is invisible to readers and complete: at the
    clock reading of the sweep or at any later one a read returns what
    it would have returned without the sweep; right after the sweep a
    read finds nothing left to drop; and the sweep makes up for the
    entries that a read would have dropped. *)
Theorem X7_cleanup_is_invisible_and_complete (T : Type) (now : Z) (key : jsstring)
    (cache : gmap jsstring (CacheItem T)) :
  (forall later, now <= later ->
     (get later key (cleanup now cache)).1 = (get later key cache).1)
  /\ (get now key (cleanup now cache)).2 = cleanup now cache
  /\ cleanup now (get now key cache).2 = cleanup now cache.
Proof.
  split; [|split].
  - intros later Hlater. rewrite !get_lookup, cleanup_lookup_item.
    destruct (cache !! key) as [item|]; [|reflexivity].
    destruct (decide (ttl item < now - timestamp item)) as [Hexp | Hlive].
    + rewrite (bool_decide_eq_true_2 _ Hexp).
      rewrite bool_decide_eq_true_2 by lia. reflexivity.
    + rewrite (bool_decide_eq_false_2 _ Hlive). case_bool_decide; reflexivity.
  - rewrite get_lookup, cleanup_lookup_item.
    destruct (cache !! key) as [item|]; [|reflexivity].
    destruct (decide (ttl item < now - timestamp item)) as [Hexp | Hlive].
    + rewrite (bool_decide_eq_true_2 _ Hexp). reflexivity.
    + rewrite !(bool_decide_eq_false_2 _ Hlive). reflexivity.
  - rewrite get_lookup. destruct (cache !! key) as [item|] eqn:Hget; [|reflexivity].
    case_bool_decide as Hexp; [|reflexivity]. cbn [snd].
    apply (cleanup_delete_expired now key cache item Hget Hexp).
Qed.

(** X8: the operations on one key leave the other keys alone: whatever
    was stored, read, tested or deleted under [key], a read of another
    key returns what it returned before. *)
Theorem X8_keys_do_not_interfere (T : Type) (now later : Z) (key other : jsstring)
    (value : T) (ttl : option Z) (cache : gmap jsstring (CacheItem T)) :
  other <> key ->
  (get later other (set now key value ttl cache)).1 = (get later other cache).1
  /\ (get later other (get now key cache).2).1 = (get later other cache).1
  /\ (get later other (has now key cache).2).1 = (get later other cache).1
  /\ (get later other (delete key cache).2).1 = (get later other cache).1.
Proof.
  intros Hne.
  assert (Hdel : (get later other (base.delete key cache)).1 = (get later other cache).1).
  { rewrite !get_lookup. rewrite lookup_delete_ne by congruence. 
    destruct (cache !! other) as [item|]; [|reflexivity].
    case_bool_decide; reflexivity. }
  assert (Hget : (get later other (get now key cache).2).1 = (get later other cache).1).
  { rewrite (get_lookup now key). destruct (cache !! key) as [item|]; [|reflexivity].
    case_bool_decide; [exact Hdel | reflexivity]. }
  split; [|split; [exact Hget | split]].
  - rewrite !get_lookup. unfold set. rewrite lookup_insert_ne by congruence.
    destruct (cache !! other) as [item|]; [|reflexivity].
    case_bool_decide; reflexivity.
  - rewrite has_get. exact Hget.
  - exact Hdel.
Qed.

Lemma X8_keys_do_not_interfere_witness :
  let cache := set 0 (js "question:1") 7 None ∅ in
  (get 10 (js "question:1") (set 5 (js "question:2") 8 (Some 1) cache)).1
  = (get 10 (js "question:1") cache).1.
Proof.
  intros cache.
  apply (X8_keys_do_not_interfere Z 5 10 (js "question:2") (js "question:1") 8 (Some 1)
           cache).
  discriminate.
Defined.

(** X9: an expired entry stays in the cache until it is read or swept:
    it still counts in [size] and [delete] still reports it, although
    [has] denies it; once a read has met it, it is gone, and [delete]
    reports nothing. *)
Theorem X9_expired_entries_linger (T : Type) (now : Z) (key : jsstring)
    (item : CacheItem T) (cache : gmap jsstring (CacheItem T)) :
  cache !! key = Some item -> ttl item < now - timestamp item ->
  (has now key cache).1 = false
  /\ (delete key cache).1 = true
  /\ (delete key (get now key cache).2).1 = false
  /\ size cache = S (size (get now key cache).2)
  /\ size (cleanup now cache) = size (cleanup now (get now key cache).2).
Proof.
  intros Hget Hexp.
  assert (Hread : get now key cache = (None, base.delete key cache)).
  { rewrite get_lookup, Hget. rewrite bool_decide_eq_true_2 by exact Hexp. reflexivity. }
  split; [|split; [|split; [|split]]].
  - rewrite has_get, Hread. cbn [fst]. apply bool_decide_eq_false_2.
    intros [x Hx]. discriminate.
  - unfold delete. cbn [fst]. apply bool_decide_eq_true_2. rewrite Hget. eexists; reflexivity.
  - rewrite Hread. unfold delete. cbn [fst snd]. apply bool_decide_eq_false_2.
    rewrite lookup_delete_eq. intros [x Hx]. discriminate.
  - rewrite Hread. cbn [snd]. unfold size.
    rewrite <- (insert_delete_id cache key item Hget) at 1.
    apply map_size_insert_None. apply lookup_delete_eq.
  - rewrite Hread. cbn [snd].
    rewrite (cleanup_delete_expired now key cache item Hget Hexp). reflexivity.
Qed.

Lemma X9_expired_entries_linger_witness :
  let cache := set 0 (js "question:1") 7 (Some 100) ∅ in
  (has 101 (js "question:1") cache).1 = false
  /\ (delete (js "question:1") cache).1 = true
  /\ (delete (js "question:1") (get 101 (js "question:1") cache).2).1 = false.
Proof.
  intros cache.
  destruct (X9_expired_entries_linger Z 101 (js "question:1")
              {| data := 7; timestamp := 0; ttl := 100 |} cache)
    as (H1 & H2 & H3 & _).
  - unfold cache, set. rewrite lookup_insert_eq. reflexivity.
  - cbn. lia.
  - split; [exact H1 | split; [exact H2 | exact H3]].
Defined.

End CacheMoreClaims.

(** ** cache.ts: the wrapper and the keys *)

Section WrapperFacts.

Import MemoryCache CacheWrapper.

Implicit Types (cache : gmap jsstring (CacheItem JsValue)).

(** A call of the wrapped function that finds nothing to serve: the
    function runs, and its result goes into the cache. *)
Lemma withCache_miss {Args : Type} (fn : Args -> Result JsValue)
    (keyGenerator : Args -> jsstring) (ttl : option Z) (now later : Z) (args : Args)
    cache :
  (getOrNull now (keyGenerator args) cache).1 = JNull ->
  withCache fn keyGenerator ttl now later args cache
  = match fn args with
    | Ok result =>
        (Ok result,
         set later (keyGenerator args) result ttl
           (getOrNull now (keyGenerator args) cache).2)
    | Throw e => (Throw e, (getOrNull now (keyGenerator args) cache).2)
    end.
Proof.
  unfold withCache. cbn zeta.
  destruct (getOrNull now (keyGenerator args) cache) as [cached cache1]. cbn [fst snd].
  intros ->. reflexivity.
Qed.

Lemma getOrNull_stored (now later : Z) (key : jsstring) (value : JsValue)
    (ttl : option Z) cache :
  now - later <= default defaultTTL ttl ->
  getOrNull now key (set later key value ttl cache)
  = (value, set later key value ttl cache).
Proof.
  intros Hlive. unfold getOrNull, get, set. rewrite lookup_insert_eq.
  cbn [MemoryCache.ttl timestamp data].
  rewrite (proj2 (Z.ltb_ge _ _)) by lia. reflexivity.
Qed.

Lemma getOrNull_expired (now later : Z) (key : jsstring) (value : JsValue)
    (ttl : option Z) cache :
  default defaultTTL ttl < now - later ->
  (getOrNull now key (set later key value ttl cache)).1 = JNull.
Proof.
  intros Hexp. unfold getOrNull, get, set. rewrite lookup_insert_eq.
  cbn [MemoryCache.ttl timestamp data].
  rewrite (proj2 (Z.ltb_lt _ _)) by lia. reflexivity.
Qed.

End WrapperFacts.

Section WrapperClaims.

Import MemoryCache CacheWrapper.

(** X10: a result that is not [null], computed on a miss, is served to
    every call that makes the same key until its time to live is over,
    without running any function: not the wrapped one, and not another
    function wrapped with a key generator that makes the same key. *)
Theorem X10_withCache_serves_the_stored_result {Args Args' : Type}
    (fn : Args -> Result JsValue) (keyGenerator : Args -> jsstring) (ttl : option Z)
    (now later : Z) (args : Args) (cache : gmap jsstring (CacheItem JsValue))
    (result : JsValue)
    (fn' : Args' -> Result JsValue) (keyGenerator' : Args' -> jsstring)
    (ttl' : option Z) (now' later' : Z) (args' : Args') :
  (getOrNull now (keyGenerator args) cache).1 = JNull ->
  fn args = Ok result -> result <> JNull ->
  keyGenerator' args' = keyGenerator args ->
  now' - later <= default defaultTTL ttl ->
  let first := withCache fn keyGenerator ttl now later args cache in
  first.1 = Ok result
  /\ withCache fn' keyGenerator' ttl' now' later' args' first.2 = (Ok result, first.2).
Proof.
  intros Hmiss Hfn Hresult Hkey Hlive first. unfold first.
  rewrite (withCache_miss fn keyGenerator ttl now later args cache Hmiss), Hfn.
  cbn [fst snd]. split; [reflexivity|].
  unfold withCache. cbn zeta. rewrite Hkey.
  rewrite (getOrNull_stored now' later _ result ttl _ Hlive).
  destruct result; try reflexivity. congruence.
Qed.

Lemma X10_withCache_serves_the_stored_result_witness :
  let first :=
    withCache (fun _ : unit => Ok (JString (js "fresh")))
      (fun _ => CacheKeys.questionStats) None 0 1 tt ∅ in
  first.1 = Ok (JString (js "fresh"))
  /\ withCache (fun _ : unit => Ok (JString (js "other")))
       (fun _ => CacheKeys.questionStats) (Some 5) 300001 300002 tt first.2
     = (Ok (JString (js "fresh")), first.2).
Proof.
  intros first.
  apply (X10_withCache_serves_the_stored_result
           (fun _ : unit => Ok (JString (js "fresh"))) (fun _ => CacheKeys.questionStats) None
           0 1 tt ∅ (JString (js "fresh"))
           (fun _ : unit => Ok (JString (js "other"))) (fun _ => CacheKeys.questionStats)
           (Some 5) 300001 300002 tt);
    [reflexivity | reflexivity | discriminate | reflexivity | unfold defaultTTL; cbn; lia].
Defined.

(** X11: the wrapper recomputes in two cases.  A result [null] is stored
    but never served: every later call with the same key runs its
    function again, even while the entry is alive.  And once the time to
    live of a stored result is over, the next call runs its function. *)
Theorem X11_withCache_recomputes {Args Args' : Type}
    (fn : Args -> Result JsValue) (keyGenerator : Args -> jsstring) (ttl : option Z)
    (now later : Z) (args : Args) (cache : gmap jsstring (CacheItem JsValue))
    (result : JsValue)
    (fn' : Args' -> Result JsValue) (keyGenerator' : Args' -> jsstring)
    (ttl' : option Z) (now' later' : Z) (args' : Args') :
  (getOrNull now (keyGenerator args) cache).1 = JNull ->
  fn args = Ok result ->
  keyGenerator' args' = keyGenerator args ->
  result = JNull \/ default defaultTTL ttl < now' - later ->
  let first := withCache fn keyGenerator ttl now later args cache in
  (withCache fn' keyGenerator' ttl' now' later' args' first.2).1 = fn' args'.
Proof.
  intros Hmiss Hfn Hkey Hwhy first. unfold first.
  rewrite (withCache_miss fn keyGenerator ttl now later args cache Hmiss), Hfn.
  cbn [snd].
  rewrite withCache_miss.
  - destruct (fn' args'); reflexivity.
  - rewrite Hkey. destruct Hwhy as [-> | Hexp].
    + unfold getOrNull, get, set. rewrite lookup_insert_eq.
      cbn [MemoryCache.ttl timestamp data].
      destruct (default defaultTTL ttl <? now' - later); reflexivity.
    + apply getOrNull_expired. exact Hexp.
Qed.

Lemma X11_withCache_recomputes_witness :
  let first :=
    withCache (fun _ : unit => Ok JNull) (fun _ => CacheKeys.questionStats) None 0 1 tt ∅ in
  (withCache (fun _ : unit => Ok (JString (js "again")))
     (fun _ => CacheKeys.questionStats) None 2 3 tt first.2).1
  = Ok (JString (js "again")).
Proof.
  intros first.
  apply (X11_withCache_recomputes
           (fun _ : unit => Ok JNull) (fun _ => CacheKeys.questionStats) None 0 1 tt ∅ JNull
           (fun _ : unit => Ok (JString (js "again"))) (fun _ => CacheKeys.questionStats)
           None 2 3 tt);
    [reflexivity | reflexivity | reflexivity | left; reflexivity].
Defined.

(** X12: the key generators keep their families apart: whatever their
    arguments, keys of two different generators differ; the generators
    of one argument give different keys for different arguments; the
    chat key does not, since a colon in the question id can stand for
    the separator. *)
Theorem X12_cache_key_families (id id' difficulty term questionId message : jsstring) :
  NoDup [CacheKeys.allQuestions; CacheKeys.question id;
         CacheKeys.questionsByDifficulty difficulty; CacheKeys.searchQuestions term;
         CacheKeys.questionStats; CacheKeys.chatResponse questionId message]
  /\ (CacheKeys.question id = CacheKeys.question id' <-> id = id')
  /\ (CacheKeys.searchQuestions id = CacheKeys.searchQuestions id' <-> id = id')
  /\ CacheKeys.chatResponse (questionId ++ js ":" ++ id) message
     = CacheKeys.chatResponse questionId (id ++ js ":" ++ message).
Proof.
  split; [|split; [|split]].
  - repeat (apply NoDup_cons; split);
      [ .. | apply NoDup_nil; exact I ];
      intros Hin; repeat (apply elem_of_cons in Hin as [Hin | Hin]);
      try (apply elem_of_nil in Hin; exact Hin);
      vm_compute in Hin; discriminate Hin.
  - unfold CacheKeys.question. split; [apply app_inv_head | intros ->; reflexivity].
  - unfold CacheKeys.searchQuestions. split; [apply app_inv_head | intros ->; reflexivity].
  - unfold CacheKeys.chatResponse. rewrite <- !app_assoc. reflexivity.
Qed.

End WrapperClaims.

(** ** validation.ts: [validateEmail] *)

Section AnchoredFacts.

Import Regex.

(** An anchored test succeeds exactly on the texts of the language. *)
Lemma test_anchored_matches (r : regex) (s : jsstring) :
  test_anchored r s = true <-> matches r s.
Proof.
  unfold test_anchored. split.
  - destruct (exec r s [] _) as [u|] eqn:Hex; [|discriminate]. intros _.
    apply exec_sound in Hex as (s1 & s2 & caps & -> & Hm & Hk).
    destruct s2; [|discriminate]. rewrite app_nil_r. exact Hm.
  - intros Hm.
    destruct (exec_complete r s Hm [] []
                (fun rest _ => match rest with [] => Some tt | _ => None end)) as [u Hu].
    + intros caps. eexists; reflexivity.
    + rewrite app_nil_r in Hu. rewrite Hu. reflexivity.
Qed.

Lemma matches_class (p : codeunit -> bool) (s : jsstring) :
  matches (Class p) s <-> exists c, s = [c] /\ p c = true.
Proof.
  split.
  - inversion 1; subst. eauto.
  - intros (c & -> & Hc). constructor. exact Hc.
Qed.

Lemma matches_star (p : codeunit -> bool) (s : jsstring) :
  matches (StarClass p) s <-> Forall (fun c => p c = true) s.
Proof.
  split.
  - intros Hm. remember (StarClass p) as r eqn:Hr.
    induction Hm; try discriminate; injection Hr as ->; [constructor|].
    constructor; [assumption | apply IHHm; reflexivity].
  - induction 1; constructor; assumption.
Qed.

Lemma matches_seq (r1 r2 : regex) (s : jsstring) :
  matches (Seq r1 r2) s <-> exists s1 s2, s = s1 ++ s2 /\ matches r1 s1 /\ matches r2 s2.
Proof.
  split; [apply matches_seq_inv|].
  intros (s1 & s2 & -> & H1 & H2). constructor; assumption.
Qed.

Lemma matches_oneOrMore (p : codeunit -> bool) (s : jsstring) :
  matches (oneOrMore p) s <-> s <> [] /\ Forall (fun c => p c = true) s.
Proof.
  unfold oneOrMore. rewrite matches_seq. split.
  - intros (s1 & s2 & -> & H1 & H2).
    apply matches_class in H1 as (c & -> & Hc). apply matches_star in H2.
    split; [discriminate|]. constructor; assumption.
  - intros [Hne Hall]. destruct s as [|c s]; [congruence|].
    apply Forall_cons in Hall as [Hc Hall]. exists [c], s.
    split; [reflexivity|]. split; [apply matches_class; eauto | apply matches_star; exact Hall].
Qed.

End AnchoredFacts.

Section EmailClaims.

Import Regex Validation.

Lemma plainUnit_spec (c : codeunit) :
  plainUnit c = true <-> isWhiteSpace c = false /\ c <> 64%N.
Proof.
  unfold plainUnit. rewrite negb_true_iff, orb_false_iff, N.eqb_neq. reflexivity.
Qed.

(** X13: [validateEmail] accepts exactly the texts made of a local
    part, an at sign, a domain, a dot and an ending, where the three
    parts are not empty and hold neither white space nor an at sign; so
    an accepted text holds exactly one at sign and no white space. *)
Theorem X13_validateEmail_accepts (email : jsstring) :
  (validateEmail email = true <->
   exists localPart domain ending,
     email = localPart ++ [64%N] ++ domain ++ [46%N] ++ ending
     /\ localPart <> [] /\ domain <> [] /\ ending <> []
     /\ Forall (fun c => plainUnit c = true) (localPart ++ domain ++ ending))
  /\ (validateEmail email = true ->
      length (filter (fun c => c = 64%N) email) = 1%nat
      /\ Forall (fun c => isWhiteSpace c = false) email).
Proof.
  assert (Hshape : validateEmail email = true <->
            exists localPart domain ending,
              email = localPart ++ [64%N] ++ domain ++ [46%N] ++ ending
              /\ localPart <> [] /\ domain <> [] /\ ending <> []
              /\ Forall (fun c => plainUnit c = true) (localPart ++ domain ++ ending)).
  { unfold validateEmail. rewrite test_anchored_matches. unfold emailRegex. split.
    - intros Hm.
      apply matches_seq in Hm as (a & s1 & -> & Ha & Hm).
      apply matches_seq in Hm as (at1 & s2 & -> & Hat & Hm).
      apply matches_seq in Hm as (b & s3 & -> & Hb & Hm).
      apply matches_seq in Hm as (dot & c & -> & Hdot & Hc).
      apply matches_oneOrMore in Ha as [Ha1 Ha2], Hb as [Hb1 Hb2], Hc as [Hc1 Hc2].
      apply matches_class in Hat as (x & -> & Hx), Hdot as (y & -> & Hy).
      apply N.eqb_eq in Hx as <-, Hy as <-.
      exists a, b, c. split; [reflexivity|]. repeat split; try assumption.
      rewrite !Forall_app. auto.
    - intros (a & b & c & -> & Ha & Hb & Hc & Hall).
      rewrite !Forall_app in Hall. destruct Hall as (Ha' & Hb' & Hc').
      apply matches_seq. exists a, ([64%N] ++ b ++ [46%N] ++ c).
      split; [reflexivity|]. split; [apply matches_oneOrMore; auto|].
      apply matches_seq. exists [64%N], (b ++ [46%N] ++ c).
      split; [reflexivity|]. split; [apply matches_class; eexists; split; reflexivity|].
      apply matches_seq. exists b, ([46%N] ++ c).
      split; [reflexivity|]. split; [apply matches_oneOrMore; auto|].
      apply matches_seq. exists [46%N], c.
      split; [reflexivity|]. split; [apply matches_class; eexists; split; reflexivity|].
      apply matches_oneOrMore; auto. }
  split; [exact Hshape|].
  intros Hok. apply Hshape in Hok as (a & b & c & -> & _ & _ & _ & Hall).
  rewrite !Forall_app in Hall. destruct Hall as (Ha & Hb & Hc).
  assert (Hnone : forall l, Forall (fun c => plainUnit c = true) l ->
                            filter (fun c => c = 64%N) l = []).
  { intros l Hl. induction Hl as [|x l Hx _ IH]; [reflexivity|].
    apply plainUnit_spec in Hx as [_ Hx]. rewrite filter_cons_False by exact Hx. exact IH. }
  assert (Hplain : forall l, Forall (fun c => plainUnit c = true) l ->
                             Forall (fun c => isWhiteSpace c = false) l).
  { intros l Hl. eapply Forall_impl; [exact Hl|]. intros x Hx.
    apply plainUnit_spec in Hx as [Hx _]. exact Hx. }
  split.
  - rewrite !filter_app, (Hnone a Ha), (Hnone b Hb), (Hnone c Hc). reflexivity.
  - rewrite !Forall_app. repeat split; auto; repeat constructor.
Qed.

End EmailClaims.

(** ** validation.ts: [sanitizeHtml] *)

Section SanitizeFacts.

Import Validation.

Lemma replaceAll_app (c : codeunit) (rep a b : jsstring) :
  replaceAll c rep (a ++ b) = replaceAll c rep a ++ replaceAll c rep b.
Proof. unfold replaceAll. apply flat_map_app. Qed.

Lemma sanitizeHtml_app (a b : jsstring) :
  sanitizeHtml (a ++ b) = sanitizeHtml a ++ sanitizeHtml b.
Proof. unfold sanitizeHtml. rewrite !replaceAll_app. reflexivity. Qed.

Lemma sanitizeHtml_unit (c : codeunit) :
  sanitizeHtml [c] = default [c] (entityOf c).
Proof.
  unfold sanitizeHtml, entityOf, replaceAll at 6. cbn [flat_map app].
  destruct (c =? 38)%N eqn:H38; [reflexivity|].
  unfold replaceAll at 5. cbn [flat_map app].
  destruct (c =? 60)%N eqn:H60; [reflexivity|].
  unfold replaceAll at 4. cbn [flat_map app].
  destruct (c =? 62)%N eqn:H62; [reflexivity|].
  unfold replaceAll at 3. cbn [flat_map app].
  destruct (c =? 34)%N eqn:H34; [reflexivity|].
  unfold replaceAll at 2. cbn [flat_map app].
  destruct (c =? 39)%N eqn:H39; [reflexivity|].
  unfold replaceAll. cbn [flat_map app].
  destruct (c =? 47)%N eqn:H47; reflexivity.
Qed.

Lemma sanitizeHtml_cons (c : codeunit) (s : jsstring) :
  sanitizeHtml (c :: s) = default [c] (entityOf c) ++ sanitizeHtml s.
Proof.
  change (c :: s) with ([c] ++ s). rewrite sanitizeHtml_app, sanitizeHtml_unit.
  reflexivity.
Qed.

(** The entity of a character, or the character itself when it has
    none: the cases. *)
Lemma entityOf_cases (c : codeunit) :
  (entityOf c = None /\ c <> 38%N /\ c <> 60%N /\ c <> 62%N /\ c <> 34%N
   /\ c <> 39%N /\ c <> 47%N)
  \/ (c = 38%N \/ c = 60%N \/ c = 62%N \/ c = 34%N \/ c = 39%N \/ c = 47%N).
Proof.
  unfold entityOf.
  destruct (c =? 38)%N eqn:H38; [apply N.eqb_eq in H38; auto|].
  destruct (c =? 60)%N eqn:H60; [apply N.eqb_eq in H60; auto|].
  destruct (c =? 62)%N eqn:H62; [apply N.eqb_eq in H62; auto|].
  destruct (c =? 34)%N eqn:H34; [apply N.eqb_eq in H34; auto 6|].
  destruct (c =? 39)%N eqn:H39; [apply N.eqb_eq in H39; auto 7|].
  destruct (c =? 47)%N eqn:H47; [apply N.eqb_eq in H47; auto 8|].
  left. rewrite N.eqb_neq in *. auto 10.
Qed.

Lemma written_cons (c : codeunit) :
  exists h t, default [c] (entityOf c) = h :: t.
Proof.
  destruct (entityOf_cases c) as [[Ec _] | Hc];
    [rewrite Ec|repeat (destruct Hc as [-> | Hc]); try subst c]; cbn; eauto.
Qed.

Lemma sanitizeHtml_inj (a : jsstring) :
  forall b, sanitizeHtml a = sanitizeHtml b -> a = b.
Proof.
  induction a as [|x a IH]; intros [|y b]; rewrite ?sanitizeHtml_cons.
  - reflexivity.
  - intros Heq. exfalso. destruct (written_cons y) as (h & t & E).
    rewrite E in Heq. discriminate Heq.
  - intros Heq. exfalso. destruct (written_cons x) as (h & t & E).
    rewrite E in Heq. discriminate Heq.
  - intros Heq.
    assert (Hgoal : x = y /\ sanitizeHtml a = sanitizeHtml b).
    { destruct (entityOf_cases x) as [(Ex & Hx) | Hx];
        destruct (entityOf_cases y) as [(Ey & Hy) | Hy].
      - rewrite Ex, Ey in Heq. cbn in Heq. injection Heq as -> Heq. auto.
      - rewrite Ex in Heq. cbn [default app] in Heq. exfalso.
        repeat (destruct Hy as [-> | Hy]); try subst y;
          cbn in Heq; injection Heq as Hc _; tauto.
      - rewrite Ey in Heq. cbn [default app] in Heq. exfalso.
        repeat (destruct Hx as [-> | Hx]); try subst x;
          cbn in Heq; injection Heq as Hc _; symmetry in Hc; tauto.
      - repeat (destruct Hx as [-> | Hx]); try subst x;
          repeat (destruct Hy as [-> | Hy]); try subst y;
          cbn in Heq; first [discriminate Heq | split; [reflexivity|]; congruence]. }
    destruct Hgoal as [-> Hrest]. f_equal. apply IH. exact Hrest.
Qed.

Lemma sanitizeHtml_length (s : jsstring) : (length s <= length (sanitizeHtml s))%nat.
Proof.
  induction s as [|c s IH]; [reflexivity|].
  rewrite sanitizeHtml_cons, length_app.
  destruct (entityOf_cases c) as [[Ec _] | Hc];
    [rewrite Ec|repeat (destruct Hc as [-> | Hc]); try subst c]; cbn; lia.
Qed.

Lemma sanitizeHtml_fixed (s : jsstring) :
  sanitizeHtml s = s <-> Forall (fun c => entityOf c = None) s.
Proof.
  split.
  - induction s as [|c s IH]; [constructor|].
    rewrite sanitizeHtml_cons. intros Heq.
    destruct (entityOf_cases c) as [[Ec _] | Hc].
    + rewrite Ec in Heq. cbn in Heq. injection Heq as Heq. constructor; auto.
    + exfalso. pose proof (sanitizeHtml_length s) as Hlen.
      apply (f_equal length) in Heq. rewrite length_app in Heq.
      repeat (destruct Hc as [-> | Hc]); try subst c; cbn in Heq; lia.
  - induction 1 as [|c s Hc _ IH]; [reflexivity|].
    rewrite sanitizeHtml_cons, Hc, IH. reflexivity.
Qed.

End SanitizeFacts.

Section SanitizeClaims.

Import Validation.

(** X14: the six replacements of [sanitizeHtml], made one after the
    other over the whole text, come to one pass that writes each of the
    six characters as its entity and copies every other code unit: no
    replacement rewrites what an earlier one wrote.  The text returned
    holds none of the characters less-than, greater-than, double quote,
    apostrophe and slash. *)
Theorem X14_sanitizeHtml_is_one_pass (input : jsstring) :
  sanitizeHtml input = flat_map (fun c => default [c] (entityOf c)) input
  /\ Forall (fun c => c ∉ [60; 62; 34; 39; 47]%N) (sanitizeHtml input).
Proof.
  split.
  - induction input as [|c input IH]; [reflexivity|].
    rewrite sanitizeHtml_cons, IH. reflexivity.
  - induction input as [|c input IH]; [constructor|].
    rewrite sanitizeHtml_cons. apply Forall_app. split; [|exact IH].
    destruct (entityOf_cases c) as [(Ec & H38 & H60 & H62 & H34 & H39 & H47) | Hc].
    + rewrite Ec. cbn [default]. constructor; [|constructor].
      intros Hin. repeat (apply elem_of_cons in Hin as [Hin | Hin]); try congruence.
      apply elem_of_nil in Hin. exact Hin.
    + repeat (destruct Hc as [-> | Hc]); try subst c; cbn;
        repeat constructor; intros Hin;
        repeat (apply elem_of_cons in Hin as [Hin | Hin]); try discriminate Hin;
        apply elem_of_nil in Hin; exact Hin.
Qed.

(** X15: [sanitizeHtml] loses nothing: it sends two different texts to
    two different texts. *)
Theorem X15_sanitizeHtml_is_injective (a b : jsstring) :
  a <> b -> sanitizeHtml a <> sanitizeHtml b.
Proof. intros Hne Heq. apply Hne. apply sanitizeHtml_inj. exact Heq. Qed.

Lemma X15_sanitizeHtml_is_injective_witness :
  sanitizeHtml (js "<") <> sanitizeHtml (js "&lt;").
Proof.
  apply (X15_sanitizeHtml_is_injective (js "<") (js "&lt;")). discriminate.
Defined.

(** X16: [sanitizeHtml] returns its input unchanged exactly when the
    input holds none of the six characters, and sanitising a second
    time changes the text again in every other case: the ampersand of
    each entity is escaped once more. *)
Theorem X16_sanitizeHtml_twice (input : jsstring) :
  (sanitizeHtml input = input <-> Forall (fun c => entityOf c = None) input)
  /\ (sanitizeHtml (sanitizeHtml input) = sanitizeHtml input <->
      Forall (fun c => entityOf c = None) input).
Proof.
  split; [apply sanitizeHtml_fixed|]. split.
  - intros Htwice. apply sanitizeHtml_fixed. apply sanitizeHtml_inj. exact Htwice.
  - intros Hplain. apply sanitizeHtml_fixed in Hplain. rewrite !Hplain. reflexivity.
Qed.

End SanitizeClaims.

(** ** validation.ts: the sanitised title *)

Section TrimFacts.

Lemma head_rev_last {A} (s : list A) : head (rev s) = last s.
Proof.
  induction s as [|x s _] using rev_ind; [reflexivity|].
  rewrite rev_unit, last_snoc. reflexivity.
Qed.

Lemma trimStart_head (s : jsstring) (c : codeunit) :
  head (trimStart s) = Some c -> isWhiteSpace c = false.
Proof.
  induction s as [|x s IH]; cbn [trimStart]; [discriminate|].
  destruct (isWhiteSpace x) eqn:Hx; [exact IH|].
  intros [= <-]. exact Hx.
Qed.

Lemma trimStart_fixed (s : jsstring) :
  (forall c, head s = Some c -> isWhiteSpace c = false) -> trimStart s = s.
Proof.
  destruct s as [|x s]; [reflexivity|]. intros Hhead. cbn [trimStart].
  rewrite (Hhead x eq_refl). reflexivity.
Qed.

(** What [trimStart] drops is a run of white space at the head. *)
Lemma trimStart_split (s : jsstring) :
  exists blank, s = blank ++ trimStart s /\ Forall (fun c => isWhiteSpace c = true) blank.
Proof.
  induction s as [|x s (blank & Hs & Hblank)]; cbn [trimStart].
  - exists []. split; [reflexivity | constructor].
  - destruct (isWhiteSpace x) eqn:Hx.
    + exists (x :: blank). split; [cbn [app]; congruence | constructor; assumption].
    + exists []. split; [reflexivity | constructor].
Qed.

Lemma trim_split (s : jsstring) :
  exists before after,
    s = before ++ trim s ++ after
    /\ Forall (fun c => isWhiteSpace c = true) before
    /\ Forall (fun c => isWhiteSpace c = true) after.
Proof.
  unfold trim, trimEnd.
  destruct (trimStart_split s) as (before & Hs & Hbefore).
  destruct (trimStart_split (rev (trimStart s))) as (blank & Hr & Hblank).
  exists before, (rev blank). split; [|split; [exact Hbefore|]].
  - rewrite Hs at 1. f_equal. rewrite <- rev_app_distr, <- Hr, rev_involutive. reflexivity.
  - apply Forall_rev. exact Hblank.
Qed.

Lemma trim_length (s : jsstring) : (length (trim s) <= length s)%nat.
Proof.
  destruct (trim_split s) as (before & after & Hs & _).
  rewrite Hs at 2. rewrite !length_app. lia.
Qed.

Lemma trim_last (s : jsstring) (c : codeunit) :
  last (trim s) = Some c -> isWhiteSpace c = false.
Proof.
  unfold trim, trimEnd. rewrite <- head_rev_last, rev_involutive. apply trimStart_head.
Qed.

Lemma trim_head (s : jsstring) (c : codeunit) :
  head (trim s) = Some c -> isWhiteSpace c = false.
Proof.
  intros Hc. apply (trimStart_head s).
  unfold trim, trimEnd in Hc.
  destruct (trimStart_split (rev (trimStart s))) as (blank & Hr & _).
  apply (f_equal (@rev _)) in Hr. rewrite rev_involutive, rev_app_distr in Hr.
  rewrite Hr, head_app, Hc. reflexivity.
Qed.

Lemma trim_fixed (s : jsstring) :
  (forall c, head s = Some c -> isWhiteSpace c = false) ->
  (forall c, last s = Some c -> isWhiteSpace c = false) ->
  trim s = s.
Proof.
  intros Hhead Hlast. unfold trim, trimEnd.
  rewrite (trimStart_fixed s Hhead).
  rewrite trimStart_fixed; [apply rev_involutive|].
  intros c. rewrite head_rev_last. apply Hlast.
Qed.

Lemma trim_idempotent (s : jsstring) : trim (trim s) = trim s.
Proof. apply trim_fixed; [apply trim_head | apply trim_last]. Qed.

End TrimFacts.

Section TitleClaims.

Import Value Validation.

Lemma validateAndSanitizeTitle_ok (title sanitized : jsstring) :
  validateAndSanitizeTitle title = Ok sanitized <->
  sanitized = trim title /\ (1 <= length (trim title) <= 200)%nat.
Proof.
  unfold validateAndSanitizeTitle. split.
  - destruct (negb (truthy (JString title))); [discriminate|].
    destruct (length (trim title) =? 0)%nat eqn:H0; [discriminate|].
    destruct (200 <? length (trim title))%nat eqn:H200; [discriminate|].
    intros [= <-]. apply Nat.eqb_neq in H0. apply Nat.ltb_ge in H200. split; [reflexivity | lia].
  - intros [-> [Hlo Hhi]].
    assert (Htitle : title <> []).
    { intros ->. cbn in Hlo. lia. }
    cbn [truthy]. rewrite bool_decide_eq_false_2 by exact Htitle. cbn [negb].
    rewrite (proj2 (Nat.eqb_neq _ 0)) by lia.
    rewrite (proj2 (Nat.ltb_ge 200 _)) by lia. reflexivity.
Qed.

(** X17: [validateAndSanitizeTitle] accepts a title exactly when its
    trimmed text has 1 to 200 code units, and returns that text.  The
    text it returns neither starts nor ends with white space, and it is
    accepted unchanged when validated again. *)
Theorem X17_sanitized_titles (title sanitized : jsstring) :
  (validateAndSanitizeTitle title = Ok sanitized <->
   sanitized = trim title /\ (1 <= length (trim title) <= 200)%nat)
  /\ (validateAndSanitizeTitle title = Ok sanitized ->
      (forall c, head sanitized = Some c -> isWhiteSpace c = false)
      /\ (forall c, last sanitized = Some c -> isWhiteSpace c = false)
      /\ (length sanitized <= length title)%nat
      /\ validateAndSanitizeTitle sanitized = Ok sanitized).
Proof.
  split; [apply validateAndSanitizeTitle_ok|].
  intros Hok. apply validateAndSanitizeTitle_ok in Hok as [-> Hbounds].
  split; [apply trim_head|]. split; [apply trim_last|]. split; [apply trim_length|].
  apply validateAndSanitizeTitle_ok. rewrite trim_idempotent. split; [reflexivity | exact Hbounds].
Qed.

End TitleClaims.

(** ** gemini.ts: the span handed to the parser *)

Section SpanFacts.

Import Regex.

Lemma anyUnit_always (c : codeunit) : anyUnit c = true.
Proof. unfold anyUnit. destruct (isWhiteSpace c); reflexivity. Qed.

(** After the opening brace the pattern takes everything and gives back
    code units until a closing brace ends the match: without a closing
    brace it fails, otherwise it stops behind the last one. *)
Lemma star_closing_none {A} (t : jsstring) (caps : list jsstring)
    (k : jsstring -> list jsstring -> option A) :
  125%N ∉ t ->
  starClass anyUnit t (fun s' => exec (Class (N.eqb 125)) s' caps k) = None.
Proof.
  induction t as [|c t IH]; intros Hfree; cbn [starClass]; [reflexivity|].
  rewrite anyUnit_always, IH by (intros Hin; apply Hfree; apply elem_of_cons; auto).
  cbn [exec]. destruct (125 =? c)%N eqn:Hc; [|reflexivity].
  apply N.eqb_eq in Hc as <-. exfalso. apply Hfree. apply elem_of_cons. auto.
Qed.

Lemma star_closing_last {A} (t1 t2 : jsstring) (caps : list jsstring)
    (k : jsstring -> list jsstring -> option A) (a : A) :
  125%N ∉ t2 -> k t2 caps = Some a ->
  starClass anyUnit (t1 ++ 125%N :: t2) (fun s' => exec (Class (N.eqb 125)) s' caps k)
  = Some a.
Proof.
  intros Hfree Hk. induction t1 as [|c t1 IH]; cbn [app starClass].
  - rewrite anyUnit_always, (star_closing_none t2 caps k Hfree). cbn [exec].
    rewrite N.eqb_refl. exact Hk.
  - rewrite anyUnit_always, IH. reflexivity.
Qed.

Lemma exec_braces_open {A} (t : jsstring) (caps : list jsstring)
    (k : jsstring -> list jsstring -> option A) :
  exec braces (123%N :: t) caps k
  = starClass anyUnit t (fun s' => exec (Class (N.eqb 125)) s' caps k).
Proof. reflexivity. Qed.

Lemma matchAt_braces_other (c : codeunit) (t : jsstring) :
  c <> 123%N -> matchAt braces (c :: t) = None.
Proof.
  intros Hc. unfold matchAt, braces. cbn [exec].
  rewrite (proj2 (N.eqb_neq 123 c)) by congruence. reflexivity.
Qed.

Lemma matchAt_braces_open (t : jsstring) :
  125%N ∉ t -> matchAt braces (123%N :: t) = None.
Proof.
  intros Hfree. unfold matchAt. rewrite exec_braces_open.
  apply star_closing_none. exact Hfree.
Qed.

Lemma matchAt_braces_closed (t1 t2 : jsstring) :
  125%N ∉ t2 ->
  matchAt braces (123%N :: t1 ++ 125%N :: t2) = Some [123%N :: t1 ++ [125%N]].
Proof.
  intros Hfree. unfold matchAt. rewrite exec_braces_open.
  rewrite (star_closing_last t1 t2 [] _ _ Hfree eq_refl). do 2 f_equal.
  cbn [length]. rewrite !length_app. cbn [length].
  replace (S (length t1 + S (length t2)) - length t2)%nat with (S (S (length t1))) by lia.
  cbn [take]. f_equal.
  replace (S (length t1)) with (length (t1 ++ [125%N])) by (rewrite length_app; cbn; lia).
  change (t1 ++ 125%N :: t2) with (t1 ++ [125%N] ++ t2). rewrite app_assoc.
  apply take_app_length.
Qed.

End SpanFacts.

Section MetadataClaims.

Import Regex Gemini.

(** X18: the text [generateQuestionMetadata] hands to [JSON.parse] runs
    from the first opening brace of the trimmed reply to its last
    closing brace; the search fails exactly when no closing brace
    follows an opening one. *)
Theorem X18_brace_span (text : jsstring) :
  match str_match braces text with
  | Some m =>
      exists before inside after,
        text = before ++ [123%N] ++ inside ++ [125%N] ++ after
        /\ (123%N ∉ before) /\ (125%N ∉ after)
        /\ m = [[123%N] ++ inside ++ [125%N]]
  | None => forall before after, text = before ++ 123%N :: after -> 125%N ∉ after
  end.
Proof.
  induction text as [|c text IH].
  - cbn. intros [|x before] after Heq; discriminate.
  - destruct (decide (c = 123%N)) as [-> | Hc].
    + destruct (decide (125%N ∈ text)) as [Hin | Hout].
      * apply list_elem_of_split_r in Hin as (t1 & t2 & -> & Hfree).
        cbn [str_match]. rewrite (matchAt_braces_closed t1 t2 Hfree).
        exists [], t1, t2. split; [reflexivity|].
        split; [intros Hin; apply elem_of_nil in Hin; exact Hin|]. auto.
      * cbn [str_match]. rewrite (matchAt_braces_open text Hout).
        destruct (str_match braces text) as [m|].
        -- destruct IH as (before & inside & after & -> & _). exfalso. apply Hout.
           rewrite !elem_of_app. right. right. right. left. apply elem_of_cons. auto.
        -- intros before after Heq Hin. apply Hout.
           destruct before as [|x before]; injection Heq as Heq; subst.
           ++ exact Hin.
           ++ rewrite elem_of_app. right. apply elem_of_cons. auto.
    + cbn [str_match]. rewrite (matchAt_braces_other c text Hc).
      destruct (str_match braces text) as [m|].
      * destruct IH as (before & inside & after & -> & Hb & Ha & ->).
        exists (c :: before), inside, after. split; [reflexivity|].
        split; [|auto]. intros Hin. apply elem_of_cons in Hin as [Heq | Hin]; auto.
      * intros before after Heq.
        destruct before as [|x before]; injection Heq as Heq; subst; [congruence|].
        apply (IH before after eq_refl).
Qed.

End MetadataClaims.

Section WrappedReplyFacts.

Import Regex.

Lemma trimStart_app_keep (x y : jsstring) (c : codeunit) :
  head y = Some c -> isWhiteSpace c = false -> trimStart (x ++ y) = trimStart x ++ y.
Proof.
  intros Hhead Hc. induction x as [|a x IH]; cbn [app trimStart].
  - apply trimStart_fixed. intros c' Hc'. congruence.
  - destruct (isWhiteSpace a); [exact IH | reflexivity].
Qed.

Lemma trimEnd_app_keep (x y : jsstring) (c : codeunit) :
  last x = Some c -> isWhiteSpace c = false -> trimEnd (x ++ y) = x ++ trimEnd y.
Proof.
  intros Hlast Hc. unfold trimEnd. rewrite rev_app_distr.
  rewrite (trimStart_app_keep (rev y) (rev x) c) by (rewrite ?head_rev_last; assumption).
  rewrite rev_app_distr, rev_involutive. reflexivity.
Qed.

Lemma trimStart_within (x : codeunit) (s : jsstring) : x ∉ s -> x ∉ trimStart s.
Proof.
  intros Hout Hin. apply Hout.
  destruct (trimStart_split s) as (blank & Hs & _). rewrite Hs.
  apply elem_of_app. right. exact Hin.
Qed.

Lemma elem_of_rev {A} (x : A) (l : list A) : x ∈ rev l <-> x ∈ l.
Proof. rewrite !list_elem_of_In. symmetry. apply in_rev. Qed.

Lemma trimEnd_within (x : codeunit) (s : jsstring) : x ∉ s -> x ∉ trimEnd s.
Proof.
  intros Hout Hin. unfold trimEnd in Hin. apply (proj1 (elem_of_rev _ _)) in Hin.
  apply (trimStart_within x (rev s)); [|exact Hin].
  intros Hrev. apply Hout. apply (proj1 (elem_of_rev _ _)). exact Hrev.
Qed.

Lemma str_match_braces_found (before inside after : jsstring) :
  123%N ∉ before -> 125%N ∉ after ->
  str_match braces (before ++ [123%N] ++ inside ++ [125%N] ++ after)
  = Some [[123%N] ++ inside ++ [125%N]].
Proof.
  intros Hbefore Hafter. induction before as [|c before IH]; cbn [app str_match].
  - rewrite (matchAt_braces_closed inside after Hafter). reflexivity.
  - rewrite matchAt_braces_other
      by (intros ->; apply Hbefore; apply elem_of_cons; auto).
    apply IH. intros Hin. apply Hbefore. apply elem_of_cons. auto.
Qed.

End WrappedReplyFacts.

Section WrappedReplyClaims.

Import Regex Gemini.

(** X19: what stands around the object in the reply of the service does
    not matter: a reply that holds, before its first opening brace and
    after its last closing brace, any text at all (a sentence, the
    fences of a code block) is parsed as the braced text alone. *)
Theorem X19_text_around_the_object_is_ignored (pf : Platform)
    (before inside after : jsstring) :
  123%N ∉ before -> 125%N ∉ after ->
  parseResponse pf (before ++ [123%N] ++ inside ++ [125%N] ++ after)
  = parseResponse pf ([123%N] ++ inside ++ [125%N]).
Proof.
  intros Hbefore Hafter.
  assert (Hwrapped : trim (before ++ [123%N] ++ inside ++ [125%N] ++ after)
                     = trimStart before ++ [123%N] ++ inside ++ [125%N] ++ trimEnd after).
  { unfold trim.
    rewrite (trimStart_app_keep before _ 123%N) by reflexivity.
    replace (trimStart before ++ [123%N] ++ inside ++ [125%N] ++ after)
      with ((trimStart before ++ [123%N] ++ inside ++ [125%N]) ++ after)
      by (rewrite <- !app_assoc; reflexivity).
    rewrite (trimEnd_app_keep _ after 125%N);
      [rewrite <- !app_assoc; reflexivity | | reflexivity].
    rewrite !app_assoc. apply last_snoc. }
  assert (Hbare : trim ([123%N] ++ inside ++ [125%N]) = [123%N] ++ inside ++ [125%N]).
  { apply trim_fixed.
    - intros c [= <-]. reflexivity.
    - intros c. rewrite app_assoc, last_snoc. intros [= <-]. reflexivity. }
  unfold parseResponse. cbn zeta. rewrite Hwrapped, Hbare.
  rewrite (str_match_braces_found (trimStart before) inside (trimEnd after))
    by (first [apply trimStart_within | apply trimEnd_within]; assumption).
  pose proof (str_match_braces_found [] inside []) as Hfound.
  cbn [app] in Hfound |- *. rewrite Hfound; [reflexivity | |];
    intros Hin; apply elem_of_nil in Hin; exact Hin.
Qed.

Lemma X19_text_around_the_object_is_ignored_witness :
  parseResponse Examples.platform
    (js "Here you are: " ++ [123%N]
     ++ Examples.jsq "'title':'t','difficulty':'Easy','description':'short'"
     ++ [125%N] ++ js " I hope it helps.")
  = parseResponse Examples.platform
      ([123%N] ++ Examples.jsq "'title':'t','difficulty':'Easy','description':'short'"
       ++ [125%N]).
Proof.
  apply (X19_text_around_the_object_is_ignored Examples.platform);
    apply (bool_decide_unpack _); vm_compute; exact I.
Defined.

End WrappedReplyClaims.

(** ** database.ts: the keys of the table *)

Section TableFacts.

Import Value JsonText Database.

Lemma sqlEqb_sym (a b : SqlValue) : sqlEqb a b = sqlEqb b a.
Proof.
  destruct a as [|s], b as [|t]; try reflexivity. cbn [sqlEqb].
  apply eq_true_iff_eq. rewrite !bool_decide_eq_true. split; congruence.
Qed.

Lemma conflicts_sym (r1 r2 : DatabaseQuestion) : conflicts r1 r2 = conflicts r2 r1.
Proof. unfold conflicts. rewrite (sqlEqb_sym (id r2)), (sqlEqb_sym (title r2)). reflexivity. Qed.

(** What a successful [saveQuestion] does to the table: the rows that
    conflict with the new row go, the new row comes last. *)
Lemma saveQuestion_inv (pf : Platform) (now : jsstring) (question : JsValue)
    (table table' : list DatabaseQuestion) :
  saveQuestion pf now question table = Ok table' ->
  exists row,
    table' = filter (fun old => conflicts row old = false) table ++ [row]
    /\ notNullViolation row = None /\ difficultyCheck row = true.
Proof.
  unfold saveQuestion.
  destruct (bindParameters pf _) as [values|e]; cbn [bind wrapError]; [|discriminate].
  unfold insert.
  destruct (rowOf values) as [row|]; [|discriminate].
  destruct (notNullViolation row) eqn:Hnull; [discriminate|].
  destruct (difficultyCheck row) eqn:Hcheck; [|discriminate].
  cbn [wrapError]. intros [= <-]. exists row. auto.
Qed.

Lemma uniqueKeys_filter (P : DatabaseQuestion -> Prop) `{!forall r, Decision (P r)}
    (table : list DatabaseQuestion) :
  uniqueKeys table -> uniqueKeys (filter P table).
Proof.
  induction table as [|r table IH]; [auto|]. intros [Hr Hrest].
  rewrite filter_cons. case_decide; [|auto].
  cbn [uniqueKeys]. split; [|auto].
  apply Forall_forall. intros other Hother. rewrite Forall_forall in Hr. apply Hr.
  apply list_elem_of_filter in Hother as [_ Hother]. exact Hother.
Qed.

Lemma uniqueKeys_snoc (table : list DatabaseQuestion) (row : DatabaseQuestion) :
  uniqueKeys table -> Forall (fun old => conflicts row old = false) table ->
  uniqueKeys (table ++ [row]).
Proof.
  induction table as [|r table IH]; intros Huniq Hfree.
  - cbn. split; [constructor | exact I].
  - destruct Huniq as [Hr Hrest]. apply Forall_cons in Hfree as [Hfr Hfree].
    cbn [app uniqueKeys]. split; [|auto].
    apply Forall_app. split; [exact Hr|]. constructor; [|constructor].
    rewrite conflicts_sym. exact Hfr.
Qed.

Lemma uniqueKeys_elem (table : list DatabaseQuestion) (r1 r2 : DatabaseQuestion) :
  uniqueKeys table -> r1 ∈ table -> r2 ∈ table -> conflicts r1 r2 = true -> r1 = r2.
Proof.
  induction table as [|r table IH]; intros Huniq H1 H2 Hc.
  - apply elem_of_nil in H1. destruct H1.
  - destruct Huniq as [Hr Hrest]. rewrite Forall_forall in Hr.
    apply elem_of_cons in H1 as [-> | H1]; apply elem_of_cons in H2 as [-> | H2].
    + reflexivity.
    + rewrite (Hr r2 H2) in Hc. discriminate.
    + rewrite conflicts_sym, (Hr r1 H1) in Hc. discriminate.
    + auto.
Qed.

Lemma insert_unique (row : DatabaseQuestion) (table : list DatabaseQuestion) :
  uniqueKeys table ->
  uniqueKeys (filter (fun old => conflicts row old = false) table ++ [row]).
Proof.
  intros Huniq. apply uniqueKeys_snoc; [apply uniqueKeys_filter; exact Huniq|].
  apply Forall_forall. intros old Hold.
  apply list_elem_of_filter in Hold as [Hold _]. exact Hold.
Qed.

Lemma selectById_Some (key : jsstring) (table : list DatabaseQuestion)
    (r : DatabaseQuestion) :
  selectById key table = Some r -> r ∈ table /\ id r = SText (toWellFormed key).
Proof.
  unfold selectById. intros Hfind. apply find_some in Hfind as [Hin Hid].
  split; [apply list_elem_of_In; exact Hin|].
  destruct (id r) as [|s]; [discriminate|]. cbn [sqlEqb] in Hid.
  apply bool_decide_eq_true in Hid. congruence.
Qed.

Lemma selectById_None (key : jsstring) (table : list DatabaseQuestion) :
  selectById key table = None
  <-> forall r, r ∈ table -> id r <> SText (toWellFormed key).
Proof.
  unfold selectById. split.
  - intros Hnone r Hin Hid. apply list_elem_of_In in Hin.
    pose proof (find_none _ _ Hnone r Hin) as Hno. cbn beta in Hno.
    rewrite Hid in Hno. cbn [sqlEqb] in Hno.
    rewrite bool_decide_eq_true_2 in Hno by reflexivity. discriminate.
  - intros Hall. destruct (find _ table) as [r|] eqn:Hfind; [|reflexivity].
    apply find_some in Hfind as [Hin Hid]. exfalso.
    apply (Hall r); [apply list_elem_of_In; exact Hin|].
    destruct (id r) as [|s]; [discriminate|]. cbn [sqlEqb] in Hid.
    apply bool_decide_eq_true in Hid. congruence.
Qed.

(** A selection depends on the key as it is bound, and on nothing else
    of the key. *)
Lemma selectById_bound (key other : jsstring) (table : list DatabaseQuestion) :
  toWellFormed other = toWellFormed key ->
  selectById other table = selectById key table.
Proof. unfold selectById. intros ->. reflexivity. Qed.

(** A selection by key looks at the rows of that key only. *)
Lemma selectById_filter (key : jsstring) (P : DatabaseQuestion -> Prop)
    `{!forall r, Decision (P r)} (table : list DatabaseQuestion) :
  (forall r, r ∈ table -> id r = SText (toWellFormed key) -> P r) ->
  selectById key (filter P table) = selectById key table.
Proof.
  unfold selectById. induction table as [|r table IH]; intros Hkeep; [reflexivity|].
  assert (Hrest : forall r', r' ∈ table -> id r' = SText (toWellFormed key) -> P r')
    by (intros r' Hin; apply Hkeep; apply elem_of_cons; auto).
  rewrite filter_cons. case_decide as HP.
  - cbn [find]. rewrite (IH Hrest). reflexivity.
  - cbn [find]. rewrite (IH Hrest).
    destruct (sqlEqb (id r) (SText (toWellFormed key))) eqn:Hid; [|reflexivity].
    exfalso. apply HP. apply Hkeep; [apply elem_of_cons; auto|].
    destruct (id r) as [|s]; [discriminate|]. cbn [sqlEqb] in Hid.
    apply bool_decide_eq_true in Hid. congruence.
Qed.

Lemma selectById_app (key : jsstring) (table more : list DatabaseQuestion) :
  selectById key (table ++ more)
  = match selectById key table with
    | Some r => Some r
    | None => selectById key more
    end.
Proof.
  unfold selectById. induction table as [|r table IH]; [reflexivity|].
  cbn [app find].
  destruct (sqlEqb (id r) (SText (toWellFormed key))); [reflexivity | exact IH].
Qed.

Lemma selectById_kept (key : jsstring) (P : DatabaseQuestion -> Prop)
    `{!forall r, Decision (P r)} (table : list DatabaseQuestion) (r : DatabaseQuestion) :
  selectById key table = Some r -> P r -> selectById key (filter P table) = Some r.
Proof.
  unfold selectById. induction table as [|x table IH]; [discriminate|].
  cbn [find]. destruct (sqlEqb (id x) (SText (toWellFormed key))) eqn:Hid.
  - intros [= ->] HP. rewrite filter_cons_True by exact HP. cbn [find].
    rewrite Hid. reflexivity.
  - intros Hfind HP. rewrite filter_cons. case_decide; [|auto].
    cbn [find]. rewrite Hid. auto.
Qed.

(** The row [saveQuestion] writes for a question of the type
    [Question]: it carries the identifier and the title of the
    question, as they are bound. *)
Lemma saveQuestion_typed (pf : Platform) (now : jsstring) (a : Types.Question)
    (table : list DatabaseQuestion) :
  exists row,
    saveQuestion pf now (Types.toJs a) table
    = Ok (filter (fun old => conflicts row old = false) table ++ [row])
    /\ id row = SText (toWellFormed (Types.id a))
    /\ title row = SText (toWellFormed (Types.title a)).
Proof.
  destruct (stringified_strings pf (Types.topics a)) as (tTopics & HsT & _).
  destruct (stringified_strings pf (Types.step_by_step_explanation a))
    as (tSteps & HsS & _).
  destruct (stringified_example pf (Types.example a)) as (tEx & HsE & _).
  pose proof (stringified_strings_stored pf _ _ HsT) as HwT.
  pose proof (stringified_strings_stored pf _ _ HsS) as HwS.
  pose proof (stringified_example_stored pf _ _ HsE) as HwE.
  set (pseudo := match Types.pseudocode a with
                 | Some l => match stringify pf (Types.strings l) with
                             | Some t => SText t | None => SNull end
                 | None => SNull
                 end).
  set (row := {| id := SText (toWellFormed (Types.id a));
                 title := SText (toWellFormed (Types.title a));
                 difficulty := SText (Types.difficultyName (Types.difficulty a));
                 topics := SText tTopics;
                 description := SText (toWellFormed (Types.description a));
                 example := SText tEx;
                 solution_python := SText (toWellFormed (Types.solution_python a));
                 step_by_step_explanation := SText tSteps;
                 pseudocode := pseudo;
                 created_at := SText (toWellFormed (Types.created_at a));
                 updated_at := SText (toWellFormed now) |}).
  exists row. split; [|split; reflexivity].
  unfold saveQuestion.
  change (getProp (Types.toJs a) (js "id")) with (JString (Types.id a)).
  change (getProp (Types.toJs a) (js "title")) with (JString (Types.title a)).
  change (getProp (Types.toJs a) (js "difficulty"))
    with (JString (Types.difficultyName (Types.difficulty a))).
  change (getProp (Types.toJs a) (js "topics")) with (Types.strings (Types.topics a)).
  change (getProp (Types.toJs a) (js "description"))
    with (JString (Types.description a)).
  change (getProp (Types.toJs a) (js "example"))
    with (Types.exampleToJs (Types.example a)).
  change (getProp (Types.toJs a) (js "solution_python"))
    with (JString (Types.solution_python a)).
  change (getProp (Types.toJs a) (js "step_by_step_explanation"))
    with (Types.strings (Types.step_by_step_explanation a)).
  change (getProp (Types.toJs a) (js "pseudocode"))
    with (from_option Types.strings JUndefined (Types.pseudocode a)).
  change (getProp (Types.toJs a) (js "created_at"))
    with (JString (Types.created_at a)).
  rewrite HsT, HsS, HsE.
  assert (Hp : (if truthy (from_option Types.strings JUndefined (Types.pseudocode a))
                then stringified pf
                       (from_option Types.strings JUndefined (Types.pseudocode a))
                else JNull) = sqlToJs pseudo).
  { subst pseudo. destruct (Types.pseudocode a) as [l|]; [|reflexivity].
    cbn [from_option]. unfold stringified. rewrite stringify_strings. reflexivity. }
  rewrite Hp. unfold bindParameters.
  assert (Hreg : regular (sqlToJs pseudo) = Some pseudo).
  { subst pseudo. destruct (Types.pseudocode a) as [l|]; [|reflexivity].
    destruct (stringify pf (Types.strings l)) as [t|] eqn:Hs; [|reflexivity].
    cbn [sqlToJs regular]. rewrite (stringify_strings_stored pf l t Hs). reflexivity. }
  unfold mapM.
  cbn [list_fmap regular mbind option_bind mret option_ret foldr fmap option_fmap
       option_map].
  rewrite Hreg.
  cbn [list_fmap regular mbind option_bind mret option_ret foldr fmap option_fmap
       option_map bind].
  rewrite HwT, HwS, HwE, difficultyName_stored.
  unfold insert. cbn [rowOf]. fold row.
  unfold notNullViolation. cbn [isNull title difficulty topics description example
    solution_python step_by_step_explanation created_at row].
  unfold difficultyCheck. cbn [difficulty row].
  rewrite difficultyName_checked. reflexivity.
Qed.

End TableFacts.

Section TableClaims.

Import Value JsonText Database.

(** X20: [saveQuestion] keeps the keys of the table unique: when no two
    rows share an identifier or a title before a save that succeeds,
    none do after it; and the table grows by one row at most. *)
Theorem X20_saveQuestion_keeps_keys_unique (pf : Platform) (now : jsstring)
    (question : JsValue) (table table' : list DatabaseQuestion) :
  uniqueKeys table -> saveQuestion pf now question table = Ok table' ->
  uniqueKeys table' /\ (length table' <= S (length table))%nat.
Proof.
  intros Huniq Hsave. apply saveQuestion_inv in Hsave as (row & -> & _).
  split; [apply insert_unique; exact Huniq|].
  rewrite length_app. cbn [length].
  pose proof (length_filter (fun old => conflicts row old = false) table). lia.
Qed.

Lemma X20_saveQuestion_keeps_keys_unique_witness :
  exists table',
    saveQuestion Examples.platform (js "2024-05-02T08:30:00.000Z")
      (Types.toJs Examples.sampleQuestion) [] = Ok table'
    /\ uniqueKeys table'.
Proof.
  eexists. split; [vm_compute; reflexivity|].
  apply (X20_saveQuestion_keeps_keys_unique Examples.platform
           (js "2024-05-02T08:30:00.000Z") (Types.toJs Examples.sampleQuestion) []);
    [exact I | vm_compute; reflexivity].
Defined.

(** X21: a save takes the title away from whoever held it: when the
    table, with unique keys, holds under another identifier a question
    with the title of the question being saved, the save succeeds and
    the older question cannot be read any more.  Identifiers and titles
    are compared as they are bound, a lone surrogate being bound as
    U+FFFD. *)
Theorem X21_same_title_replaces_the_older_question (pf : Platform) (now : jsstring)
    (a : Types.Question) (table : list DatabaseQuestion) (key : jsstring)
    (old : DatabaseQuestion) :
  uniqueKeys table ->
  selectById key table = Some old ->
  title old = SText (toWellFormed (Types.title a)) ->
  toWellFormed key <> toWellFormed (Types.id a) ->
  exists table',
    saveQuestion pf now (Types.toJs a) table = Ok table'
    /\ getQuestion pf key table' = Ok None.
Proof.
  intros Huniq Hold Htitle Hkey.
  destruct (saveQuestion_typed pf now a table) as (row & Hsave & Hid & Hrow).
  eexists. split; [exact Hsave|].
  apply selectById_Some in Hold as [Hin Hoid].
  unfold getQuestion. destruct (negb (truthy (JString key))); [reflexivity|].
  assert (Hnone : selectById key
                    (filter (fun r => conflicts row r = false) table ++ [row]) = None).
  { apply selectById_None. intros r Hr Hrid.
    apply elem_of_app in Hr as [Hr | Hr].
    - apply list_elem_of_filter in Hr as [Hfree Hr].
      assert (r = old).
      { apply (uniqueKeys_elem table r old Huniq Hr Hin).
        unfold conflicts. rewrite Hoid, Hrid. cbn [sqlEqb].
        rewrite bool_decide_eq_true_2 by reflexivity. reflexivity. }
      subst r. unfold conflicts in Hfree. rewrite Htitle, Hrow in Hfree.
      cbn [sqlEqb] in Hfree.
      rewrite (bool_decide_eq_true_2
                 (toWellFormed (Types.title a) = toWellFormed (Types.title a)))
        in Hfree by reflexivity.
      rewrite orb_true_r in Hfree. discriminate.
    - apply elem_of_cons in Hr as [-> | Hr]; [|apply elem_of_nil in Hr; destruct Hr].
      rewrite Hid in Hrid. congruence. }
  rewrite Hnone. reflexivity.
Qed.

Lemma X21_same_title_replaces_the_older_question_witness :
  exists table',
    saveQuestion Examples.platform (js "2024-05-03T09:00:01.000Z")
      (Types.toJs Examples.sameTitleQuestion) Examples.savedTable = Ok table'
    /\ getQuestion Examples.platform (js "q-1") table' = Ok None.
Proof.
  eapply (X21_same_title_replaces_the_older_question Examples.platform
            (js "2024-05-03T09:00:01.000Z") Examples.sameTitleQuestion Examples.savedTable
            (js "q-1"));
    [ split; [constructor | exact I]
    | vm_compute; reflexivity
    | vm_compute; reflexivity
    | intros H; vm_compute in H; discriminate H ].
Defined.

(** X22: a save leaves the other questions alone: a question whose row
    shares neither the identifier nor the title with the row written,
    which holds the texts as they are bound, is selected and read after
    the save as before it. *)
Theorem X22_saveQuestion_leaves_the_others (pf : Platform) (now : jsstring)
    (question : JsValue) (table table' : list DatabaseQuestion) :
  saveQuestion pf now question table = Ok table' ->
  exists row,
    last table' = Some row
    /\ forall key r,
         selectById key table = Some r -> conflicts row r = false ->
         selectById key table' = Some r
         /\ getQuestion pf key table' = getQuestion pf key table.
Proof.
  intros Hsave. apply saveQuestion_inv in Hsave as (row & -> & _).
  exists row. split; [apply last_snoc|].
  intros key r Hsel Hfree.
  assert (Hsel' : selectById key
                    (filter (fun old => conflicts row old = false) table ++ [row]) = Some r).
  { rewrite selectById_app.
    rewrite (selectById_kept key (fun old => conflicts row old = false) table r Hsel Hfree).
    reflexivity. }
  split; [exact Hsel'|]. unfold getQuestion. rewrite Hsel', Hsel. reflexivity.
Qed.

Lemma X22_saveQuestion_leaves_the_others_witness :
  exists table' r,
    saveQuestion Examples.platform (js "2024-05-04T09:00:01.000Z")
      (Types.toJs Examples.otherQuestion) Examples.savedTable = Ok table'
    /\ selectById (js "q-1") Examples.savedTable = Some r
    /\ selectById (js "q-1") table' = Some r.
Proof.
  destruct (saveQuestion Examples.platform (js "2024-05-04T09:00:01.000Z")
              (Types.toJs Examples.otherQuestion) Examples.savedTable)
    as [table'|e] eqn:Hsave; [|vm_compute in Hsave; discriminate Hsave].
  destruct (X22_saveQuestion_leaves_the_others _ _ _ _ _ Hsave) as (row & Hlast & Hframe).
  vm_compute in Hsave. injection Hsave as <-.
  vm_compute in Hlast. injection Hlast as <-.
  eexists. eexists. split; [reflexivity|].
  split; [vm_compute; reflexivity|].
  eapply Hframe; vm_compute; reflexivity.
Defined.

(** X23: [deleteQuestion] with a non-empty identifier reports whether a
    row of that identifier was stored, leaves a table in which the
    identifier, and every identifier bound as it is, reads as absent and
    every identifier bound otherwise reads as before, and keeps the keys
    unique; with the empty identifier it reports nothing deleted and
    leaves the table as it is.  An identifier is bound with every lone
    surrogate replaced by U+FFFD. *)
Theorem X23_deleteQuestion_removes_one_key (pf : Platform) (key : jsstring)
    (table : list DatabaseQuestion) :
  (key <> [] ->
   exists table',
     deleteQuestion key table
     = Ok (bool_decide (is_Some (selectById key table)), table')
     /\ getQuestion pf key table' = Ok None
     /\ (forall other, toWellFormed other = toWellFormed key ->
           getQuestion pf other table' = Ok None)
     /\ (forall other, toWellFormed other <> toWellFormed key ->
           getQuestion pf other table' = getQuestion pf other table)
     /\ (uniqueKeys table -> uniqueKeys table'))
  /\ deleteQuestion [] table = Ok (false, table).
Proof.
  split; [|reflexivity].
  intros Hkey. unfold deleteQuestion.
  rewrite truthy_string by exact Hkey. cbn [negb wrapError].
  set (table' := filter (fun row => sqlEqb (id row) (SText (toWellFormed key)) = false)
                   table).
  assert (Hnone : selectById key table' = None).
  { apply selectById_None. intros r Hr Hid. subst table'.
    apply list_elem_of_filter in Hr as [Hr _]. rewrite Hid in Hr. cbn [sqlEqb] in Hr.
    rewrite bool_decide_eq_true_2 in Hr by reflexivity. discriminate. }
  exists table'. split; [|split; [|split; [|split]]].
  - do 2 f_equal. apply eq_true_iff_eq. rewrite Nat.ltb_lt, bool_decide_eq_true.
    clear Hnone. subst table'. induction table as [|r table IH].
    + cbn. split; [lia | intros [x Hx]; discriminate].
    + rewrite filter_cons. unfold selectById in *. cbn [find].
      pose proof (length_filter
                    (fun row => sqlEqb (id row) (SText (toWellFormed key)) = false) table)
        as Hle.
      destruct (sqlEqb (id r) (SText (toWellFormed key))) eqn:Hid.
      * rewrite decide_False by congruence. cbn [length].
        split; [intros _; eexists; reflexivity | intros _; lia].
      * rewrite decide_True by reflexivity. cbn [length].
        rewrite <- IH. lia.
  - unfold getQuestion. rewrite truthy_string by exact Hkey. cbn [negb].
    rewrite Hnone. reflexivity.
  - intros other Hother. unfold getQuestion.
    destruct (negb (truthy (JString other))); [reflexivity|].
    rewrite (selectById_bound key other table' Hother), Hnone. reflexivity.
  - intros other Hother. unfold getQuestion.
    destruct (negb (truthy (JString other))); [reflexivity|].
    subst table'. rewrite selectById_filter; [reflexivity|].
    intros r _ Hid. rewrite Hid. cbn [sqlEqb].
    apply bool_decide_eq_false_2. congruence.
  - apply uniqueKeys_filter.
Qed.

Lemma X23_deleteQuestion_removes_one_key_witness :
  exists table',
    deleteQuestion (js "q-1") Examples.savedTable = Ok (true, table')
    /\ getQuestion Examples.platform (js "q-1") table' = Ok None.
Proof.
  destruct (proj1 (X23_deleteQuestion_removes_one_key Examples.platform (js "q-1")
                     Examples.savedTable) ltac:(discriminate))
    as (table' & Hdel & Hget & _).
  exists table'. split; [exact Hdel | exact Hget].
Defined.

End TableClaims.

(** ** app/api/generate/route.ts: the answers of [POST] *)

Section RequestFacts.

Import Value Types Generate.

(** What the schema lets through. *)
Lemma schema_bounds (body : JsValue) (titles : list jsstring) :
  Schema.GenerateRequestSchema body = Some titles ->
  (1 <= length titles <= 20)%nat
  /\ Forall (fun t => (1 <= length t <= 200)%nat) titles.
Proof.
  unfold Schema.GenerateRequestSchema.
  destruct body as [| | | | | |props]; try discriminate.
  destruct (lookup (js "titles") props) as [| | | | |items|]; try discriminate.
  destruct (mapM (Schema.stringBetween 1 200) items) as [found|] eqn:Hmap;
    [|discriminate].
  destruct ((1 <=? length found) && (length found <=? 20))%nat eqn:Hlen; [|discriminate].
  intros [= <-]. apply andb_true_iff in Hlen as [Hlo Hhi].
  apply Nat.leb_le in Hlo, Hhi. split; [lia|]. clear Hlo Hhi.
  apply mapM_Some in Hmap. induction Hmap as [|v t items found Hv _ IH]; constructor.
  - unfold Schema.stringBetween in Hv. destruct v; try discriminate.
    destruct ((1 <=? length s) && (length s <=? 200))%nat eqn:Hs; [|discriminate].
    injection Hv as <-. apply andb_true_iff in Hs as [H1 H2].
    apply Nat.leb_le in H1, H2. lia.
  - exact IH.
Qed.

Context (pf : Platform) (w : World).

Lemma POST_accepted (sched : Schedule) (body : JsValue) (titles : list jsstring)
    (table : list Database.DatabaseQuestion) :
  Schema.GenerateRequestSchema body = Some titles ->
  POST pf w sched body table
  = (respond (generationStatus
                (runBatches pf w sched 0 0 (batchesOf titles) (started titles table))),
     runBatches pf w sched 0 0 (batchesOf titles) (started titles table)).
Proof.
  intros Hschema. destruct (schema_bounds body titles Hschema) as [[Hlo Hhi] _].
  unfold POST, Validation.validateGenerateRequest. rewrite Hschema.
  rewrite (proj2 (Nat.eqb_neq (length titles) 0)) by lia.
  rewrite (proj2 (Nat.ltb_ge 20 (length titles))) by lia. reflexivity.
Qed.

Lemma POST_rejected (sched : Schedule) (body : JsValue)
    (table : list Database.DatabaseQuestion) :
  Schema.GenerateRequestSchema body = None ->
  POST pf w sched body table
  = (failure 400 (js "Invalid generate request: " ++ zodIssueMessage pf body),
     initial table).
Proof.
  intros Hschema. unfold POST, Validation.validateGenerateRequest. rewrite Hschema.
  reflexivity.
Qed.

Lemma POST_ledger (sched : Schedule) (titles : list jsstring)
    (table : list Database.DatabaseQuestion) :
  let st := runBatches pf w sched 0 0 (batchesOf titles) (started titles table) in
  total (generationStatus st) = length titles
  /\ (completed (generationStatus st) + failed (generationStatus st) = length titles)%nat.
Proof.
  cbn zeta.
  assert (Hok0 : ledgerOk titles (started titles table))
    by (split; [reflexivity | constructor]).
  destruct (runBatches_ledger pf w titles sched (batchesOf titles) 0 0
              (started titles table) (batchesOf_within titles) Hok0)
    as (_ & Htotal & Hcount).
  rewrite batchesOf_concat in Hcount. unfold settled in Hcount.
  cbn [started generationStatus total completed failed] in Htotal, Hcount.
  split; [exact Htotal | lia].
Qed.

End RequestFacts.

Section RunInvariant.

Import Value Types Generate.

Context (pf : Platform) (w : World) (titles : list jsstring).
Context (Inv : State -> Prop) (Good : Pending -> Prop).

Hypothesis start_inv :
  forall batch offset st pending index title,
    title ∈ titles -> Inv st -> Forall Good pending ->
    Inv (startTask batch offset (st, pending) (index, title)).1
    /\ Forall Good (startTask batch offset (st, pending) (index, title)).2.

Hypothesis settle_inv :
  forall batch st p, Good p -> Inv st -> Inv (settleTask pf w batch st p).

Hypothesis pause_inv :
  forall st, Inv st -> Inv (log (BatchPause (GENERATION_DELAY * 2)) st).

Lemma startAll_invariant (batch offset : nat) (entries : list (nat * jsstring)) :
  forall st pending,
    Forall (fun entry => entry.2 ∈ titles) entries ->
    Inv st -> Forall Good pending ->
    Inv (fold_left (startTask batch offset) entries (st, pending)).1
    /\ Forall Good (fold_left (startTask batch offset) entries (st, pending)).2.
Proof.
  induction entries as [|[index title] entries IH]; intros st pending Hin Hst Hgood;
    [auto|].
  apply Forall_cons in Hin as [Hhere Hrest]. cbn [fold_left].
  destruct (start_inv batch offset st pending index title Hhere Hst Hgood) as [H1 H2].
  destruct (startTask batch offset (st, pending) (index, title)) as [st1 pending1].
  apply IH; assumption.
Qed.

Lemma settleAll_invariant (batch : nat) (order : list Pending) :
  forall st, Forall Good order -> Inv st ->
             Inv (fold_left (settleTask pf w batch) order st).
Proof.
  induction order as [|p order IH]; intros st Hgood Hst; [exact Hst|].
  apply Forall_cons in Hgood as [Hp Hgood]. cbn [fold_left].
  apply IH; [exact Hgood | apply settle_inv; assumption].
Qed.

Lemma runBatch_invariant (sched : Schedule) (batch offset : nat)
    (batchTitles : list jsstring) (st : State) :
  Forall (fun t => t ∈ titles) batchTitles -> Inv st ->
  Inv (runBatch pf w sched batch offset batchTitles st).
Proof.
  intros Hin Hst. unfold runBatch.
  destruct (startAll_invariant batch offset (imap (fun i t => (i, t)) batchTitles)
              st []) as [H1 H2]; [ | exact Hst | constructor | ].
  { apply indexed_within; [reflexivity | exact Hin]. }
  destruct (fold_left (startTask batch offset) _ (st, [])) as [st1 pending].
  cbn [fst snd] in *. apply settleAll_invariant; [|exact H1].
  rewrite (arrange_perm (sched batch) (length pending) pending (sched batch) eq_refl).
  exact H2.
Qed.

Lemma runBatches_invariant (sched : Schedule) (batches : list (list jsstring)) :
  forall batch offset st,
    Forall (Forall (fun t => t ∈ titles)) batches -> Inv st ->
    Inv (runBatches pf w sched batch offset batches st).
Proof.
  induction batches as [|b batches IH]; intros batch offset st Hin Hst; [exact Hst|].
  apply Forall_cons in Hin as [Hhere Hrest]. cbn [runBatches]. apply IH; [exact Hrest|].
  pose proof (runBatch_invariant sched batch offset b st Hhere Hst) as H1.
  destruct batches; [exact H1 | apply pause_inv; exact H1].
Qed.

End RunInvariant.

Section QuestionFacts.

Import Value Types Generate.

Context (pf : Platform) (w : World).

Lemma buildQuestion_created (n : nat) (out : list (jsstring * JsValue))
    (sanitized : jsstring) :
  getProp (buildQuestion w n (JObject out) sanitized) (js "created_at")
  = JString (createdAt w n).
Proof.
  unfold buildQuestion, define. cbn [getProp propsOf].
  rewrite fold_left_app. cbn [fold_left fst snd]. apply lookup_assign_eq.
Qed.

Lemma buildQuestion_id (n : nat) (out : list (jsstring * JsValue))
    (sanitized : jsstring) :
  NoDup (map fst out) ->
  getProp (buildQuestion w n (JObject out) sanitized) (js "id")
  = if bool_decide (js "id" ∈ map fst out)
    then lookup (js "id") out else JString (generateId w n).
Proof.
  intros Hnd. unfold buildQuestion. cbn [getProp propsOf].
  unfold define at 1. rewrite fold_left_app. cbn [fold_left fst snd].
  rewrite !lookup_assign_ne by keys_differ.
  fold (define [(js "id", JString (generateId w n))] out).
  rewrite (lookup_define (js "id") out _ Hnd). case_bool_decide; [reflexivity|].
  cbn [lookup]. rewrite bool_decide_eq_true_2 by reflexivity. reflexivity.
Qed.

(** The events of a trace that hand a question over carry a title of
    the request; an event that hands nothing over does not matter. *)
Lemma titled_log (titles : list jsstring) (e : Event) (st : State) :
  titledFrom titles e -> Forall (titledFrom titles) (trace st) ->
  Forall (titledFrom titles) (trace (log e st)).
Proof.
  intros He Hst. cbn [log trace]. apply Forall_app. split; [exact Hst|].
  constructor; [exact He | constructor].
Qed.

Lemma titled_start (titles : list jsstring) (batch offset : nat) (st : State)
    (pending : list Pending) (index : nat) (title : jsstring) :
  title ∈ titles ->
  Forall (titledFrom titles) (trace st) ->
  Forall (fun p => rawTitle p ∈ titles /\ sanitizedTitle p = trim (rawTitle p)) pending ->
  Forall (titledFrom titles) (trace (startTask batch offset (st, pending) (index, title)).1)
  /\ Forall (fun p => rawTitle p ∈ titles /\ sanitizedTitle p = trim (rawTitle p))
       (startTask batch offset (st, pending) (index, title)).2.
Proof.
  intros Hin Hst Hgood. unfold startTask.
  destruct (Validation.validateAndSanitizeTitle title) as [sanitized|e] eqn:Hval;
    cbn [fst snd].
  - apply validateAndSanitizeTitle_ok in Hval as [-> _]. split.
    + destruct (0 <? index)%nat; repeat apply titled_log; try exact I; exact Hst.
    + apply Forall_app. split; [exact Hgood|]. constructor; [|constructor].
      cbn [rawTitle sanitizedTitle]. auto.
  - split; [|exact Hgood]. apply titled_log; [exact I|].
    cbn [recordFailure trace log]. apply Forall_app. split; [exact Hst|].
    constructor; [exact I | constructor].
Qed.

Lemma titled_settle (titles : list jsstring) (batch : nat) (st : State) (p : Pending) :
  rawTitle p ∈ titles /\ sanitizedTitle p = trim (rawTitle p) ->
  Forall (titledFrom titles) (trace st) ->
  Forall (titledFrom titles) (trace (settleTask pf w batch st p)).
Proof.
  intros [Hin Hsan] Hst.
  assert (Hfail : forall e st0, Forall (titledFrom titles) (trace st0) ->
             Forall (titledFrom titles)
               (trace (log (TaskSettled batch (batchIndex p) false)
                         (recordFailure (rawTitle p) e st0)))).
  { intros e st0 Hst0. apply titled_log; [exact I | exact Hst0]. }
  unfold settleTask.
  destruct (Gemini.generateQuestionMetadata pf w (task p) (sanitizedTitle p))
    as [metadata|e] eqn:Hgen; [|apply Hfail; exact Hst].
  destruct (generateQuestionMetadata_ok pf w _ _ _ Hgen) as [text Hparse].
  destruct (parseResponse_ok pf text metadata Hparse) as (out & -> & _).
  set (question := buildQuestion w (task p) (JObject out) (sanitizedTitle p)).
  match goal with |- context [if ?c then _ else _] => destruct c end;
    [apply Hfail; exact Hst|].
  assert (Hlogged : Forall (titledFrom titles)
                      (trace (log (SaveCalled batch (batchIndex p) question) st))).
  { apply titled_log; [|exact Hst]. exists (rawTitle p). split; [exact Hin|].
    unfold question. rewrite buildQuestion_title, Hsan. reflexivity. }
  destruct (Database.saveQuestion pf _ question _) as [table'|e];
    [|apply Hfail; exact Hlogged].
  apply titled_log; [exact I | exact Hlogged].
Qed.

(** The table of the run keeps its keys unique. *)
Lemma unique_start (batch offset : nat) (st : State) (pending : list Pending)
    (index : nat) (title : jsstring) :
  Database.uniqueKeys (table st) ->
  Database.uniqueKeys (table (startTask batch offset (st, pending) (index, title)).1).
Proof.
  intros Hst. unfold startTask.
  destruct (Validation.validateAndSanitizeTitle title); cbn [fst];
    [destruct (0 <? index)%nat|]; exact Hst.
Qed.

Lemma unique_settle (batch : nat) (st : State) (p : Pending) :
  Database.uniqueKeys (table st) ->
  Database.uniqueKeys (table (settleTask pf w batch st p)).
Proof.
  intros Hst. unfold settleTask.
  destruct (Gemini.generateQuestionMetadata pf w (task p) (sanitizedTitle p));
    [|exact Hst].
  match goal with |- context [if ?c then _ else _] => destruct c end; [exact Hst|].
  cbn [log table].
  destruct (Database.saveQuestion pf _ _ (table st)) as [table'|e] eqn:Hsave;
    [|exact Hst].
  cbn [log recordSuccess table].
  apply saveQuestion_inv in Hsave as (row & -> & _). apply insert_unique. exact Hst.
Qed.

(** The sleeps between batches of a run: one less than there are
    batches. *)
Lemma pauses_app (a b : list Event) : pauses (a ++ b) = pauses a ++ pauses b.
Proof. unfold pauses. apply filter_app. Qed.

Lemma pauses_tasks (batch : nat) (evs : list Event) :
  Forall (taskEvent batch) evs -> pauses evs = [].
Proof.
  unfold pauses. induction 1 as [|e evs [He _] _ IH]; [reflexivity|].
  rewrite filter_cons_False by (rewrite He; discriminate). exact IH.
Qed.

Lemma pauses_runBatches (sched : Schedule) (batches : list (list jsstring)) :
  forall batch offset st,
    pauses (trace (runBatches pf w sched batch offset batches st))
    = pauses (trace st)
      ++ replicate (length batches - 1) (BatchPause (GENERATION_DELAY * 2)).
Proof.
  induction batches as [|t batches IH]; intros batch offset st.
  - cbn. rewrite app_nil_r. reflexivity.
  - destruct (runBatch_trace pf w sched batch offset t st) as (evs & Htr & Hev & _).
    destruct batches as [|t2 batches].
    + cbn [runBatches length Nat.sub replicate]. rewrite Htr, pauses_app.
      rewrite (pauses_tasks batch evs Hev). reflexivity.
    + rewrite runBatches_more, IH. cbn [log trace]. rewrite Htr, !pauses_app.
      rewrite (pauses_tasks batch evs Hev), app_nil_r.
      cbn [length Nat.sub]. rewrite Nat.sub_0_r. rewrite <- app_assoc. reflexivity.
Qed.

Lemma slices_length (fuel : nat) :
  forall titles : list jsstring,
    (length titles <= fuel)%nat ->
    length (slices fuel titles) = ((length titles + 2) / 3)%nat.
Proof.
  induction fuel as [|fuel IH]; intros titles Hlen.
  - destruct titles; [reflexivity | cbn in Hlen; lia].
  - destruct titles as [|t titles]; [reflexivity|].
    cbn [slices length]. rewrite IH
      by (rewrite length_drop; unfold MAX_CONCURRENT_GENERATIONS; cbn [length] in *; lia).
    rewrite length_drop. unfold MAX_CONCURRENT_GENERATIONS. cbn [length].
    destruct titles as [|t2 [|t3 titles]]; [reflexivity | reflexivity|].
    cbn [length].
    replace (S (S (S (length titles))) - 3 + 2)%nat with (length titles + 2)%nat by lia.
    replace (S (S (S (length titles))) + 2)%nat with (length titles + 2 + 1 * 3)%nat by lia.
    rewrite Nat.div_add by lia. lia.
Qed.

End QuestionFacts.

Section PostClaims.

Import Value Types Generate.

(** X24: once the body of the request is decoded, [POST] has two ways
    to answer and no other.  A body the schema refuses gets the status
    400 with the schema's message, and nothing is started.  A body the
    schema accepts gets the answer made from the ledger, with the
    status 200, 207 or 500: the two length checks of the handler never
    answer, since the schema has bounded the titles, and no failure of
    a task reaches the outer handlers for [GeminiError] and
    [DatabaseError], since every task catches its own. *)
Theorem X24_POST_rejects_or_reports (pf : Platform) (w : World)
    (sched : Schedule) (body : JsValue)
    (table : list Database.DatabaseQuestion) :
  let answer := POST pf w sched body table in
  match Schema.GenerateRequestSchema body with
  | None =>
      answer
      = (failure 400 (js "Invalid generate request: " ++ zodIssueMessage pf body),
         initial table)
  | Some titles =>
      answer.1 = respond (generationStatus answer.2)
      /\ httpStatus answer.1 ∈ [200; 207; 500]%nat
      /\ data answer.1 = Some (generationStatus answer.2)
      /\ total (generationStatus answer.2) = length titles
  end.
Proof.
  cbn zeta. destruct (Schema.GenerateRequestSchema body) as [titles|] eqn:Hschema.
  - rewrite (POST_accepted pf w sched body titles table Hschema). cbn [fst snd].
    split; [reflexivity|].
    destruct (POST_ledger pf w sched titles table) as [Htotal _]. cbn zeta in Htotal.
    split; [|split; [|exact Htotal]].
    + unfold respond.
      destruct (completed _ =? 0)%nat; [cbn [httpStatus]; list_mem|].
      destruct (0 <? failed _)%nat; cbn [httpStatus]; list_mem.
    + unfold respond. destruct (completed _ =? 0)%nat; reflexivity.
  - apply POST_rejected. exact Hschema.
Qed.

(** X25: for an accepted body the status tells the outcome: 200 exactly
    when no title failed, 500 exactly when none completed, 207 exactly
    when some completed and some failed; the flag [success] is set for
    200 only, and an [error] text comes with 500 only. *)
Theorem X25_status_tells_the_outcome (pf : Platform) (w : World)
    (sched : Schedule) (body : JsValue)
    (titles : list jsstring) (table : list Database.DatabaseQuestion) :
  Schema.GenerateRequestSchema body = Some titles ->
  let answer := POST pf w sched body table in
  let ledger := generationStatus answer.2 in
  (completed ledger + failed ledger = length titles)%nat
  /\ (httpStatus answer.1 = 200%nat <-> failed ledger = 0%nat)
  /\ (httpStatus answer.1 = 500%nat <-> completed ledger = 0%nat)
  /\ (httpStatus answer.1 = 207%nat <->
      (0 < completed ledger)%nat /\ (0 < failed ledger)%nat)
  /\ (success answer.1 = true <-> httpStatus answer.1 = 200%nat)
  /\ (error answer.1 = None <-> httpStatus answer.1 <> 500%nat).
Proof.
  intros Hschema. cbn zeta.
  rewrite (POST_accepted pf w sched body titles table Hschema). cbn [fst snd].
  destruct (schema_bounds body titles Hschema) as [[Hlo _] _].
  destruct (POST_ledger pf w sched titles table) as [_ Hcount]. cbn zeta in Hcount.
  set (ledger := generationStatus _) in *.
  split; [exact Hcount|]. unfold respond.
  destruct (completed ledger =? 0)%nat eqn:Hnone.
  - apply Nat.eqb_eq in Hnone. cbn [httpStatus success error].
    repeat split; intros; try discriminate; try lia; try congruence.
  - apply Nat.eqb_neq in Hnone.
    destruct (0 <? failed ledger)%nat eqn:Hsome; cbn [httpStatus success error negb].
    + apply Nat.ltb_lt in Hsome.
      repeat split; intros; try discriminate; try lia; try congruence.
    + apply Nat.ltb_ge in Hsome.
      repeat split; intros; try discriminate; try lia; try congruence.
Qed.

Lemma X25_status_tells_the_outcome_witness :
  let answer :=
    POST Examples.platform (Examples.worldReplying Examples.completeReply)
      Examples.inOrder (request [Examples.evenOdd; js "  "]) [] in
  httpStatus answer.1 = 207%nat <->
  (0 < completed (generationStatus answer.2))%nat
  /\ (0 < failed (generationStatus answer.2))%nat.
Proof.
  intros answer.
  apply (X25_status_tells_the_outcome Examples.platform
           (Examples.worldReplying Examples.completeReply) Examples.inOrder
           (request [Examples.evenOdd; js "  "]) [Examples.evenOdd; js "  "] []).
  reflexivity.
Defined.

(** X26: in the question the handler builds, the title and the stamp
    [created_at] are the handler's own, whatever the reply of the
    service held under those names; the identifier is the generated one
    only when the reply holds no property [id]: a reply that holds one
    decides the identifier; every other property is the reply's. *)
Theorem X26_who_decides_a_field (w : World) (n : nat)
    (out : list (jsstring * JsValue)) (sanitized : jsstring) :
  NoDup (map fst out) ->
  let question := buildQuestion w n (JObject out) sanitized in
  getProp question (js "title") = JString sanitized
  /\ getProp question (js "created_at") = JString (createdAt w n)
  /\ getProp question (js "id")
     = (if bool_decide (js "id" ∈ map fst out)
        then lookup (js "id") out else JString (generateId w n))
  /\ forall key,
       key <> js "id" -> key <> js "title" -> key <> js "created_at" ->
       getProp question key = lookup key out.
Proof.
  intros Hnd question. unfold question.
  split; [apply buildQuestion_title|]. split; [apply buildQuestion_created|].
  split; [apply buildQuestion_id; exact Hnd|].
  intros key H1 H2 H3. apply buildQuestion_spread; assumption.
Qed.

Lemma X26_who_decides_a_field_witness :
  let out := [(js "id", JString (js "chosen by the reply"));
              (js "title", JString (js "another title"))] in
  let question :=
    buildQuestion (Examples.worldReplying Examples.completeReply) 0 (JObject out)
      Examples.evenOdd in
  getProp question (js "title") = JString Examples.evenOdd
  /\ getProp question (js "id") = JString (js "chosen by the reply").
Proof.
  intros out question.
  destruct (X26_who_decides_a_field (Examples.worldReplying Examples.completeReply) 0
              out Examples.evenOdd) as (Htitle & _ & Hid & _).
  - repeat constructor; intros Hin; repeat (apply elem_of_cons in Hin as [Hin | Hin]);
      try discriminate Hin; apply elem_of_nil in Hin; exact Hin.
  - split; [exact Htitle | exact Hid].
Defined.

(** X27: every question the handler hands to [saveQuestion] carries the
    title of a title of the request, trimmed: the service has no say in
    the title under which its reply is stored. *)
Theorem X27_saved_titles_come_from_the_request (pf : Platform) (w : World)
    (sched : Schedule) (body : JsValue) (titles : list jsstring)
    (table : list Database.DatabaseQuestion) :
  Schema.GenerateRequestSchema body = Some titles ->
  Forall (titledFrom titles) (trace (POST pf w sched body table).2).
Proof.
  intros Hschema. rewrite (POST_accepted pf w sched body titles table Hschema).
  cbn [snd].
  apply (runBatches_invariant pf w titles
           (fun st => Forall (titledFrom titles) (trace st))
           (fun p => rawTitle p ∈ titles /\ sanitizedTitle p = trim (rawTitle p))).
  - intros batch offset st pending index title. apply titled_start.
  - intros batch st p. apply titled_settle.
  - intros st Hst. apply titled_log; [exact I | exact Hst].
  - apply batchesOf_within.
  - constructor.
Qed.

Lemma X27_saved_titles_come_from_the_request_witness :
  Forall (titledFrom [js " t "])
    (trace (POST Examples.platform (Examples.worldReplying Examples.thinReply)
              Examples.inOrder (request [js " t "]) []).2).
Proof.
  apply (X27_saved_titles_come_from_the_request Examples.platform
           (Examples.worldReplying Examples.thinReply) Examples.inOrder
           (request [js " t "]) [js " t "] []).
  reflexivity.
Defined.

(** X28: a request of [n] accepted titles runs in [(n + 2) / 3] batches
    and sleeps between batches exactly one time less, each time for
    twice [GENERATION_DELAY]; a request of at most three titles never
    sleeps between batches. *)
Theorem X28_pauses_between_batches (pf : Platform) (w : World) (sched : Schedule)
    (body : JsValue) (titles : list jsstring) (table : list Database.DatabaseQuestion) :
  Schema.GenerateRequestSchema body = Some titles ->
  length (batchesOf titles) = ((length titles + 2) / 3)%nat
  /\ pauses (trace (POST pf w sched body table).2)
     = replicate ((length titles + 2) / 3 - 1) (BatchPause (GENERATION_DELAY * 2)).
Proof.
  intros Hschema.
  assert (Hbatches : length (batchesOf titles) = ((length titles + 2) / 3)%nat)
    by (apply slices_length; lia).
  split; [exact Hbatches|].
  rewrite (POST_accepted pf w sched body titles table Hschema). cbn [snd].
  rewrite pauses_runBatches, Hbatches. reflexivity.
Qed.

Lemma X28_pauses_between_batches_witness :
  pauses (trace (POST Examples.platform (Examples.worldReplying Examples.thinReply)
                   Examples.inOrder
                   (request [js "a"; js "b"; js "c"; js "d"]) []).2)
  = [BatchPause 2000].
Proof.
  apply (proj2 (X28_pauses_between_batches Examples.platform
                  (Examples.worldReplying Examples.thinReply) Examples.inOrder
                  (request [js "a"; js "b"; js "c"; js "d"])
                  [js "a"; js "b"; js "c"; js "d"] [] eq_refl)).
Defined.

(** X29: [POST] keeps the keys of the table unique, whatever the body,
    the replies of the service and the order in which the tasks resume:
    a table without two rows of one identifier or one title is left
    without such rows. *)
Theorem X29_POST_keeps_keys_unique (pf : Platform) (w : World) (sched : Schedule)
    (body : JsValue) (table : list Database.DatabaseQuestion) :
  Database.uniqueKeys table ->
  Database.uniqueKeys (Generate.table (POST pf w sched body table).2).
Proof.
  intros Huniq.
  destruct (Schema.GenerateRequestSchema body) as [titles|] eqn:Hschema.
  - rewrite (POST_accepted pf w sched body titles table Hschema). cbn [snd].
    apply (runBatches_invariant pf w titles
             (fun st => Database.uniqueKeys (Generate.table st)) (fun _ => True)).
    + intros batch offset st pending index title _ Hst _.
      split; [apply unique_start; exact Hst|].
      apply Forall_forall. auto.
    + intros batch st p _. apply unique_settle.
    + intros st Hst. exact Hst.
    + apply batchesOf_within.
    + exact Huniq.
  - rewrite (POST_rejected pf w sched body table Hschema). exact Huniq.
Qed.

Lemma X29_POST_keeps_keys_unique_witness :
  Database.uniqueKeys
    (Generate.table
       (POST Examples.platform (Examples.worldReplying Examples.completeReply)
          Examples.inOrder (request [Examples.evenOdd; js "Check if a number is even or odd "])
          Examples.savedTable).2).
Proof.
  apply (X29_POST_keeps_keys_unique Examples.platform
           (Examples.worldReplying Examples.completeReply) Examples.inOrder).
  split; [constructor | exact I].
Defined.

End PostClaims.

(** ** app/api/generate/route.ts: the schedule and the ledger *)

Section ScheduleFacts.

Import Value Types Generate.

Context (pf : Platform) (w : World).

Lemma sameTotals_refl (a : GenerationStatus) : sameTotals a a.
Proof. repeat split; reflexivity. Qed.

Lemma sameTotals_trans (a b c : GenerationStatus) :
  sameTotals a b -> sameTotals b c -> sameTotals a c.
Proof.
  intros (H1 & H2 & H3 & H4) (K1 & K2 & K3 & K4).
  repeat split; try congruence. etrans; eassumption.
Qed.

Lemma sameTotals_settled (o : option jsstring) (a b : GenerationStatus) :
  sameTotals a b -> sameTotals (settledAs o a) (settledAs o b).
Proof.
  intros (H1 & H2 & H3 & H4). destruct o as [entry|]; cbn [settledAs];
    repeat split; cbn [total completed failed errors]; try congruence;
    rewrite ?H4; reflexivity.
Qed.

Lemma sameTotals_swap (o1 o2 : option jsstring) (a b : GenerationStatus) :
  sameTotals a b ->
  sameTotals (settledAs o1 (settledAs o2 a)) (settledAs o2 (settledAs o1 b)).
Proof.
  intros (H1 & H2 & H3 & H4).
  destruct o1 as [e1|], o2 as [e2|]; cbn [settledAs];
    repeat split; cbn [total completed failed errors]; try congruence;
    rewrite ?H4; try reflexivity.
  rewrite <- !app_assoc. cbn [app]. apply Permutation_app_head. apply perm_swap.
Qed.

(** Whether a save succeeds, and with which error it fails, does not
    depend on the rows already stored. *)
Lemma saveQuestion_outcome (now : jsstring) (question : JsValue)
    (table1 table2 : list Database.DatabaseQuestion) :
  match Database.saveQuestion pf now question table1,
        Database.saveQuestion pf now question table2 with
  | Ok _, Ok _ => True
  | Throw e1, Throw e2 => e1 = e2
  | _, _ => False
  end.
Proof.
  unfold Database.saveQuestion.
  destruct (Database.bindParameters pf _) as [values|e];
    cbn [bind Database.wrapError]; [|reflexivity].
  unfold Database.insert.
  destruct (Database.rowOf values) as [row|]; [|reflexivity].
  destruct (Database.notNullViolation row); [reflexivity|].
  destruct (Database.difficultyCheck row); [exact I | reflexivity].
Qed.

(** What a task does to the ledger when it resumes is decided by the
    task alone. *)
Lemma settleTask_outcome (p : Pending) :
  exists o, forall batch st,
    generationStatus (settleTask pf w batch st p) = settledAs o (generationStatus st).
Proof.
  unfold settleTask.
  destruct (Gemini.generateQuestionMetadata pf w (task p) (sanitizedTitle p))
    as [metadata|e].
  - match goal with
    | |- context [if ?c then _ else _] => destruct c eqn:Hgate
    end.
    + eexists (Some _). intros batch st. reflexivity.
    + destruct (Database.saveQuestion pf (savedAt w (task p))
                  (buildQuestion w (task p) metadata (sanitizedTitle p)) [])
        as [t0|e0] eqn:Hsave0.
      * exists None. intros batch st. cbn [log table].
        pose proof (saveQuestion_outcome (savedAt w (task p))
                      (buildQuestion w (task p) metadata (sanitizedTitle p))
                      (table st) []) as Hsame.
        rewrite Hsave0 in Hsame.
        destruct (Database.saveQuestion pf _ _ (table st)); [reflexivity | destruct Hsame].
      * exists (Some (errorEntry (rawTitle p) (Utils.getErrorMessage e0))).
        intros batch st. cbn [log table].
        pose proof (saveQuestion_outcome (savedAt w (task p))
                      (buildQuestion w (task p) metadata (sanitizedTitle p))
                      (table st) []) as Hsame.
        rewrite Hsave0 in Hsame.
        destruct (Database.saveQuestion pf _ _ (table st)) as [t1|e1];
          [destruct Hsame | subst e1; reflexivity].
  - eexists (Some _). intros batch st. reflexivity.
Qed.

Lemma settleAll_same (batch : nat) (order : list Pending) :
  forall st1 st2,
    sameTotals (generationStatus st1) (generationStatus st2) ->
    sameTotals (generationStatus (fold_left (settleTask pf w batch) order st1))
      (generationStatus (fold_left (settleTask pf w batch) order st2)).
Proof.
  induction order as [|p order IH]; intros st1 st2 Hsame; [exact Hsame|].
  cbn [fold_left]. apply IH. destruct (settleTask_outcome p) as [o Ho].
  rewrite !Ho. apply sameTotals_settled. exact Hsame.
Qed.

(** The order in which the tasks of a batch resume does not change the
    counts of the ledger. *)
Lemma settleAll_permuted (batch : nat) (order1 order2 : list Pending) :
  order1 ≡ₚ order2 ->
  forall st1 st2,
    sameTotals (generationStatus st1) (generationStatus st2) ->
    sameTotals (generationStatus (fold_left (settleTask pf w batch) order1 st1))
      (generationStatus (fold_left (settleTask pf w batch) order2 st2)).
Proof.
  induction 1 as [|p l1 l2 _ IH|p q l|l1 l2 l3 _ IH1 _ IH2]; intros st1 st2 Hsame.
  - exact Hsame.
  - cbn [fold_left]. apply IH. destruct (settleTask_outcome p) as [o Ho].
    rewrite !Ho. apply sameTotals_settled. exact Hsame.
  - cbn [fold_left]. apply settleAll_same.
    destruct (settleTask_outcome p) as [op Hp], (settleTask_outcome q) as [oq Hq].
    repeat (rewrite Hp || rewrite Hq). apply sameTotals_swap. exact Hsame.
  - eapply sameTotals_trans; [apply IH1; exact Hsame|].
    apply IH2. apply sameTotals_refl.
Qed.

Lemma startTask_same (batch offset : nat) (st1 st2 : State) (pending : list Pending)
    (entry : nat * jsstring) :
  sameTotals (generationStatus st1) (generationStatus st2) ->
  sameTotals (generationStatus (startTask batch offset (st1, pending) entry).1)
    (generationStatus (startTask batch offset (st2, pending) entry).1)
  /\ (startTask batch offset (st1, pending) entry).2
     = (startTask batch offset (st2, pending) entry).2.
Proof.
  intros Hsame. destruct entry as [index title]. unfold startTask.
  destruct (Validation.validateAndSanitizeTitle title) as [sanitized|e]; cbn [fst snd].
  - split; [|reflexivity]. destruct (0 <? index)%nat; exact Hsame.
  - split; [|reflexivity].
    apply (sameTotals_settled (Some (errorEntry title (Utils.getErrorMessage e)))).
    exact Hsame.
Qed.

Lemma startAll_same (batch offset : nat) (entries : list (nat * jsstring)) :
  forall st1 st2 pending,
    sameTotals (generationStatus st1) (generationStatus st2) ->
    sameTotals
      (generationStatus (fold_left (startTask batch offset) entries (st1, pending)).1)
      (generationStatus (fold_left (startTask batch offset) entries (st2, pending)).1)
    /\ (fold_left (startTask batch offset) entries (st1, pending)).2
       = (fold_left (startTask batch offset) entries (st2, pending)).2.
Proof.
  induction entries as [|entry entries IH]; intros st1 st2 pending Hsame; [auto|].
  cbn [fold_left].
  destruct (startTask_same batch offset st1 st2 pending entry Hsame) as [H1 H2].
  destruct (startTask batch offset (st1, pending) entry) as [a1 p1].
  destruct (startTask batch offset (st2, pending) entry) as [a2 p2].
  cbn [fst snd] in *. subst p2. apply IH. exact H1.
Qed.

Lemma runBatch_same (sched1 sched2 : Schedule) (batch offset : nat)
    (titles : list jsstring) (st1 st2 : State) :
  sameTotals (generationStatus st1) (generationStatus st2) ->
  sameTotals (generationStatus (runBatch pf w sched1 batch offset titles st1))
    (generationStatus (runBatch pf w sched2 batch offset titles st2)).
Proof.
  intros Hsame. unfold runBatch.
  destruct (startAll_same batch offset (imap (fun i t => (i, t)) titles) st1 st2 []
              Hsame) as [H1 H2].
  destruct (fold_left (startTask batch offset) _ (st1, [])) as [a1 p1].
  destruct (fold_left (startTask batch offset) _ (st2, [])) as [a2 p2].
  cbn [fst snd] in *. subst p2.
  apply settleAll_permuted; [|exact H1].
  rewrite (arrange_perm (sched1 batch) (length p1) p1 (sched1 batch) eq_refl).
  rewrite (arrange_perm (sched2 batch) (length p1) p1 (sched2 batch) eq_refl).
  reflexivity.
Qed.

Lemma runBatches_same (sched1 sched2 : Schedule) (batches : list (list jsstring)) :
  forall batch offset st1 st2,
    sameTotals (generationStatus st1) (generationStatus st2) ->
    sameTotals (generationStatus (runBatches pf w sched1 batch offset batches st1))
      (generationStatus (runBatches pf w sched2 batch offset batches st2)).
Proof.
  induction batches as [|t batches IH]; intros batch offset st1 st2 Hsame; [exact Hsame|].
  cbn [runBatches]. apply IH.
  pose proof (runBatch_same sched1 sched2 batch offset t st1 st2 Hsame) as H1.
  destruct batches; exact H1.
Qed.

End ScheduleFacts.

Section ScheduleClaims.

Import Value Types Generate.

(** X30: the order in which the event loop resumes the tasks of a batch
    does not change the outcome of a request: under any two schedules
    the ledger has the same total, the same numbers of completed and
    failed titles and the same error entries, in another order at most,
    and the response has the same status, flag and message. *)
Theorem X30_totals_do_not_depend_on_the_schedule (pf : Platform) (w : World)
    (sched1 sched2 : Schedule) (body : JsValue)
    (table : list Database.DatabaseQuestion) :
  let run1 := POST pf w sched1 body table in
  let run2 := POST pf w sched2 body table in
  sameTotals (generationStatus run1.2) (generationStatus run2.2)
  /\ httpStatus run1.1 = httpStatus run2.1
  /\ success run1.1 = success run2.1
  /\ message run1.1 = message run2.1.
Proof.
  cbn zeta. destruct (Schema.GenerateRequestSchema body) as [titles|] eqn:Hschema.
  - rewrite !(POST_accepted pf w _ body titles table Hschema). cbn [fst snd].
    pose proof (runBatches_same pf w sched1 sched2 (batchesOf titles) 0 0
                  (started titles table) (started titles table)
                  (sameTotals_refl _)) as Hsame.
    split; [exact Hsame|]. destruct Hsame as (Htotal & Hcompleted & Hfailed & _).
    unfold respond. rewrite Htotal, Hcompleted, Hfailed.
    destruct (completed _ =? 0)%nat; auto.
  - rewrite !(POST_rejected pf w _ body table Hschema). cbn [fst snd].
    split; [apply sameTotals_refl | auto].
Qed.

End ScheduleClaims.

(** ** The model on small inputs *)

Section ModelOnSmallInputs.

Import Value Regex.

(** [trim] strips the ECMAScript white space at both ends only. *)
Example trim_sample : trim (js "  two  words ") = js "two  words".
Proof. vm_compute. reflexivity. Qed.

(** The brace pattern is greedy: from the first opening brace to the
    last closing one. *)
Example braces_greedy :
  str_match braces (js "see {a} and {b}, thanks") = Some [js "{a} and {b}"].
Proof. vm_compute. reflexivity. Qed.

(** The fenced pattern captures the span between the fences. *)
Example fenced_capture :
  str_match fenced (js "```json {x} ``` done")
  = Some [js "```json {x} ```"; js "{x}"].
Proof. vm_compute. reflexivity. Qed.

(** A repeated key takes the last value; a number is read exactly. *)
Example decode_sample :
  Json.decode (Examples.jsq "{'a': 1, 'b': [true, null, -2.50e3], 'a': 'x'}")
  = Some (JObject
            [(js "a", JString (js "x"));
             (js "b",
               JArray [JBool true; JNull;
                       JNumber {| negative := true; mantissa := 250;
                                  exponent10 := 1 |}])]).
Proof. vm_compute. reflexivity. Qed.

Example decode_rejects_trailing_comma : Json.decode (js "[1,]") = None.
Proof. vm_compute. reflexivity. Qed.

(** Zero in any spelling, and a literal below the least double, are
    falsy. *)
Example falsy_numbers :
  option_map truthy (Json.decode (js "0.0e5")) = Some false
  /\ option_map truthy (Json.decode (js "-0")) = Some false
  /\ option_map truthy (Json.decode (js "1e-400")) = Some false
  /\ option_map truthy (Json.decode (js "1e-300")) = Some true.
Proof. vm_compute. repeat split. Qed.

(** On the empty string [validateAndSanitizeTitle] answers 'Title is
    required'; 'Title cannot be empty' is its answer to a blank title. *)
Example sanitize_empty_and_blank :
  Validation.validateAndSanitizeTitle Examples.emptyTitle
  = Throw (mkError ValidationError (js "Title is required"))
  /\ Validation.validateAndSanitizeTitle (js "   ")
     = Throw (mkError ValidationError (js "Title cannot be empty")).
Proof. vm_compute. repeat split. Qed.

(** [JSON.stringify] escapes the quote, the backslash and the control
    characters, and [JSON.parse] reads them back. *)
Example quote_roundtrip_sample :
  Json.parseChars (JsonText.quoteUnits [34; 92; 10; 1; 97]%N ++ [34]%N)
  = Some ([34; 92; 10; 1; 97]%N, []).
Proof. vm_compute. reflexivity. Qed.

(** [validateEmail] wants one at sign and a dot behind it. *)
Example validateEmail_samples :
  Validation.validateEmail (js "ada@example.org") = true
  /\ Validation.validateEmail (js "ada@example") = false
  /\ Validation.validateEmail (js "ada@@example.org") = false
  /\ Validation.validateEmail (js "ada lovelace@example.org") = false
  /\ Validation.validateEmail (js "@example.org") = false.
Proof. vm_compute. repeat split. Qed.

Example sanitizeHtml_sample :
  Validation.sanitizeHtml (js "<a href='/x'>R&D</a>")
  = js "&lt;a href=&#x27;&#x2F;x&#x27;&gt;R&amp;D&lt;&#x2F;a&gt;".
Proof. vm_compute. reflexivity. Qed.

(** The first of several forwarded addresses names the client; the
    blank after the comma stays with the second piece. *)
Example getClientId_sample :
  RateLimiter.str_split 44 (js "203.0.113.7, 198.51.100.2")
  = [js "203.0.113.7"; js " 198.51.100.2"]
  /\ RateLimiter.getClientId
       {| RateLimiter.headersGet := fun name =>
            if bool_decide (name = js "x-forwarded-for")
            then Some (js "203.0.113.7, 198.51.100.2") else None |}
     = js "203.0.113.7"
  /\ RateLimiter.getClientId
       {| RateLimiter.headersGet := fun name =>
            if bool_decide (name = js "x-real-ip") then Some (js "198.51.100.2") else None |}
     = js "198.51.100.2".
Proof. vm_compute. repeat split. Qed.

(** Two titles that trim to the same text both complete, and one row is
    left: the second save replaces the row of the first. *)
Example same_title_twice :
  let run := Generate.POST Examples.platform
               (Examples.worldReplying Examples.completeReply) Examples.inOrder
               (Generate.request [Examples.evenOdd; js " Check if a number is even or odd"])
               [] in
  Types.completed (Generate.generationStatus run.2) = 2%nat
  /\ length (Generate.table run.2) = 1%nat.
Proof. vm_compute. repeat split. Qed.

(** An identifier that ends in a lone surrogate is stored with U+FFFD in
    its place: the question is read back under the stored identifier,
    and every key bound to the same text finds it. *)
Example lone_surrogate_identifier :
  exists table' read,
    Database.saveQuestion Examples.platform (js "2024-05-02T08:30:00.000Z")
      (Types.toJs Examples.loneSurrogateQuestion) [] = Ok table'
    /\ Database.getQuestion Examples.platform (js "q-" ++ [55296%N]) table'
       = Ok (Some read)
    /\ Value.getProp read (js "id") = JString (js "q-" ++ [65533%N])
    /\ Database.getQuestion Examples.platform (js "q-" ++ [65533%N]) table'
       = Ok (Some read)
    /\ Database.getQuestion Examples.platform (js "q-" ++ [56320%N]) table'
       = Ok (Some read)
    /\ Database.deleteQuestion (js "q-" ++ [55297%N]) table' = Ok (true, []).
Proof.
  eexists. eexists. split; [vm_compute; reflexivity|].
  split; [vm_compute; reflexivity|]. repeat split.
Qed.

End ModelOnSmallInputs.
